(** * OpenScan3 firmware: hardware orchestration core and sensor intrinsics

    A shallow embedding of

    - [openscan_firmware/config/sensors.py]  (module [Sensors]),
    - [openscan_firmware/utils/photos/exif.py]  (module [Exif]),
    - [openscan_firmware/controllers/device.py]  (module [Device]),

    together with the properties of these functions that the design
    document states.  Python [float]s are IEEE binary64 values and are
    modelled by Rocq's primitive floats; Python [int]s are [Z]; Python
    [dict]s are association lists in insertion order; a call that may
    raise returns a [result]. *)

From Stdlib Require Import ZArith List String Ascii Bool Lia Floats.
From Stdlib Require Import DecimalString DecimalNat FinFun.
Import ListNotations.

Set Warnings "-inexact-float".
Local Open Scope string_scope.
Local Open Scope list_scope.
Local Open Scope Z_scope.

(* ================================================================== *)
(** * Python values *)
(* ================================================================== *)

Module Py.

(** The exceptions that the embedded code can raise. *)
Inductive exn : Type :=
| ZeroDivisionError
| OverflowError
| ValueError
| RuntimeError (msg : string).

Inductive result (A : Type) : Type :=
| Ok (a : A)
| Raise (e : exn).
Arguments Ok {A} a.
Arguments Raise {A} e.

Definition bind {A B} (r : result A) (k : A -> result B) : result B :=
  match r with
  | Ok a => k a
  | Raise e => Raise e
  end.

(** ** Strings *)

(** [str.lower()] on ASCII text: the letters A..Z move to a..z. *)
Definition lower_ascii (c : ascii) : ascii :=
  let n := nat_of_ascii c in
  if (Nat.leb 65 n && Nat.leb n 90)%bool then ascii_of_nat (n + 32) else c.

Fixpoint lower (s : string) : string :=
  match s with
  | EmptyString => EmptyString
  | String c s' => String (lower_ascii c) (lower s')
  end.

(** [str(n)] for a non-negative integer. *)
Definition str_of_nat (n : nat) : string :=
  NilEmpty.string_of_uint (Nat.to_uint n).

(** ** Dictionaries: association lists in insertion order *)

Definition dict (V : Type) : Type := list (string * V).

Fixpoint dict_get {V} (d : dict V) (k : string) : option V :=
  match d with
  | [] => None
  | (k', v) :: d' => if String.eqb k' k then Some v else dict_get d' k
  end.

(** [k in d] *)
Definition dict_mem {V} (d : dict V) (k : string) : bool :=
  match dict_get d k with Some _ => true | None => false end.

(** [d[k] = v]: an existing key keeps its position, a new key goes last. *)
Fixpoint dict_set {V} (d : dict V) (k : string) (v : V) : dict V :=
  match d with
  | [] => [(k, v)]
  | (k', v') :: d' =>
      if String.eqb k' k then (k, v) :: d' else (k', v') :: dict_set d' k v
  end.

(** [d.pop(k, None)] with the popped value dropped. *)
Fixpoint dict_pop {V} (d : dict V) (k : string) : dict V :=
  match d with
  | [] => []
  | (k', v') :: d' =>
      if String.eqb k' k then d' else (k', v') :: dict_pop d' k
  end.

Definition keys {V} (d : dict V) : list string := map fst d.
Definition values {V} (d : dict V) : list V := map snd d.

(** ** Floats *)

(** The integer nearest to [m * 2^e] for [m >= 0], ties going to the
    even neighbour, as [round] does on a [float]. *)
Definition round_half_even (m e : Z) : Z :=
  if 0 <=? e then m * 2 ^ e
  else
    let d := 2 ^ (- e) in
    let q := m / d in
    let r := m mod d in
    match 2 * r ?= d with
    | Lt => q
    | Gt => q + 1
    | Eq => if Z.even q then q else q + 1
    end.

(** [round(x)] with one argument: an exact [int], [ValueError] on NaN
    and [OverflowError] on an infinity. *)
Definition round (x : float) : result Z :=
  match Prim2SF x with
  | S754_zero _ => Ok 0
  | S754_infinity _ => Raise OverflowError
  | S754_nan => Raise ValueError
  | S754_finite s m e =>
      let v := round_half_even (Zpos m) e in
      Ok (if s then - v else v)
  end.

Definition Z2SF (z : Z) : spec_float :=
  match z with
  | Z0 => S754_zero false
  | Zpos p => S754_finite false p 0
  | Zneg p => S754_finite true p 0
  end.

(** [a / b] on two [int]s: the correctly rounded quotient of the exact
    integers, [ZeroDivisionError] on a zero divisor and [OverflowError]
    when the quotient exceeds the float range. *)
Definition int_true_div (a b : Z) : result float :=
  if b =? 0 then Raise ZeroDivisionError
  else
    match SFdiv prec emax (Z2SF a) (Z2SF b) with
    | S754_infinity _ => Raise OverflowError
    | q => Ok (SF2Prim q)
    end.

(** [float(n)] for an [int], as the arithmetic on a [float] and an [int]
    converts the [int]: the nearest double, ties going to the even
    neighbour, and [OverflowError] beyond the range. *)
Definition float_of_int (z : Z) : result float :=
  match binary_normalize prec emax z 0 false with
  | S754_infinity _ => Raise OverflowError
  | f => Ok (SF2Prim f)
  end.

(** [a / b] on two [float]s: [ZeroDivisionError] on a zero divisor of
    either sign. *)
Definition float_true_div (a b : float) : result float :=
  if (b =? 0)%float then Raise ZeroDivisionError else Ok (a / b)%float.

End Py.

Import Py.

Declare Scope py_scope.
Delimit Scope py_scope with py.
Notation "x <- r ;; k" := (bind r (fun x => k))
  (at level 61, r at next level, right associativity) : py_scope.

(* ================================================================== *)
(** * config/sensors.py *)
(* ================================================================== *)

Module Sensors.

Record CameraSensor : Type := mkCameraSensor {
  name : string;
  sensor_width_mm : float;
  sensor_height_mm : float;
  native_width_px : Z;
  native_height_px : Z;
  default_focal_length_mm : option float
}.

Definition imx519 : CameraSensor :=
  mkCameraSensor "imx519" 4.64 3.48 4656 3496 (Some 4.28%float).
Definition hawkeye : CameraSensor :=
  mkCameraSensor "hawkeye" 6.45 4.84 9152 6944 (Some 5.1%float).
Definition imx708 : CameraSensor :=
  mkCameraSensor "imx708" 6.45 3.63 4608 2592 (Some 4.74%float).
Definition imx477 : CameraSensor :=
  mkCameraSensor "imx477" 6.287 4.712 4056 3040 (Some 6.0%float).

Definition SENSOR_DATABASE : dict CameraSensor :=
  [ ("imx519", imx519); ("hawkeye", hawkeye);
    ("imx708", imx708); ("imx477", imx477) ].

Definition CAMERA_SENSOR_ALIASES : dict string :=
  [ ("arducam_64mp", "hawkeye"); ("imx519", "imx519");
    ("imx708", "imx708"); ("imx477", "imx477") ].

(** [CAMERA_SENSOR_ALIASES.get(camera_name.lower(), camera_name.lower())] *)
Definition resolve_alias (camera_name : string) : string :=
  match dict_get CAMERA_SENSOR_ALIASES (lower camera_name) with
  | Some sensor_name => sensor_name
  | None => lower camera_name
  end.

Definition get_sensor_by_camera_name (camera_name : string)
  : option CameraSensor :=
  dict_get SENSOR_DATABASE (resolve_alias camera_name).

(** The test of the first loop of [estimate_sensor_from_resolution]. *)
Definition exact_native_match (width height : Z) (sensor : CameraSensor)
  : bool :=
  (native_width_px sensor =? width) && (native_height_px sensor =? height).

(** The second loop of [estimate_sensor_from_resolution], over the
    sensors still to visit.  The sensor's own ratio is computed in every
    round before it is compared. *)
Fixpoint ratio_scan (target_ratio : float) (width height : Z)
    (sensors : list CameraSensor) : result (option CameraSensor) :=
  match sensors with
  | [] => Ok None
  | sensor :: rest =>
      (sensor_ratio <-
         int_true_div (native_width_px sensor) (native_height_px sensor) ;;
       if (PrimFloat.abs (sensor_ratio - target_ratio) <? 0.01)%float
       then
         if (width <=? native_width_px sensor)
            && (height <=? native_height_px sensor)
         then Ok (Some sensor)
         else ratio_scan target_ratio width height rest
       else ratio_scan target_ratio width height rest)%py
  end.

Definition estimate_sensor_from_resolution_in
    (database : dict CameraSensor) (width height : Z)
  : result (option CameraSensor) :=
  match find (exact_native_match width height) (values database) with
  | Some sensor => Ok (Some sensor)
  | None =>
      (target_ratio <- int_true_div width height ;;
       ratio_scan target_ratio width height (values database))%py
  end.

Definition estimate_sensor_from_resolution (width height : Z)
  : result (option CameraSensor) :=
  estimate_sensor_from_resolution_in SENSOR_DATABASE width height.

(** [get_sensor_by_name] *)
Definition get_sensor_by_name (sensor_name : string) : option CameraSensor :=
  dict_get SENSOR_DATABASE (lower sensor_name).

Definition get_sensor_names : list string := keys SENSOR_DATABASE.

(** The property [pixel_size_um]. *)
Definition pixel_size_um (sensor : CameraSensor) : result float :=
  (native_width <- float_of_int (native_width_px sensor) ;;
   per_pixel <- float_true_div (sensor_width_mm sensor) native_width ;;
   Ok (per_pixel * 1000)%float)%py.

(** The method [focal_length_px]. *)
Definition focal_length_px (sensor : CameraSensor) (focal_mm : float)
    (image_width_px : Z) : result float :=
  (scale <- int_true_div image_width_px (native_width_px sensor) ;;
   native_width <- float_of_int (native_width_px sensor) ;;
   px_per_mm <- float_true_div native_width (sensor_width_mm sensor) ;;
   let focal_native_px := (focal_mm * px_per_mm)%float in
   Ok (focal_native_px * scale)%float)%py.

End Sensors.

(* ================================================================== *)
(** * utils/photos/exif.py *)
(* ================================================================== *)

Module Exif.
Import Sensors.

(** [get_sensor_for_camera], on the sensor table as the call finds it:
    [SENSOR_DATABASE] is a dictionary of the module [sensors], read at
    every call.  [not camera_name] guards the lookup. *)
Definition get_sensor_for_camera_in (database : dict CameraSensor)
    (camera_name : string) : option CameraSensor :=
  match camera_name with
  | EmptyString => None
  | _ => dict_get database (resolve_alias camera_name)
  end.

(** [get_sensor_for_camera] on the table that [sensors.py] defines. *)
Definition get_sensor_for_camera (camera_name : string)
  : option CameraSensor :=
  get_sensor_for_camera_in SENSOR_DATABASE camera_name.

Definition focal_to_rational (focal_mm : float) : result (Z * Z) :=
  (numerator <- round (focal_mm * 100)%float ;;
   Ok (numerator, 100))%py.

Definition calculate_35mm_equivalent (focal_mm sensor_width_mm : float)
  : result Z :=
  if (sensor_width_mm <=? 0)%float then round focal_mm
  else
    let focal_35mm := (focal_mm * (36.0 / sensor_width_mm))%float in
    round focal_35mm.

(** The keys of [piexif.ExifIFD] that the builder writes. *)
Inductive ExifIFD : Type :=
| FocalLength
| FocalLengthIn35mmFilm
| PixelXDimension
| PixelYDimension.

Inductive exif_value : Type :=
| Rational (numerator denominator : Z)
| Int (n : Z).

(** [{"Exif": {tag: value, ...}}], or [{}] when there is nothing to
    inject. *)
Definition exif_dict : Type := dict (list (ExifIFD * exif_value)).

Definition empty_exif : exif_dict := [].

(** [build_camera_intrinsics_exif], on the sensor table as the call
    finds it.  [piexif_importable] tells whether [import piexif] succeeds
    in the running interpreter.  A failure while the dictionary is built
    is caught and gives [{}] as well. *)
Definition build_camera_intrinsics_exif_in (database : dict CameraSensor)
    (piexif_importable : bool)
    (camera_name : string) (image_width image_height : Z) : exif_dict :=
  match get_sensor_for_camera_in database camera_name with
  | None => empty_exif
  | Some sensor =>
      match default_focal_length_mm sensor with
      | None => empty_exif
      | Some focal =>
          if negb piexif_importable then empty_exif
          else
            match focal_to_rational focal,
                  calculate_35mm_equivalent focal (sensor_width_mm sensor)
            with
            | Ok (num, den), Ok f35 =>
                [ ("Exif",
                   [ (FocalLength, Rational num den);
                     (FocalLengthIn35mmFilm, Int f35);
                     (PixelXDimension, Int image_width);
                     (PixelYDimension, Int image_height) ]) ]
            | _, _ => empty_exif
            end
      end
  end.

(** [build_camera_intrinsics_exif] on the table that [sensors.py]
    defines. *)
Definition build_camera_intrinsics_exif (piexif_importable : bool)
    (camera_name : string) (image_width image_height : Z) : exif_dict :=
  build_camera_intrinsics_exif_in SENSOR_DATABASE piexif_importable
    camera_name image_width image_height.

End Exif.

(* ================================================================== *)
(** * controllers/device.py *)
(* ================================================================== *)

Module Device.

(** ** Descriptors *)

(** The descriptor and settings classes are declared in
    [openscan_firmware.models] and [openscan_firmware.config], outside the
    files embedded here.  Each is modelled below from section 3 of the
    design document and from the constructor calls of
    [tests/routers/test_device_router.py]; only their names and the fields
    that [device.py] reads matter. *)

(** Modelled from the spec: [models.camera.CameraType], the backend tag. *)
Inductive CameraType : Type := LINUXPY | GPHOTO2 | PICAMERA2 | EXTERNAL.

(** Modelled from the spec: [config.camera.CameraSettings], the optional
    capture settings. *)
Record CameraSettings : Type := mkCameraSettings {
  jpeg_quality : Z;
  autofocus : bool
}.

(** Modelled from the spec: [config.motor.MotorConfig]. *)
Record MotorConfig : Type := mkMotorConfig {
  direction_pin : Z;
  enable_pin : Z;
  step_pin : Z;
  steps_per_rotation : Z
}.

(** Modelled from the spec: [config.light.LightConfig]. *)
Record LightConfig : Type := mkLightConfig { light_pin : Z }.

(** Modelled from the spec: [config.endstop.EndstopConfig]; [motor_name]
    is the field that [initialize] resolves. *)
Record EndstopConfig : Type := mkEndstopConfig {
  endstop_pin : Z;
  angular_position : Z;
  motor_name : string
}.

(** Modelled from the spec: [models.camera.Camera]. *)
Record Camera : Type := mkCamera {
  camera_type : CameraType;
  camera_name : string;
  camera_path : string;
  camera_settings : option CameraSettings
}.

(** Modelled from the spec: [models.motor.Motor]. *)
Record Motor : Type := mkMotor {
  motor_ident : string;
  motor_settings : MotorConfig
}.

(** Modelled from the spec: [models.light.Light]. *)
Record Light : Type := mkLight {
  light_ident : string;
  light_settings : LightConfig
}.

(** Modelled from the spec: [models.motor.Endstop]. *)
Record Endstop : Type := mkEndstop {
  endstop_ident : string;
  endstop_settings : EndstopConfig
}.

(** Modelled from the spec: [models.scanner.ScannerDevice], the device
    aggregate; its model and shield are enum values, kept as their
    strings. *)
Record ScannerDevice : Type := mkScannerDevice {
  name : string;
  model : option string;
  shield : option string;
  cameras : dict Camera;
  motors : dict Motor;
  lights : dict Light;
  endstops : dict Endstop;
  initialized : bool
}.

(** Modelled from the spec: [controllers.hardware.endstops.EndstopController]
    (section 4.5), which holds its descriptor and a reference, by name, to
    the motor controller it was given and does not own. *)
Record EndstopController : Type := mkEndstopController {
  endstop_model : Endstop;
  bound_motor : string
}.

(** ** What the program does to the hardware *)

Inductive kind : Type := CameraK | MotorK | LightK | EndstopK.

Inductive event : Type :=
| Create (k : kind) (n : string)     (* a controller is constructed and registered *)
| Cleanup (k : kind) (n : string)    (* [controller.cleanup()] is called *)
| TurnOn (n : string)                (* [light.turn_on()] is called *)
| TurnOff (n : string)               (* [light.turn_off()] is called *)
| StartListener (n : string)         (* [endstop_controller.start_listener()] *)
| CleanupAllPins                     (* [cleanup_all_pins()] *)
| Broadcast                          (* [schedule_device_status_broadcast()] *)
| Caught (k : kind) (n : string).    (* an [except] clause logged an error *)

(** ** The module state *)

(** [_scanner_device], [_endstop_controllers], and the three registries
    behind [get_all_*_controllers]. *)
Record Store : Type := mkStore {
  scanner_device : ScannerDevice;
  endstop_controllers : dict EndstopController;
  camera_controllers : dict Camera;
  motor_controllers : dict Motor;
  light_controllers : dict Light
}.

Definition initial_device : ScannerDevice :=
  mkScannerDevice "Unknown device" None None [] [] [] [] false.

Definition initial_store : Store := mkStore initial_device [] [] [] [].

(** ** The environment: hardware, drivers and validators *)

Record V4L2Device : Type := mkV4L2Device {
  opens : bool;              (* [cam.open()] returns *)
  card : option string;      (* [cam.info.card] *)
  filename : string
}.

Record Env : Type := mkEnv {
  (* controller constructors and methods that may raise *)
  camera_ctor_raises : Camera -> bool;
  motor_ctor_raises : Motor -> bool;
  light_ctor_raises : Light -> bool;
  endstop_ctor_raises : Endstop -> bool;
  start_listener_raises : string -> bool;
  cleanup_raises : kind -> string -> bool;
  turn_on_raises : string -> bool;
  turn_off_raises : string -> bool;
  (* [controller.get_status()] *)
  camera_status : Camera -> result string;
  motor_status : Motor -> result string;
  light_status : Light -> result string;
  (* [get_available_camera_types()] *)
  camera_type_available : CameraType -> bool;
  (* probing *)
  iter_video_capture_devices : result (list V4L2Device);
  gphoto2_autodetect : result (list (option string * string));
  picamera2_probe : result (option string * string);
  (* defaults and validators of the settings and enum classes *)
  default_camera_settings : CameraSettings;
  default_motor_config : MotorConfig;
  default_light_config : LightConfig;
  default_endstop_config : EndstopConfig;
  valid_scanner_model : string -> bool;
  valid_scanner_shield : string -> bool
}.

(** ** Actions: a store transformer that also reports its events *)

Definition action (A : Type) : Type := Store -> A * Store * list event.

Definition ret {A} (a : A) : action A := fun st => (a, st, []).

Definition seq {A B} (m : action A) (k : A -> action B) : action B :=
  fun st =>
    let '(a, st1, ev1) := m st in
    let '(b, st2, ev2) := k a st1 in
    (b, st2, ev1 ++ ev2).

Definition emit (e : event) : action unit := fun st => (tt, st, [e]).

Definition read {A} (f : Store -> A) : action A := fun st => (f st, st, []).

Definition update (f : Store -> Store) : action unit :=
  fun st => (tt, f st, []).

Fixpoint for_each {A} (l : list A) (body : A -> action unit) : action unit :=
  match l with
  | [] => ret tt
  | x :: l' => seq (body x) (fun _ => for_each l' body)
  end.

Definition store_after {A} (m : action A) (st : Store) : Store :=
  snd (fst (m st)).
Definition events_of {A} (m : action A) (st : Store) : list event :=
  snd (m st).
Definition value_of {A} (m : action A) (st : Store) : A :=
  fst (fst (m st)).

Declare Scope act_scope.
Delimit Scope act_scope with act.
Notation "x <- m ;; k" := (seq m (fun x => k))
  (at level 61, m at next level, right associativity) : act_scope.
Notation "m ;; k" := (seq m (fun _ => k))
  (at level 61, right associativity) : act_scope.
Local Open Scope act_scope.

Definition set_scanner_device (d : ScannerDevice) (st : Store) : Store :=
  mkStore d (endstop_controllers st) (camera_controllers st)
          (motor_controllers st) (light_controllers st).
Definition set_endstop_controllers (d : dict EndstopController)
    (st : Store) : Store :=
  mkStore (scanner_device st) d (camera_controllers st)
          (motor_controllers st) (light_controllers st).
Definition set_camera_controllers (d : dict Camera) (st : Store) : Store :=
  mkStore (scanner_device st) (endstop_controllers st) d
          (motor_controllers st) (light_controllers st).
Definition set_motor_controllers (d : dict Motor) (st : Store) : Store :=
  mkStore (scanner_device st) (endstop_controllers st)
          (camera_controllers st) d (light_controllers st).
Definition set_light_controllers (d : dict Light) (st : Store) : Store :=
  mkStore (scanner_device st) (endstop_controllers st)
          (camera_controllers st) (motor_controllers st) d.

(** [try: body except Exception: logger.error(...)] around a call that
    either returns or raises. *)
Definition try_log (k : kind) (n : string) (body : action (result unit))
  : action unit :=
  r <- body ;;
  match r with
  | Ok _ => ret tt
  | Raise _ => emit (Caught k n)
  end.

(** A method call on a live controller: the call is made, and it
    returns or raises as the environment says. *)
Definition call (e : event) (raises : bool) : action (result unit) :=
  emit e ;;
  ret (if raises then Raise (RuntimeError "hardware") else Ok tt).

Section WithEnv.
Variable env : Env.

(** ** The controller registries *)

(** The registry functions are imported from
    [controllers.hardware.cameras.camera], [controllers.hardware.motors] and
    [controllers.hardware.lights], outside the files embedded here.  They
    are modelled from section 4.1 of the design document:
    [create] constructs a controller and registers it under the
    descriptor's name; [get] returns the controller or nothing; [remove]
    does nothing for an absent name and otherwise calls the controller's
    cleanup once and discards the entry. *)

(** Modelled from the spec: [create_camera_controller], the registry's
    [create]; the constructor raises when the environment says so. *)
Definition create_camera_controller (camera : Camera)
  : action (result unit) :=
  if camera_ctor_raises env camera
  then ret (Raise (RuntimeError "camera"))
  else
    cs <- read camera_controllers ;;
    update (set_camera_controllers
              (dict_set cs (camera_name camera) camera)) ;;
    emit (Create CameraK (camera_name camera)) ;;
    ret (Ok tt).

(** Modelled from the spec: [create_motor_controller], the registry's
    [create]. *)
Definition create_motor_controller (motor : Motor)
  : action (result unit) :=
  if motor_ctor_raises env motor
  then ret (Raise (RuntimeError "motor"))
  else
    ms <- read motor_controllers ;;
    update (set_motor_controllers
              (dict_set ms (motor_ident motor) motor)) ;;
    emit (Create MotorK (motor_ident motor)) ;;
    ret (Ok tt).

(** Modelled from the spec: [create_light_controller], the registry's
    [create]. *)
Definition create_light_controller (light : Light)
  : action (result unit) :=
  if light_ctor_raises env light
  then ret (Raise (RuntimeError "light"))
  else
    ls <- read light_controllers ;;
    update (set_light_controllers
              (dict_set ls (light_ident light) light)) ;;
    emit (Create LightK (light_ident light)) ;;
    ret (Ok tt).

(** Modelled from the spec: [get_motor_controller], the registry's [get]. *)
Definition get_motor_controller (n : string) : action (option Motor) :=
  ms <- read motor_controllers ;;
  ret (dict_get ms n).

(** Modelled from the spec: [remove_camera_controller], the registry's
    idempotent [remove]. *)
Definition remove_camera_controller (n : string) : action unit :=
  cs <- read camera_controllers ;;
  if dict_mem cs n
  then emit (Cleanup CameraK n) ;;
       update (set_camera_controllers (dict_pop cs n))
  else ret tt.

(** Modelled from the spec: [remove_motor_controller], the registry's
    idempotent [remove]. *)
Definition remove_motor_controller (n : string) : action unit :=
  ms <- read motor_controllers ;;
  if dict_mem ms n
  then emit (Cleanup MotorK n) ;;
       update (set_motor_controllers (dict_pop ms n))
  else ret tt.

(** Modelled from the spec: [remove_light_controller], the registry's
    idempotent [remove]. *)
Definition remove_light_controller (n : string) : action unit :=
  ls <- read light_controllers ;;
  if dict_mem ls n
  then emit (Cleanup LightK n) ;;
       update (set_light_controllers (dict_pop ls n))
  else ret tt.

(** [_endstop_controllers.pop(name, None)] *)
Definition pop_endstop_controller (n : string) : action unit :=
  es <- read endstop_controllers ;;
  update (set_endstop_controllers (dict_pop es n)).

(** ** [get_device_info] *)

Record DeviceInfo : Type := mkDeviceInfo {
  info_name : string;
  info_model : option string;
  info_shield : option string;
  info_cameras : dict string;
  info_motors : dict string;
  info_lights : dict string;
  info_initialized : bool
}.

(** [{name: controller.get_status() for name, controller in d.items()}]:
    the first call that raises ends the comprehension. *)
Fixpoint collect_status {C} (get_status : C -> result string)
    (controllers : dict C) (acc : dict string) : result (dict string) :=
  match controllers with
  | [] => Ok acc
  | (n, controller) :: rest =>
      (status <- get_status controller ;;
       collect_status get_status rest (dict_set acc n status))%py
  end.

Definition get_device_info (st : Store) : result DeviceInfo :=
  let dev := scanner_device st in
  (cams <- collect_status (camera_status env) (camera_controllers st) [] ;;
   mots <- collect_status (motor_status env) (motor_controllers st) [] ;;
   lits <- collect_status (light_status env) (light_controllers st) [] ;;
   Ok (mkDeviceInfo (name dev) (model dev) (shield dev)
                    cams mots lits (initialized dev)))%py.

(** ** [cleanup_and_exit] *)

Definition close_camera (n : string) : action unit :=
  try_log CameraK n (call (Cleanup CameraK n) (cleanup_raises env CameraK n)).

(** One round of the endstop loop, shared by [cleanup_and_exit] and by
    the teardown at the head of [initialize]: the entry is popped
    whether or not the cleanup raised. *)
Definition close_endstop (n : string) : action unit :=
  try_log EndstopK n
    (call (Cleanup EndstopK n) (cleanup_raises env EndstopK n)) ;;
  pop_endstop_controller n.

Definition switch_off_light (n : string) : action unit :=
  try_log LightK n (call (TurnOff n) (turn_off_raises env n)).

Definition cleanup_and_exit : action unit :=
  cam_controllers <- read camera_controllers ;;
  for_each (keys cam_controllers) close_camera ;;
  snapshot <- read endstop_controllers ;;
  for_each (keys snapshot) close_endstop ;;
  lights_now <- read light_controllers ;;
  for_each (keys lights_now) switch_off_light ;;
  emit CleanupAllPins.

(** ** [_detect_cameras] *)

(** [name = base_name or "camera"] *)
Definition name_or_default (base_name : option string) : string :=
  match base_name with
  | Some (String c rest) => String c rest
  | _ => "camera"
  end.

(** The [while True] loop of [_unique_camera_name].  [fuel] bounds the
    rounds; [S (length cameras)] rounds always suffice, because the
    candidates of different rounds differ and only [length cameras]
    names are taken. *)
Fixpoint scan_suffix (taken : dict Camera) (base : string)
    (suffix : nat) (fuel : nat) : string :=
  let candidate := (base ++ "-" ++ str_of_nat suffix)%string in
  match fuel with
  | O => candidate
  | S fuel' =>
      if dict_mem taken candidate
      then scan_suffix taken base (S suffix) fuel'
      else candidate
  end.

Definition _unique_camera_name (taken : dict Camera)
    (base_name : option string) : string :=
  let base := name_or_default base_name in
  if negb (dict_mem taken base) then base
  else scan_suffix taken base 2 (S (List.length taken)).

(** [cam_name = _unique_camera_name(base); cameras[cam_name] = Camera(...)] *)
Definition add_detected (found : dict Camera) (ty : CameraType)
    (base_name : option string) (path : string)
    (settings : option CameraSettings) : dict Camera :=
  let cam_name := _unique_camera_name found base_name in
  dict_set found cam_name (mkCamera ty cam_name path settings).

Definition is_isp_node (c : option string) : bool :=
  match c with
  | Some s => String.eqb s "unicam" || String.eqb s "bcm2835-isp"
  | None => false
  end.

(** The loop over the V4L2 devices; a device that fails to open ends
    the loop through the enclosing [except]. *)
Fixpoint detect_linuxpy (devices : list V4L2Device) (found : dict Camera)
  : dict Camera :=
  match devices with
  | [] => found
  | cam :: rest =>
      if opens cam then
        detect_linuxpy rest
          (if is_isp_node (card cam) then found
           else add_detected found LINUXPY (card cam) (filename cam) None)
      else found
  end.

Fixpoint detect_gphoto2 (detected : list (option string * string))
    (found : dict Camera) : dict Camera :=
  match detected with
  | [] => found
  | (model_name, port) :: rest =>
      detect_gphoto2 rest (add_detected found GPHOTO2 model_name port None)
  end.

Definition detect_picamera2 (found : dict Camera) : dict Camera :=
  if camera_type_available env PICAMERA2 then
    match picamera2_probe env with
    | Ok (model_name, location) =>
        add_detected found PICAMERA2 model_name
          ("/dev/video0" ++ location)%string
          (Some (default_camera_settings env))
    | Raise _ => found
    end
  else found.

Definition probe_cameras : dict Camera :=
  let after_linux :=
    match iter_video_capture_devices env with
    | Ok devices => detect_linuxpy devices []
    | Raise _ => []
    end in
  let after_gphoto2 :=
    match gphoto2_autodetect env with
    | Ok detected => detect_gphoto2 detected after_linux
    | Raise _ => after_linux
    end in
  detect_picamera2 after_gphoto2.

Definition _detect_cameras : action (dict Camera) :=
  old <- read camera_controllers ;;
  for_each (keys old) remove_camera_controller ;;
  ret probe_cameras.

End WithEnv.

(** ** The configuration document *)

(** A top-level section of the document: missing or falsy, present but
    not a [dict], or a [dict] of entries. *)
Inductive section (V : Type) : Type :=
| Absent
| Malformed
| Entries (d : dict V).
Arguments Absent {V}.
Arguments Malformed {V}.
Arguments Entries {V} d.

(** [config.get(key) or {}], then the [isinstance(..., dict)] test. *)
Definition section_dict {V} (s : section V) : dict V :=
  match s with
  | Entries d => d
  | Absent | Malformed => []
  end.

(** A camera entry: not a [dict]; or its type tag as [CameraType(...)]
    reads it ([None] when that raises), its path, and its settings as
    the [CameraSettings] constructor reads them ([None] when that raises). *)
Inductive camera_entry : Type :=
| CameraMalformed
| CameraEntry (ty : option CameraType) (path : string)
              (settings : option CameraSettings).

(** An endstop entry: a value without [.get]; or its settings as
    the [EndstopConfig] constructor reads them. *)
Inductive endstop_entry : Type :=
| EndstopMalformed
| EndstopEntry (settings : option EndstopConfig).

(** The document that [initialize] works on.  A call without a document
    works on the dump of the current device, which pydantic builds. *)
Record Config : Type := mkConfig {
  cfg_name : option string;
  cfg_model : option string;
  cfg_shield : option string;
  cfg_cameras : section camera_entry;
  cfg_motors : section (option MotorConfig);
  cfg_lights : section (option LightConfig);
  cfg_endstops : section endstop_entry
}.

Definition is_empty {V} (d : dict V) : bool :=
  match d with [] => true | _ :: _ => false end.

Section Initialize.
Variable env : Env.

Definition _load_camera_config (settings : option CameraSettings)
  : CameraSettings :=
  match settings with
  | Some c => c
  | None => default_camera_settings env
  end.

Definition _load_motor_config (settings : option MotorConfig)
  : MotorConfig :=
  match settings with
  | Some c => c
  | None => default_motor_config env
  end.

Definition _load_light_config (settings : option LightConfig)
  : LightConfig :=
  match settings with
  | Some c => c
  | None => default_light_config env
  end.

Definition _load_endstop_config (settings : option EndstopConfig)
  : EndstopConfig :=
  match settings with
  | Some c => c
  | None => default_endstop_config env
  end.

(** The block under [if _scanner_device.initialized:]. *)
Definition reinit_teardown : action unit :=
  ms <- read motor_controllers ;;
  for_each (keys ms) (remove_motor_controller) ;;
  ls <- read light_controllers ;;
  for_each (keys ls) (remove_light_controller) ;;
  cs <- read camera_controllers ;;
  for_each (keys cs) (remove_camera_controller) ;;
  es <- read endstop_controllers ;;
  for_each (keys es) (close_endstop env) ;;
  emit CleanupAllPins.

Fixpoint cameras_from_config (entries : dict camera_entry)
    (camera_objects : dict Camera) : dict Camera :=
  match entries with
  | [] => camera_objects
  | (cam_name, CameraEntry (Some cam_type) path settings) :: rest =>
      cameras_from_config rest
        (dict_set camera_objects cam_name
           (mkCamera cam_type cam_name path
                     (Some (_load_camera_config settings))))
  | _ :: rest => cameras_from_config rest camera_objects
  end.

Fixpoint motors_from_config (entries : dict (option MotorConfig))
    (motor_objects : dict Motor) : dict Motor :=
  match entries with
  | [] => motor_objects
  | (n, settings) :: rest =>
      motors_from_config rest
        (dict_set motor_objects n (mkMotor n (_load_motor_config settings)))
  end.

Fixpoint lights_from_config (entries : dict (option LightConfig))
    (light_objects : dict Light) : dict Light :=
  match entries with
  | [] => light_objects
  | (n, settings) :: rest =>
      lights_from_config rest
        (dict_set light_objects n (mkLight n (_load_light_config settings)))
  end.

Definition init_camera_controller (entry : string * Camera)
  : action unit :=
  let (n, camera) := entry in
  if negb (camera_type_available env (camera_type camera)) then ret tt
  else try_log CameraK n (create_camera_controller env camera).

Definition init_motor_controller (entry : string * Motor) : action unit :=
  let (n, motor) := entry in
  try_log MotorK n (create_motor_controller env motor).

Definition init_light_controller (entry : string * Light) : action unit :=
  let (n, light) := entry in
  try_log LightK n (create_light_controller env light).

(** One round of the endstop loop.  Every [raise] inside it reaches
    the [except] of the round, which logs and goes on. *)
Definition bind_endstop (entry : string * endstop_entry)
    (endstop_objects : dict Endstop) : action (dict Endstop) :=
  let (endstop_name, endstop_data) := entry in
  match endstop_data with
  | EndstopMalformed =>
      emit (Caught EndstopK endstop_name) ;; ret endstop_objects
  | EndstopEntry raw =>
      let settings := _load_endstop_config raw in
      let endstop := mkEndstop endstop_name settings in
      controller <- get_motor_controller (motor_name settings) ;;
      match controller with
      | None =>
          emit (Caught EndstopK endstop_name) ;; ret endstop_objects
      | Some _ =>
          if endstop_ctor_raises env endstop
          then emit (Caught EndstopK endstop_name) ;; ret endstop_objects
          else
            emit (Create EndstopK endstop_name) ;;
            es <- read endstop_controllers ;;
            update (set_endstop_controllers
                      (dict_set es endstop_name
                         (mkEndstopController endstop
                                              (motor_name settings)))) ;;
            try_log EndstopK endstop_name
              (call (StartListener endstop_name)
                    (start_listener_raises env endstop_name)) ;;
            ret (dict_set endstop_objects endstop_name endstop)
      end
  end.

Fixpoint bind_endstops (entries : dict endstop_entry)
    (endstop_objects : dict Endstop) : action (dict Endstop) :=
  match entries with
  | [] => ret endstop_objects
  | entry :: rest =>
      objs <- bind_endstop entry endstop_objects ;;
      bind_endstops rest objs
  end.

Definition switch_on_light (n : string) : action unit :=
  try_log LightK n (call (TurnOn n) (turn_on_raises env n)).

(** [ScannerModel(model_value)] and [ScannerShield(shield_value)] under
    their [if value:] guards. *)
Definition parse_enum (valid : string -> bool) (value : option string)
  : option string :=
  match value with
  | Some (String c rest) =>
      if valid (String c rest) then Some (String c rest) else None
  | _ => None
  end.

(** Camera descriptors, then the controllers of the cameras and of the
    motors: everything [initialize] does between the teardown and the
    endstop loop. *)
Definition build_cameras_and_motors (config : Config)
    (detect_cameras : bool) : action (dict Camera) :=
  let config_cameras := section_dict (cfg_cameras config) in
  let config_motors := section_dict (cfg_motors config) in
  camera_objects <-
    (if detect_cameras || is_empty config_cameras
     then _detect_cameras env
     else ret (cameras_from_config config_cameras [])) ;;
  for_each camera_objects init_camera_controller ;;
  for_each (motors_from_config config_motors []) init_motor_controller ;;
  ret camera_objects.

(** Light controllers, switching the lights on, and the new device
    aggregate: everything after the endstop loop. *)
Definition finish_initialize (config : Config)
    (camera_objects : dict Camera) (endstop_objects : dict Endstop)
  : action unit :=
  let motor_objects :=
    motors_from_config (section_dict (cfg_motors config)) [] in
  let light_objects :=
    lights_from_config (section_dict (cfg_lights config)) [] in
  for_each light_objects init_light_controller ;;
  lit <- read light_controllers ;;
  for_each (keys lit) switch_on_light ;;
  current <- read scanner_device ;;
  update (set_scanner_device
            (mkScannerDevice
               (match cfg_name config with
                | Some n => n
                | None => name current
                end)
               (parse_enum (valid_scanner_model env) (cfg_model config))
               (parse_enum (valid_scanner_shield env) (cfg_shield config))
               camera_objects motor_objects light_objects
               endstop_objects true)) ;;
  emit Broadcast.

(** [initialize].  Loading the environment file, configuring the cloud
    client and creating the project manager do not touch the store and
    are left out; they are taken to return. *)
Definition initialize (config : Config) (detect_cameras : bool)
  : action unit :=
  dev <- read scanner_device ;;
  (if initialized dev then reinit_teardown else ret tt) ;;
  camera_objects <- build_cameras_and_motors config detect_cameras ;;
  endstop_objects <-
    bind_endstops (section_dict (cfg_endstops config)) [] ;;
  finish_initialize config camera_objects endstop_objects.

(** The stores that the module can be in: the one it is loaded with,
    and whatever [initialize] and [cleanup_and_exit] make of it.  The
    three controller registries belong to other modules, which may
    create and remove controllers between two calls; [_scanner_device]
    and [_endstop_controllers] are written by this module only. *)
Inductive reachable : Store -> Prop :=
| reachable_initial : reachable initial_store
| reachable_initialize : forall st config detect_cameras,
    reachable st ->
    reachable (store_after (initialize config detect_cameras) st)
| reachable_cleanup : forall st,
    reachable st ->
    reachable (store_after (cleanup_and_exit env) st)
| reachable_registries : forall st cams mots lits,
    reachable st ->
    reachable (mkStore (scanner_device st) (endstop_controllers st)
                       cams mots lits).

End Initialize.

(** ** [initialize], with the calls outside its [try] blocks *)

(** The calls that [initialize] and [_detect_cameras] make outside every
    [try] block.  What one of them raises ends the run of [initialize]
    and reaches its caller: [set_device_config] and the router's
    [reinitialize_hardware] catch it there. *)
Inductive site : Type :=
| LoadDotenv                        (* [load_dotenv()] *)
| ListControllers (k : kind)        (* [get_all_*_controllers()] *)
| RemoveController (k : kind) (n : string)
                                    (* [remove_*_controller(name)] *)
| ReleasePins                       (* [cleanup_all_pins()] *)
| IsCameraTypeAvailable             (* [is_camera_type_available(...)] *)
| DescribeCamera (n : string)       (* [Camera(...)] in [initialize] *)
| DescribeMotor (n : string)        (* [Motor(...)] *)
| DescribeLight (n : string)        (* [Light(...)] *)
| CloudSettings                     (* the block under [# Cloud settings] *)
| GetAvailableCameraTypes           (* [get_available_camera_types()] *)
| BuildScannerDevice                (* [ScannerDevice(...)] *)
| DumpScannerDevice                 (* [_scanner_device.model_dump(...)] *)
| ScheduleBroadcast.                (* [schedule_device_status_broadcast()] *)

(** What those calls do in one run: [raises_at] gives the exception of a
    call that raises.  The design document does not say whether a
    registry's [remove] that raises has discarded the entry;
    [discards_on_failure] tells. *)
Record Faults : Type := mkFaults {
  raises_at : site -> option exn;
  discards_on_failure : bool
}.

(** A statement that may raise, followed by the rest of the function:
    an exception ends the run. *)
Definition and_then {A B} (m : action (result A))
    (k : A -> action (result B)) : action (result B) :=
  r <- m ;;
  match r with
  | Ok a => k a
  | Raise e => ret (Raise e)
  end.

Notation "x <~ m ;; k" := (and_then m (fun x => k))
  (at level 61, m at next level, right associativity) : act_scope.

(** A loop whose body may raise. *)
Fixpoint for_each_or_raise {A} (l : list A)
    (body : A -> action (result unit)) : action (result unit) :=
  match l with
  | [] => ret (Ok tt)
  | x :: l' => _ <~ body x ;; for_each_or_raise l' body
  end.

Section Outcome.
Variable env : Env.
Variable faults : Faults.

(** A call outside every [try] block: it returns, or it raises what
    [faults] says. *)
Definition unguarded (s : site) : action (result unit) :=
  ret (match raises_at faults s with
       | Some e => Raise e
       | None => Ok tt
       end).

(** Modelled from the spec: the registry's [remove], which calls the
    controller's cleanup and discards the entry, as the call
    [remove_*_controller(name)] that returns or raises.  The design
    document does not say that [remove] catches what the cleanup raises:
    [faults] decides whether the call raises, also where
    [cleanup_raises] tells what a direct call of the cleanup does. *)
Definition remove_controller_outcome {C} (k : kind)
    (registry : Store -> dict C) (set_registry : dict C -> Store -> Store)
    (n : string) : action (result unit) :=
  controllers <- read registry ;;
  if dict_mem controllers n
  then
    emit (Cleanup k n) ;;
    match raises_at faults (RemoveController k n) with
    | None => update (set_registry (dict_pop controllers n)) ;; ret (Ok tt)
    | Some e =>
        (if discards_on_failure faults
         then update (set_registry (dict_pop controllers n))
         else ret tt) ;;
        ret (Raise e)
    end
  else ret (Ok tt).

(** [for name in list(get_all_*_controllers().keys()):
       remove_*_controller(name)] *)
Definition remove_all_outcome {C} (k : kind)
    (registry : Store -> dict C) (set_registry : dict C -> Store -> Store)
  : action (result unit) :=
  _ <~ unguarded (ListControllers k) ;;
  controllers <- read registry ;;
  for_each_or_raise (keys controllers)
                    (remove_controller_outcome k registry set_registry).

(** The block under [if _scanner_device.initialized:]; the endstop loop
    has its own [try]. *)
Definition reinit_teardown_outcome : action (result unit) :=
  _ <~ remove_all_outcome MotorK motor_controllers set_motor_controllers ;;
  _ <~ remove_all_outcome LightK light_controllers set_light_controllers ;;
  _ <~ remove_all_outcome CameraK camera_controllers set_camera_controllers ;;
  es <- read endstop_controllers ;;
  for_each (keys es) (close_endstop env) ;;
  emit CleanupAllPins ;;
  unguarded ReleasePins.

(** [_detect_cameras]: the removal loop and the availability test stand
    outside the [try] blocks of the three probes. *)
Definition _detect_cameras_outcome : action (result (dict Camera)) :=
  _ <~ remove_all_outcome CameraK camera_controllers set_camera_controllers ;;
  _ <~ unguarded IsCameraTypeAvailable ;;
  ret (Ok (probe_cameras env)).

(** The entries of the camera section for which [Camera(...)] is
    called. *)
Fixpoint described_cameras (entries : dict camera_entry) : list site :=
  match entries with
  | [] => []
  | (cam_name, CameraEntry (Some _) _ _) :: rest =>
      DescribeCamera cam_name :: described_cameras rest
  | _ :: rest => described_cameras rest
  end.

(** Everything [initialize] does before its endstop loop. *)
Definition before_endstops_outcome (config : Config) (detect_cameras : bool)
  : action (result (dict Camera)) :=
  let config_cameras := section_dict (cfg_cameras config) in
  let config_motors := section_dict (cfg_motors config) in
  let config_lights := section_dict (cfg_lights config) in
  _ <~ unguarded LoadDotenv ;;
  dev <- read scanner_device ;;
  _ <~ (if initialized dev then reinit_teardown_outcome else ret (Ok tt)) ;;
  camera_objects <~
    (if detect_cameras || is_empty config_cameras
     then _detect_cameras_outcome
     else
       _ <~ for_each_or_raise (described_cameras config_cameras) unguarded ;;
       ret (Ok (cameras_from_config env config_cameras []))) ;;
  _ <~ for_each_or_raise (map DescribeMotor (keys config_motors)) unguarded ;;
  _ <~ for_each_or_raise (map DescribeLight (keys config_lights)) unguarded ;;
  _ <~ unguarded CloudSettings ;;
  _ <~ unguarded GetAvailableCameraTypes ;;
  for_each camera_objects (init_camera_controller env) ;;
  for_each (motors_from_config env config_motors [])
           (init_motor_controller env) ;;
  ret (Ok camera_objects).

(** Everything [initialize] does after its endstop loop. *)
Definition finish_initialize_outcome (config : Config)
    (camera_objects : dict Camera) (endstop_objects : dict Endstop)
  : action (result unit) :=
  let motor_objects :=
    motors_from_config env (section_dict (cfg_motors config)) [] in
  let light_objects :=
    lights_from_config env (section_dict (cfg_lights config)) [] in
  for_each light_objects (init_light_controller env) ;;
  _ <~ unguarded (ListControllers LightK) ;;
  lit <- read light_controllers ;;
  for_each (keys lit) (switch_on_light env) ;;
  _ <~ unguarded BuildScannerDevice ;;
  current <- read scanner_device ;;
  update (set_scanner_device
            (mkScannerDevice
               (match cfg_name config with
                | Some n => n
                | None => name current
                end)
               (parse_enum (valid_scanner_model env) (cfg_model config))
               (parse_enum (valid_scanner_shield env) (cfg_shield config))
               camera_objects motor_objects light_objects
               endstop_objects true)) ;;
  _ <~ unguarded DumpScannerDevice ;;
  emit Broadcast ;;
  unguarded ScheduleBroadcast.

(** [initialize], returning or raising.  Every statement of the endstop
    loop stands in the [try] of its round, so the loop is the one of
    [initialize]; so are the loops that build the controllers and switch
    the lights on.  The logging calls are taken to return. *)
Definition initialize_outcome (config : Config) (detect_cameras : bool)
  : action (result unit) :=
  camera_objects <~ before_endstops_outcome config detect_cameras ;;
  endstop_objects <-
    bind_endstops env (section_dict (cfg_endstops config)) [] ;;
  finish_initialize_outcome config camera_objects endstop_objects.

End Outcome.

End Device.

(* ================================================================== *)
(** * security.py *)
(* ================================================================== *)

Module Security.

Definition ADMIN_TOKEN_ENV : string := "OPENSCAN_ADMIN_TOKEN".
Definition ALLOW_INSECURE_ADMIN_ENV : string := "OPENSCAN_ALLOW_INSECURE_ADMIN".
Definition ADMIN_HEADER_NAME : string := "X-OpenScan-Token".

(** [str.isspace] on one character of a text whose characters are below
    256: tab to carriage return, the four separators 28 to 31, the space,
    NEL and the no-break space. *)
Definition is_space (c : ascii) : bool :=
  let n := nat_of_ascii c in
  (Nat.leb 9 n && Nat.leb n 13) || (Nat.leb 28 n && Nat.leb n 32)
  || Nat.eqb n 133 || Nat.eqb n 160.

Fixpoint lstrip (s : string) : string :=
  match s with
  | EmptyString => EmptyString
  | String c rest => if is_space c then lstrip rest else s
  end.

Fixpoint rstrip (s : string) : string :=
  match s with
  | EmptyString => EmptyString
  | String c rest =>
      match rstrip rest with
      | EmptyString => if is_space c then EmptyString else String c EmptyString
      | kept => String c kept
      end
  end.

(** [str.strip()] *)
Definition strip (s : string) : string := rstrip (lstrip s).

(** [s[n:]] *)
Fixpoint drop (n : nat) (s : string) : string :=
  match n, s with
  | O, _ => s
  | S n', String _ rest => drop n' rest
  | S _, EmptyString => EmptyString
  end.

Fixpoint is_ascii (s : string) : bool :=
  match s with
  | EmptyString => true
  | String c rest => Nat.ltb (nat_of_ascii c) 128 && is_ascii rest
  end.

(** The process environment, as [os.getenv] reads it. *)
Definition environ : Type := string -> option string.

(** The request, as [request.headers.get] reads it. *)
Record Request : Type := mkRequest { headers_get : string -> option string }.

Definition _get_admin_token (getenv : environ) : option string :=
  match getenv ADMIN_TOKEN_ENV with
  | None => None
  | Some token =>
      match strip token with
      | EmptyString => None
      | stripped => Some stripped
      end
  end.

Definition _allow_insecure_admin (getenv : environ) : bool :=
  let value :=
    match getenv ALLOW_INSECURE_ADMIN_ENV with
    | Some v => v
    | None => ""
    end in
  existsb (String.eqb (lower (strip value))) [ "1"; "true"; "yes"; "on" ].

Definition _extract_request_token (request : Request) : option string :=
  match headers_get request ADMIN_HEADER_NAME with
  | Some (String c rest) => Some (strip (String c rest))
  | _ =>
      let auth_header :=
        match headers_get request "Authorization" with
        | Some v => v
        | None => ""
        end in
      if String.prefix "bearer " (lower auth_header)
      then Some (strip (drop 7 auth_header))
      else None
  end.

(** How [require_admin] ends: it returns, it raises an [HTTPException],
    or [secrets.compare_digest] raises [TypeError] on a text that is not
    ASCII. *)
Inductive verdict : Type :=
| Allowed
| HTTPException (status_code : Z)
| TypeError.

(** [secrets.compare_digest] on two texts. *)
Definition compare_digest (a b : string) : option bool :=
  if is_ascii a && is_ascii b then Some (String.eqb a b) else None.

Definition require_admin (getenv : environ) (request : Request) : verdict :=
  match _get_admin_token getenv with
  | None =>
      if _allow_insecure_admin getenv then Allowed else HTTPException 503
  | Some admin_token =>
      match _extract_request_token request with
      | None | Some EmptyString => HTTPException 401
      | Some provided =>
          match compare_digest provided admin_token with
          | Some true => Allowed
          | Some false => HTTPException 401
          | None => TypeError
          end
      end
  end.

End Security.

(* ================================================================== *)
(** * routers/v0_6/device.py *)
(* ================================================================== *)

Module Router.

(** What a function of the router gives back: a value, or the status and
    detail of the [HTTPException] it raises. *)
Inductive response (A : Type) : Type :=
| Return (a : A)
| HTTPException (status_code : Z) (detail : string).
Arguments Return {A} a.
Arguments HTTPException {A} status_code detail.

(** The character class [[A-Za-z0-9_.-]]. *)
Definition is_safe_char (c : ascii) : bool :=
  let n := nat_of_ascii c in
  (Nat.leb 65 n && Nat.leb n 90) || (Nat.leb 97 n && Nat.leb n 122)
  || (Nat.leb 48 n && Nat.leb n 57)
  || Nat.eqb n 95 || Nat.eqb n 46 || Nat.eqb n 45.

(** The rest of a match of [^[A-Za-z0-9_.-]+$] after its first character:
    [$] also matches just before a line feed that ends the text. *)
Fixpoint safe_tail (s : string) : bool :=
  match s with
  | EmptyString => true
  | String c EmptyString => is_safe_char c || Ascii.eqb c "010"
  | String c rest => is_safe_char c && safe_tail rest
  end.

(** [_SAFE_CONFIG_NAME.match(s)] is not [None]. *)
Definition _SAFE_CONFIG_NAME_match (s : string) : bool :=
  match s with
  | EmptyString => false
  | String c rest => is_safe_char c && safe_tail rest
  end.

(** [sub in s] *)
Fixpoint has_substring (sub s : string) : bool :=
  String.prefix sub s
  || match s with
     | EmptyString => false
     | String _ rest => has_substring sub rest
     end.

(** [s.endswith(suffix)] *)
Fixpoint ends_with (suffix s : string) : bool :=
  String.eqb suffix s
  || match s with
     | EmptyString => false
     | String _ rest => ends_with suffix rest
     end.

(** On the scanner [os.sep] is ["/"] and [os.altsep] is [None]. *)
Definition _validate_config_filename (config_name : string)
  : response string :=
  let candidate := Security.strip config_name in
  match candidate with
  | EmptyString => HTTPException 400 "Config filename is required."
  | _ =>
      if negb (_SAFE_CONFIG_NAME_match candidate)
      then HTTPException 400 "Config filename contains invalid characters."
      else if has_substring "/" candidate || has_substring ".." candidate
      then HTTPException 400
             "Config filename must not contain path separators."
      else Return candidate
  end.

(** [p[:p.rfind("/") + 1]] *)
Fixpoint upto_last_slash (p : string) : string :=
  match p with
  | EmptyString => EmptyString
  | String c rest =>
      match upto_last_slash rest with
      | EmptyString => if Ascii.eqb c "/" then "/" else EmptyString
      | head => String c head
      end
  end.

Fixpoint all_slashes (s : string) : bool :=
  match s with
  | EmptyString => true
  | String c rest => Ascii.eqb c "/" && all_slashes rest
  end.

(** [s.rstrip("/")] *)
Fixpoint rstrip_slashes (s : string) : string :=
  match s with
  | EmptyString => EmptyString
  | String c rest =>
      match rstrip_slashes rest with
      | EmptyString =>
          if Ascii.eqb c "/" then EmptyString else String c EmptyString
      | kept => String c kept
      end
  end.

(** [os.path.dirname] of [posixpath]. *)
Definition dirname (p : string) : string :=
  let head := upto_last_slash p in
  match head with
  | EmptyString => head
  | _ => if all_slashes head then head else rstrip_slashes head
  end.

(** An entry of [get_available_configs()]: the values under ["filename"]
    and ["path"], where present. *)
Record config_info : Type := mkConfigInfo {
  filename : option string;
  path : option string
}.

(** What the file system and the interpreter decide: [Path(p).resolve()],
    [Path(p).expanduser().resolve()], both as their [str], and whether the
    two-element set [lookup_names] yields the name with [.json] first. *)
Record FileSystem : Type := mkFileSystem {
  resolve : string -> string;
  expand_resolve : string -> string;
  json_name_first : bool
}.

(** The loop that fills [config_paths] and [config_files]. *)
Fixpoint index_configs (fs : FileSystem) (available_configs : list config_info)
    (config_paths config_files : dict config_info)
  : dict config_info * dict config_info :=
  match available_configs with
  | [] => (config_paths, config_files)
  | config :: rest =>
      let config_paths' :=
        match path config with
        | Some (String c p) =>
            dict_set config_paths (resolve fs (String c p)) config
        | _ => config_paths
        end in
      let config_files' :=
        match filename config with
        | Some (String c f) => dict_set config_files (String c f) config
        | _ => config_files
        end in
      index_configs fs rest config_paths' config_files'
  end.

(** The loop over [lookup_names]: the first name whose entry has a
    non-empty path. *)
Fixpoint first_listed (config_files : dict config_info)
    (lookup_names : list string) : option string :=
  match lookup_names with
  | [] => None
  | n :: rest =>
      match dict_get config_files n with
      | Some config =>
          match path config with
          | Some (String c p) => Some (String c p)
          | _ => first_listed config_files rest
          end
      | None => first_listed config_files rest
      end
  end.

Definition not_found (config_value : string) : response string :=
  HTTPException 404 ("Config file not found: " ++ config_value)%string.

Definition _resolve_config_path (fs : FileSystem) (config_value : string)
    (available_configs : list config_info) : response string :=
  match config_value with
  | EmptyString => HTTPException 400 "Config filename is required."
  | _ =>
      let '(config_paths, config_files) :=
        index_configs fs available_configs [] [] in
      match dirname config_value with
      | EmptyString =>
          match _validate_config_filename config_value with
          | HTTPException status detail => HTTPException status detail
          | Return safe_name =>
              let with_json := (safe_name ++ ".json")%string in
              let lookup_names :=
                if ends_with ".json" safe_name then [ safe_name ]
                else if json_name_first fs then [ with_json; safe_name ]
                else [ safe_name; with_json ] in
              match first_listed config_files lookup_names with
              | Some p => Return p
              | None => not_found config_value
              end
          end
      | _ =>
          let candidate := expand_resolve fs config_value in
          if dict_mem config_paths candidate then Return candidate
          else not_found config_value
      end
  end.

(** ** The endpoints that report the device status *)

(** [DeviceStatusResponse]: name, model and shield are required strings. *)
Record DeviceStatusResponse : Type := mkDeviceStatusResponse {
  status_name : string;
  status_model : string;
  status_shield : string;
  status_cameras : dict string;
  status_motors : dict string;
  status_lights : dict string;
  status_initialized : bool
}.

(** Whether a status is a valid [CameraStatusResponse],
    [MotorStatusResponse] or [LightStatusResponse]; these classes belong
    to the sibling routers. *)
Record StatusSchemas : Type := mkStatusSchemas {
  camera_status_valid : string -> bool;
  motor_status_valid : string -> bool;
  light_status_valid : string -> bool
}.

(** [DeviceStatusResponse.model_validate(info)]; [None] stands for its
    [ValidationError]. *)
Definition model_validate (schemas : StatusSchemas) (info : Device.DeviceInfo)
  : option DeviceStatusResponse :=
  match Device.info_model info, Device.info_shield info with
  | Some m, Some s =>
      if forallb (camera_status_valid schemas) (values (Device.info_cameras info))
         && forallb (motor_status_valid schemas) (values (Device.info_motors info))
         && forallb (light_status_valid schemas) (values (Device.info_lights info))
      then Some (mkDeviceStatusResponse
                   (Device.info_name info) m s
                   (Device.info_cameras info) (Device.info_motors info)
                   (Device.info_lights info) (Device.info_initialized info))
      else None
  | _, _ => None
  end.

(** How an endpoint ends: with a body, with an [HTTPException], or with
    an exception that no [except] clause of the endpoint names. *)
Inductive reply (A : Type) : Type :=
| Respond (a : A)
| Refuse (status_code : Z)
| Escapes (e : exn).
Arguments Respond {A} a.
Arguments Refuse {A} status_code.
Arguments Escapes {A} e.

(** [GET /device/info] *)
Definition get_device_info (env : Device.Env) (schemas : StatusSchemas)
    (st : Device.Store) : reply DeviceStatusResponse :=
  match Device.get_device_info env st with
  | Ok info =>
      match model_validate schemas info with
      | Some body => Respond body
      | None => Refuse 503
      end
  | Raise (RuntimeError _) => Refuse 500
  | Raise e => Escapes e
  end.

(** [POST /device/configurations/current/initialize], on the document
    [dumped] that [initialize] builds from the current device when it is
    called without one.  The store is the one [initialize] leaves,
    whatever the reply. *)
Definition reinitialize_hardware (env : Device.Env) (schemas : StatusSchemas)
    (dumped : Device.Config) (detect_cameras : bool) (st : Device.Store)
  : reply DeviceStatusResponse * Device.Store :=
  let st' := Device.store_after (Device.initialize env dumped detect_cameras) st in
  (match Device.get_device_info env st' with
   | Ok info =>
       match model_validate schemas info with
       | Some body => Respond body
       | None => Refuse 500
       end
   | Raise (RuntimeError _) => Refuse 500
   | Raise e => Escapes e
   end, st').

(** ** [POST /device/configurations/] *)

(** What the endpoint does to the disk: it writes the temporary file,
    makes the settings directory, and moves the temporary file to
    [Path(settings_dir) / file_name]. *)
Inductive disk_event : Type :=
| WriteTemp (temp_path : string)
| MakeDirs (settings_dir : string)
| Move (temp_path settings_dir file_name : string).

(** The disk: the name of the temporary file, the settings directory,
    and which of the three steps ends in an [OSError]. *)
Record Disk : Type := mkDisk {
  temp_name : string;
  settings_dir : string;
  write_temp_fails : bool;
  makedirs_fails : bool;
  move_fails : bool
}.

(** [safe_filename], with [.json] appended where it is missing. *)
Definition json_name (safe_filename : string) : string :=
  if ends_with ".json" safe_filename then safe_filename
  else (safe_filename ++ ".json")%string.

(** [add_config_json]: the reply and what happened on the disk.  The
    name is validated after the temporary file is written, and a
    [RuntimeError] of the status query is named by no [except] clause. *)
Definition add_config_json (disk : Disk) (env : Device.Env)
    (schemas : StatusSchemas) (config_file : string) (st : Device.Store)
  : reply DeviceStatusResponse * list disk_event :=
  if write_temp_fails disk then (Refuse 500, [])
  else if makedirs_fails disk then (Refuse 500, [ WriteTemp (temp_name disk) ])
  else
    let prepared :=
      [ WriteTemp (temp_name disk); MakeDirs (settings_dir disk) ] in
    match _validate_config_filename config_file with
    | HTTPException status_code _ => (Refuse status_code, prepared)
    | Return safe_filename =>
        if move_fails disk then (Refuse 500, prepared)
        else
          (match Device.get_device_info env st with
           | Ok info =>
               match model_validate schemas info with
               | Some body => Respond body
               | None => Refuse 500
               end
           | Raise e => Escapes e
           end,
           prepared ++ [ Move (temp_name disk) (settings_dir disk)
                              (json_name safe_filename) ])
    end.

End Router.

(* ================================================================== *)
(** * controllers/device.py: the camera overlay of the boot configuration *)
(* ================================================================== *)

Module Overlay.

(** The characters at which [str.splitlines] ends a line, among the code
    points below 256: line feed, vertical tab, form feed, carriage
    return, the file, group and record separators, and next line. *)
Definition is_line_break (c : ascii) : bool :=
  let n := nat_of_ascii c in
  Nat.eqb n 10 || Nat.eqb n 11 || Nat.eqb n 12 || Nat.eqb n 13
  || Nat.eqb n 28 || Nat.eqb n 29 || Nat.eqb n 30 || Nat.eqb n 133.

(** [s.splitlines()]: the lines of [s] without their line breaks.  A
    carriage return followed by a line feed is one break, and a break at
    the very end opens no further line. *)
Fixpoint splitlines (s : string) : list string :=
  match s with
  | EmptyString => []
  | String c rest =>
      if is_line_break c then
        EmptyString ::
          (if Ascii.eqb c "013" then
             match rest with
             | String c2 rest2 =>
                 if Ascii.eqb c2 "010" then splitlines rest2
                 else splitlines rest
             | EmptyString => []
             end
           else splitlines rest)
      else
        match splitlines rest with
        | [] => [String c EmptyString]
        | line :: lines => String c line :: lines
        end
  end.

Definition arducam_overlays : dict string :=
  [ ("arducam_64mp", "dtoverlay=arducam-64mp");
    ("imx519", "dtoverlay=imx519") ].

(** [overlay in config_lines], where [overlay] may be [None]. *)
Definition overlay_in (overlay : option string) (config_lines : list string)
  : bool :=
  match overlay with
  | Some line => existsb (String.eqb line) config_lines
  | None => false
  end.

(** [check_arducam_overlay].  [config_txt] is what reading
    [/boot/firmware/config.txt] gives: the text of the file, or the
    exception of [open] or [read], which the [except] clause turns into
    [False]. *)
Definition check_arducam_overlay (config_txt : result string)
    (camera_model : string) : bool :=
  let overlay := dict_get arducam_overlays camera_model in
  match config_txt with
  | Ok text =>
      let config_lines := splitlines text in
      if overlay_in overlay config_lines then true else false
  | Raise _ => false
  end.

End Overlay.


(* ================================================================== *)
(** * controllers/hardware/cameras/linuxpy.py *)
(* ================================================================== *)

Module Linuxpy.

(** Modelled from the spec: [CameraMode], of [models/camera.py], with the
    two modes that section 4.3 of the design document names and that
    [_get_device] tells apart. *)
Inductive CameraMode : Type := PHOTO | PREVIEW.

Definition mode_eqb (a b : CameraMode) : bool :=
  match a, b with
  | PHOTO, PHOTO | PREVIEW, PREVIEW => true
  | _, _ => false
  end.

(** A [linuxpy] [Device] object, made by [Device(path)]. *)
Record V4L2Handle : Type := mkHandle { handle_path : string }.

(** The calls that [_get_device] makes on the library. *)
Inductive hw_call : Type :=
| CloseDevice (path : string)               (* [device.close()] *)
| EnterDevice (path : string)               (* [with device as dev:] *)
| ExitDevice (path : string)                (* the end of the [with] block *)
| SetFormat (path : string) (width height : Z).

(** The driver: whether a call returns or raises. *)
Definition Driver : Type := hw_call -> result unit.

(** The class attributes [LINUXPYCamera._device] and
    [LINUXPYCamera._current_mode], which all controllers share. *)
Record ClassState : Type := mkClassState {
  _device : option V4L2Handle;
  _current_mode : option CameraMode
}.

Definition at_load : ClassState := mkClassState None None.

(** [LINUXPYCamera._current_mode != mode] *)
Definition mode_differs (st : ClassState) (mode : CameraMode) : bool :=
  match _current_mode st with
  | Some current => negb (mode_eqb current mode)
  | None => true
  end.

(** The block under [if mode == CameraMode.PHOTO] and its [elif]: a
    [with] block leaves through [__exit__] also when its body raises. *)
Definition configure (driver : Driver) (path : string) (mode : CameraMode)
  : result unit * list hw_call :=
  match mode with
  | PHOTO =>
      match driver (EnterDevice path) with
      | Raise e => (Raise e, [EnterDevice path])
      | Ok _ =>
          let body := driver (SetFormat path 1920 1080) in
          let leave := driver (ExitDevice path) in
          (match leave with
           | Raise e => Raise e
           | Ok _ => body
           end,
           [EnterDevice path; SetFormat path 1920 1080; ExitDevice path])
      end
  | PREVIEW =>
      (driver (SetFormat path 320 240), [SetFormat path 320 240])
  end.

(** [LINUXPYCamera._device = Device(self.camera.path)] and the format
    of the mode, after the calls [closing]. *)
Definition reopen (driver : Driver) (self_path : string) (mode : CameraMode)
    (closing : list hw_call)
  : result (option V4L2Handle) * ClassState * list hw_call :=
  let st2 := mkClassState (Some (mkHandle self_path)) (Some mode) in
  let '(configured, configuring) := configure driver self_path mode in
  (match configured with
   | Raise e => Raise e
   | Ok _ => Ok (_device st2)
   end, st2, closing ++ configuring).

(** [_get_device], called on the controller of the camera at
    [self_path]: what it returns or raises, the class attributes it
    leaves, and the calls it made.  The mode is recorded before the
    first call. *)
Definition _get_device (driver : Driver) (self_path : string)
    (mode : CameraMode) (st : ClassState)
  : result (option V4L2Handle) * ClassState * list hw_call :=
  if mode_differs st mode then
    match _device st with
    | Some old =>
        match driver (CloseDevice (handle_path old)) with
        | Raise e =>
            (Raise e, mkClassState (_device st) (Some mode),
             [CloseDevice (handle_path old)])
        | Ok _ => reopen driver self_path mode [CloseDevice (handle_path old)]
        end
    | None => reopen driver self_path mode []
    end
  else (Ok (_device st), st, []).

(** The class attributes that calls of [_get_device] can lead to. *)
Inductive reachable : ClassState -> Prop :=
| reachable_at_load : reachable at_load
| reachable_get_device : forall driver self_path mode st,
    reachable st ->
    reachable (snd (fst (_get_device driver self_path mode st))).

End Linuxpy.

(* ================================================================== *)
(** * controllers/hardware/cameras/gphoto2.py *)
(* ================================================================== *)

Module Gphoto2.

(** A [gp.Camera] object: the port and the abilities it has been given. *)
Record GpCamera : Type := mkGpCamera {
  port_info : option string;
  abilities : option string
}.

(** The library: what its calls return or raise.  [detect] gives the
    model and the port of every camera it finds. *)
Record Library : Type := mkLibrary {
  load_port_info_list : result unit;
  load_abilities_list : result unit;
  detect : result (list (string * string));
  lookup_path : string -> result string;
  set_port_info : string -> result unit;
  lookup_model : string -> result string;
  set_abilities : string -> result unit
}.

(** [_get_gp_camera], called on the controller of the camera at
    [self_path], with the class attribute [Gphoto2Camera._gp_camera]
    before and after. *)
Definition _get_gp_camera (lib : Library) (self_path : string)
    (_gp_camera : option GpCamera)
  : result GpCamera * option GpCamera :=
  match _gp_camera with
  | Some session => (Ok session, _gp_camera)
  | None =>
      match load_port_info_list lib, load_abilities_list lib with
      | Raise e, _ => (Raise e, None)
      | Ok _, Raise e => (Raise e, None)
      | Ok _, Ok _ =>
          match detect lib with
          | Raise e => (Raise e, None)
          | Ok [] => (Raise (RuntimeError "No GPhoto2 cameras detected"), None)
          | Ok ((first_model, _) :: _) =>
              let created := mkGpCamera None None in
              match lookup_path lib self_path with
              | Raise e => (Raise e, Some created)
              | Ok port =>
                  match set_port_info lib port with
                  | Raise e => (Raise e, Some created)
                  | Ok _ =>
                      let with_port := mkGpCamera (Some port) None in
                      match lookup_model lib first_model with
                      | Raise e => (Raise e, Some with_port)
                      | Ok model_abilities =>
                          match set_abilities lib model_abilities with
                          | Raise e => (Raise e, Some with_port)
                          | Ok _ =>
                              let ready :=
                                mkGpCamera (Some port)
                                           (Some model_abilities) in
                              (Ok ready, Some ready)
                          end
                      end
                  end
              end
          end
      end
  end.

End Gphoto2.


Import Sensors Exif.
Import Device.
Local Open Scope act_scope.

(* ================================================================== *)
(** * The design document's wording, event lists, and a bench *)
(* ================================================================== *)

(** A sensor whose lens is not known, and a table that holds it. *)
Definition lensless_sensor : CameraSensor :=
  mkCameraSensor "bare" 4.64 3.48 4656 3496 None.

Definition lensless_table : dict CameraSensor := [ ("bare", lensless_sensor) ].

(** The 35 mm formula as the document writes it for a positive width,
    evaluated from left to right in double precision:
    [round(focal_mm * 36.0 / sensor_width_mm)]. *)
Definition documented_35mm_formula (focal_mm sensor_width_mm : float)
  : result Z :=
  round (focal_mm * 36.0 / sensor_width_mm)%float.

(** The two tests of the resolution-based estimate, as the document words
    them, for an observed ratio [target_ratio]. *)
Definition ratio_and_size_match (target_ratio : float) (width height : Z)
    (sensor : CameraSensor) : bool :=
  match int_true_div (native_width_px sensor) (native_height_px sensor) with
  | Ok sensor_ratio =>
      (PrimFloat.abs (sensor_ratio - target_ratio) <? 0.01)%float
      && (width <=? native_width_px sensor)
      && (height <=? native_height_px sensor)
  | Raise _ => false
  end.

Definition documented_estimate (target_ratio : float) (width height : Z)
  : option CameraSensor :=
  match find (exact_native_match width height) (values SENSOR_DATABASE) with
  | Some sensor => Some sensor
  | None =>
      find (ratio_and_size_match target_ratio width height)
           (values SENSOR_DATABASE)
  end.

(** The events of one guarded method call: the call itself, then the
    error that the [except] clause logs when the call raised. *)
Definition attempt (e : event) (raises : bool) (k : kind) (n : string)
  : list event :=
  e :: (if raises then [Caught k n] else []).

Definition close_camera_events (env : Env) (n : string) : list event :=
  attempt (Cleanup CameraK n) (cleanup_raises env CameraK n) CameraK n.
Definition close_endstop_events (env : Env) (n : string) : list event :=
  attempt (Cleanup EndstopK n) (cleanup_raises env EndstopK n) EndstopK n.
Definition switch_off_events (env : Env) (n : string) : list event :=
  attempt (TurnOff n) (turn_off_raises env n) LightK n.

(** The store with nothing registered. *)
Definition emptied (st : Store) : Store :=
  mkStore (scanner_device st) [] [] [] [].

(** Every event that [m] emits, from whatever store, satisfies [P]. *)
Definition emits_only (P : event -> Prop) {A} (m : action A) : Prop :=
  forall st, Forall P (events_of m st).

(** [m] leaves the component [f] of the store as it found it. *)
Definition preserves {X} (f : Store -> X) {A} (m : action A) : Prop :=
  forall st, f (store_after m st) = f st.

Definition is_cleanup (e : event) : bool :=
  match e with
  | Cleanup _ _ => true
  | _ => false
  end.

Definition is_create (e : event) : bool :=
  match e with
  | Create _ _ => true
  | _ => false
  end.

Definition bench_motor_config : MotorConfig := mkMotorConfig 1 2 3 200.

(** Hardware on which nothing fails: every controller can be built, every
    call returns, and the tethered-camera probe reports [detected]. *)
Definition bench_env (detected : list (option string * string)) : Env :=
  mkEnv (fun _ => false) (fun _ => false) (fun _ => false) (fun _ => false)
        (fun _ => false) (fun _ _ => false) (fun _ => false) (fun _ => false)
        (fun _ => Ok "idle") (fun _ => Ok "idle") (fun _ => Ok "on")
        (fun _ => true)
        (Ok []) (Ok detected) (Raise (RuntimeError "no camera"))
        (mkCameraSettings 95 true) bench_motor_config (mkLightConfig 0)
        (mkEndstopConfig 0 0 "")
        (fun _ => true) (fun _ => true).

(** The same hardware with a camera whose status query raises. *)
Definition faulty_status_env : Env :=
  mkEnv (fun _ => false) (fun _ => false) (fun _ => false) (fun _ => false)
        (fun _ => false) (fun _ _ => false) (fun _ => false) (fun _ => false)
        (fun _ => Raise (RuntimeError "camera busy"))
        (fun _ => Ok "idle") (fun _ => Ok "on")
        (fun _ => true)
        (Ok []) (Ok []) (Raise (RuntimeError "no camera"))
        (mkCameraSettings 95 true) bench_motor_config (mkLightConfig 0)
        (mkEndstopConfig 0 0 "")
        (fun _ => true) (fun _ => true).

(** One camera, two motors, one light, and two endstops, the second of
    which names a motor that is not configured. *)
Definition bench_config : Config :=
  mkConfig (Some "scanner") (Some "classic") (Some "greenshield")
    (Entries [ ("cam", CameraEntry (Some EXTERNAL) "/dev/null" None) ])
    (Entries [ ("rotor", Some bench_motor_config);
               ("turntable", Some bench_motor_config) ])
    (Entries [ ("ring", Some (mkLightConfig 5)) ])
    (Entries [ ("home", EndstopEntry (Some (mkEndstopConfig 4 0 "rotor")));
               ("lost", EndstopEntry (Some (mkEndstopConfig 6 0 "gantry"))) ]).

(** The store after a first [initialize] on the bench. *)
Definition bench_store : Store :=
  store_after (initialize (bench_env []) bench_config false) initial_store.

(** The place of a hardware call in the order that the design document
    gives: endstops, lights, motors, cameras, pins. *)
Definition documented_phase (e : event) : option nat :=
  match e with
  | Cleanup EndstopK _ => Some 0%nat
  | TurnOff _ | Cleanup LightK _ => Some 1%nat
  | Cleanup MotorK _ => Some 2%nat
  | Cleanup CameraK _ => Some 3%nat
  | CleanupAllPins => Some 4%nat
  | _ => None
  end.

Fixpoint phases (evs : list event) : list nat :=
  match evs with
  | [] => []
  | e :: rest =>
      match documented_phase e with
      | Some p => p :: phases rest
      | None => phases rest
      end
  end.

Fixpoint nondecreasing (l : list nat) : bool :=
  match l with
  | a :: ((b :: _) as rest) => Nat.leb a b && nondecreasing rest
  | _ => true
  end.

Definition in_documented_order (evs : list event) : bool :=
  nondecreasing (phases evs).

Definition is_endstop_cleanup (e : event) : bool :=
  match e with
  | Cleanup EndstopK _ => true
  | _ => false
  end.

(** A call on a controller, as the document's "controller action". *)
Definition is_controller_action (e : event) : bool :=
  match e with
  | Cleanup _ _ | TurnOff _ | TurnOn _ | StartListener _ => true
  | _ => false
  end.

Definition is_ok {A} (r : result A) : bool :=
  match r with
  | Ok _ => true
  | Raise _ => false
  end.

(** Every controller of the registry answers its status query. *)
Definition status_ok {C} (get_status : C -> result string)
    (controllers : dict C) : bool :=
  forallb (fun entry => is_ok (get_status (snd entry))) controllers.

Definition all_status_ok (env : Env) (st : Store) : bool :=
  status_ok (camera_status env) (camera_controllers st)
  && status_ok (motor_status env) (motor_controllers st)
  && status_ok (light_status env) (light_controllers st).

(** The exception of the first status query that raises, the controllers
    being asked in the order of their registry. *)
Fixpoint first_failure {C} (get_status : C -> result string)
    (controllers : dict C) : option exn :=
  match controllers with
  | [] => None
  | (_, controller) :: rest =>
      match get_status controller with
      | Raise e => Some e
      | Ok _ => first_failure get_status rest
      end
  end.

(** The same over the three registries: the cameras are asked first, then
    the motors, then the lights. *)
Definition first_status_failure (env : Env) (st : Store) : option exn :=
  match first_failure (camera_status env) (camera_controllers st) with
  | Some e => Some e
  | None =>
      match first_failure (motor_status env) (motor_controllers st) with
      | Some e => Some e
      | None => first_failure (light_status env) (light_controllers st)
      end
  end.

(** [snap] holds one status per registered name, and each status is the
    answer of a controller registered under that name. *)
Definition snapshot_of {C} (get_status : C -> result string)
    (controllers : dict C) (snap : dict string) : Prop :=
  (forall n, In n (keys snap) <-> In n (keys controllers)) /\
  (forall n s, dict_get snap n = Some s ->
               exists c, In (n, c) controllers /\ get_status c = Ok s).

(** The store after a first [initialize] with a camera whose status query
    raises. *)
Definition faulty_store : Store :=
  store_after (initialize faulty_status_env bench_config false) initial_store.

(** A run in which no call outside a [try] block raises. *)
Definition calm : Faults := mkFaults (fun _ => None) false.

(** A run in which [schedule_device_status_broadcast()] raises. *)
Definition broadcast_fails : Faults :=
  mkFaults (fun s => match s with
                     | ScheduleBroadcast => Some (RuntimeError "no event loop")
                     | _ => None
                     end)
           false.

(** A run in which [ScannerDevice(...)] raises. *)
Definition device_rejected : Faults :=
  mkFaults (fun s => match s with
                     | BuildScannerDevice => Some ValueError
                     | _ => None
                     end)
           false.

(** Where [m'] returns, it has done what [m] does. *)
Definition agrees {A} (m' : action (result A)) (m : action A) : Prop :=
  forall st a s e, m' st = (Ok a, s, e) -> m st = (a, s, e).

(** What [m'] raises, a call outside the [try] blocks raised. *)
Definition raises_only_faults {A} (faults : Faults)
    (m' : action (result A)) : Prop :=
  forall st e, value_of m' st = Raise e ->
               exists s, raises_at faults s = Some e.

(** Everything [initialize] does before its endstop loop. *)
Definition before_endstops (env : Env) (config : Config) (detect : bool)
  : action (dict Camera) :=
  dev <- read scanner_device ;;
  (if initialized dev then reinit_teardown env else ret tt) ;;
  build_cameras_and_motors env config detect.

(** [config] with another endstop section. *)
Definition with_endstops (config : Config) (s : section endstop_entry)
  : Config :=
  mkConfig (cfg_name config) (cfg_model config) (cfg_shield config)
           (cfg_cameras config) (cfg_motors config) (cfg_lights config) s.

(** The events that construct an endstop controller or start its
    listener. *)
Definition is_binding (e : event) : bool :=
  match e with
  | Create EndstopK _ | StartListener _ => true
  | _ => false
  end.

Definition is_caught (e : event) : bool :=
  match e with
  | Caught _ _ => true
  | _ => false
  end.

(** The events of a run without the log entries. *)
Definition hardware_calls (evs : list event) : list event :=
  filter (fun e => negb (is_caught e)) evs.

(** [f"{name}-{suffix}"] *)
Definition candidate (base : string) (k : nat) : string :=
  (base ++ "-" ++ str_of_nat k)%string.

Definition three_tethered : list (option string * string) :=
  [ (Some "camX", "usb:001,004"); (Some "camX", "usb:001,005");
    (Some "camX", "usb:001,006") ].

Definition two_found : dict Camera :=
  [ ("camX", mkCamera GPHOTO2 "camX" "usb:001,004" None);
    ("camX-2", mkCamera GPHOTO2 "camX-2" "usb:001,005" None) ].


(** Every character of [s] is white space. *)
Fixpoint all_space (s : string) : bool :=
  match s with
  | EmptyString => true
  | String c rest => Security.is_space c && all_space rest
  end.


(** An environment that configures the admin token [" s3cret "] and
    nothing else, and a request that carries [header] as its
    [X-OpenScan-Token] and [auth] as its [Authorization]. *)
Definition token_environ : Security.environ :=
  fun key =>
    if String.eqb key Security.ADMIN_TOKEN_ENV then Some " s3cret " else None.

Definition request_with (header auth : option string) : Security.Request :=
  Security.mkRequest
    (fun key =>
       if String.eqb key Security.ADMIN_HEADER_NAME then header
       else if String.eqb key "Authorization" then auth
       else None).


(** Every character of [s] is in [[A-Za-z0-9_.-]]. *)
Fixpoint all_safe (s : string) : bool :=
  match s with
  | EmptyString => true
  | String c rest => Router.is_safe_char c && all_safe rest
  end.

(** The last character of [s] is white space. *)
Fixpoint ends_in_space (s : string) : bool :=
  match s with
  | EmptyString => false
  | String c EmptyString => Security.is_space c
  | String _ rest => ends_in_space rest
  end.

(** Two listed configurations, and a file system on which every path is
    already in its resolved form. *)
Definition listed_configs : list Router.config_info :=
  [ Router.mkConfigInfo (Some "mini.json") (Some "/settings/device/mini.json");
    Router.mkConfigInfo (Some "classic.json")
                        (Some "/settings/device/classic.json") ].

Definition plain_file_system : Router.FileSystem :=
  Router.mkFileSystem (fun p => p) (fun p => p) false.


(** The bench configuration without a scanner model, and status schemas
    that accept every status. *)
Definition modelless_config : Config :=
  mkConfig (cfg_name bench_config) None (cfg_shield bench_config)
           (cfg_cameras bench_config) (cfg_motors bench_config)
           (cfg_lights bench_config) (cfg_endstops bench_config).

Definition any_status : Router.StatusSchemas :=
  Router.mkStatusSchemas (fun _ => true) (fun _ => true) (fun _ => true).




(** The number of video devices that the V4L2 loop of [_detect_cameras]
    turns into a camera: those before the first one that fails to open,
    the nodes of the image signal processor apart. *)
Fixpoint accepted_linuxpy (devices : list V4L2Device) : nat :=
  match devices with
  | [] => 0
  | cam :: rest =>
      if opens cam
      then ((if is_isp_node (card cam) then 0 else 1)
            + accepted_linuxpy rest)%nat
      else 0%nat
  end.

(** The number of devices that the three probes of [_detect_cameras]
    accept. *)
Definition accepted_devices (env : Env) : nat :=
  ((match iter_video_capture_devices env with
    | Ok devices => accepted_linuxpy devices
    | Raise _ => 0
    end)
   + (match gphoto2_autodetect env with
      | Ok detected => List.length detected
      | Raise _ => 0
      end)
   + (if camera_type_available env PICAMERA2
      then match picamera2_probe env with Ok _ => 1 | Raise _ => 0 end
      else 0))%nat.

(** The base names that the V4L2 loop of [_detect_cameras] passes to
    [_unique_camera_name], in the order of the loop. *)
Fixpoint linuxpy_bases (devices : list V4L2Device) : list (option string) :=
  match devices with
  | [] => []
  | cam :: rest =>
      if opens cam
      then (if is_isp_node (card cam) then [] else [card cam])
           ++ linuxpy_bases rest
      else []
  end.

(** The base name of every camera that the three probes of
    [_detect_cameras] detect, in the order of detection: the video
    devices, the tethered cameras, the Picamera2 module. *)
Definition detected_bases (env : Env) : list (option string) :=
  (match iter_video_capture_devices env with
   | Ok devices => linuxpy_bases devices
   | Raise _ => []
   end)
  ++ (match gphoto2_autodetect env with
      | Ok detected => map fst detected
      | Raise _ => []
      end)
  ++ (if camera_type_available env PICAMERA2
      then match picamera2_probe env with
           | Ok (model_name, _) => [model_name]
           | Raise _ => []
           end
      else []).

(** The naming rule for one camera: with the names [taken] so far, a
    base name that is free is [assigned] as it is, and one that is taken
    is given the suffix [-k] for the least [k >= 2] whose candidate is
    free. *)
Definition follows_rule (taken : list string) (base_name : option string)
    (assigned : string) : Prop :=
  let base := name_or_default base_name in
  (~ In base taken /\ assigned = base) \/
  (In base taken /\
   exists k,
     (2 <= k)%nat /\
     assigned = candidate base k /\
     ~ In (candidate base k) taken /\
     (forall j, (2 <= j < k)%nat -> In (candidate base j) taken)).

(** The cameras reporting [bases] are named [assigned], one name each
    and in the same order, every one by the rule against the names
    [taken] before it. *)
Inductive named_in_turn
  : list (option string) -> list string -> list string -> Prop :=
| named_none : forall taken, named_in_turn [] taken []
| named_next : forall base_name bases taken n assigned,
    follows_rule taken base_name n ->
    named_in_turn bases (taken ++ [n]) assigned ->
    named_in_turn (base_name :: bases) taken (n :: assigned).

(** A video device, a tethered camera and a Picamera2 module that all
    report ["camX"], beside a node of the image signal processor. *)
Definition mixed_env : Env :=
  mkEnv (fun _ => false) (fun _ => false) (fun _ => false) (fun _ => false)
        (fun _ => false) (fun _ _ => false) (fun _ => false) (fun _ => false)
        (fun _ => Ok "idle") (fun _ => Ok "idle") (fun _ => Ok "on")
        (fun _ => true)
        (Ok [ mkV4L2Device true (Some "unicam") "/dev/video0";
              mkV4L2Device true (Some "camX") "/dev/video2" ])
        (Ok [ (Some "camX", "usb:001,004") ])
        (Ok (Some "camX", "2"))
        (mkCameraSettings 95 true) bench_motor_config (mkLightConfig 0)
        (mkEndstopConfig 0 0 "")
        (fun _ => true) (fun _ => true).

(** Every entry of [cameras] is filed under the name it carries, and no
    name occurs twice. *)
Definition well_named (cameras : dict Camera) : Prop :=
  NoDup (keys cameras) /\
  (forall n cam, In (n, cam) cameras -> camera_name cam = n).


(** The descriptor that [initialize] builds for one entry of the motor
    section. *)
Definition described_motor (env : Env) (entry : string * option MotorConfig)
  : string * Motor :=
  (fst entry, mkMotor (fst entry) (_load_motor_config env (snd entry))).

(** The controllers that the motor loop registers: one for every
    descriptor whose constructor returns. *)
Definition constructed (env : Env) (entry : string * Motor) : bool :=
  negb (motor_ctor_raises env (snd entry)).

(** What one round of the motor loop reports. *)
Definition motor_round_events (env : Env) (entry : string * Motor)
  : list event :=
  if motor_ctor_raises env (snd entry)
  then [Caught MotorK (fst entry)]
  else [Create MotorK (motor_ident (snd entry))].


(** The bench with two faults: the constructor of the motor ["rotor"]
    raises, and the backend of the external cameras is not installed. *)
Definition degraded_env : Env :=
  mkEnv (fun _ => false)
        (fun motor => String.eqb (motor_ident motor) "rotor")
        (fun _ => false) (fun _ => false)
        (fun _ => false) (fun _ _ => false) (fun _ => false) (fun _ => false)
        (fun _ => Ok "idle") (fun _ => Ok "idle") (fun _ => Ok "on")
        (fun ty => match ty with EXTERNAL => false | _ => true end)
        (Ok []) (Ok []) (Raise (RuntimeError "no camera"))
        (mkCameraSettings 95 true) bench_motor_config (mkLightConfig 0)
        (mkEndstopConfig 0 0 "")
        (fun _ => true) (fun _ => true).

(** The store after [initialize] on the degraded bench. *)
Definition degraded_store : Store :=
  store_after (initialize degraded_env bench_config false) initial_store.

(** The camera descriptors that [initialize] works with: the detected
    ones, or those of the camera section. *)
Definition listed_cameras (env : Env) (config : Config) (detect : bool)
  : dict Camera :=
  if detect || is_empty (section_dict (cfg_cameras config))
  then probe_cameras env
  else cameras_from_config env (section_dict (cfg_cameras config)) [].

(** [e] reports that a controller for the camera [n] was constructed, or
    that constructing it raised. *)
Definition camera_attempt (n : string) (e : event) : bool :=
  match e with
  | Create CameraK m | Caught CameraK m => String.eqb m n
  | _ => false
  end.


(** What [initialize] does after the teardown. *)
Definition rebuild (env : Env) (config : Config) (detect : bool)
  : action unit :=
  camera_objects <- build_cameras_and_motors env config detect ;;
  endstop_objects <-
    bind_endstops env (section_dict (cfg_endstops config)) [] ;;
  finish_initialize env config camera_objects endstop_objects.

(** An action that neither reads nor writes [_scanner_device]: run on a
    store with another device aggregate, it does the same and leaves that
    aggregate in place. *)
Definition device_blind {A} (m : action A) : Prop :=
  forall d st,
    m (set_scanner_device d st) =
    let '(a, st', e) := m st in (a, set_scanner_device d st', e).

(** [config.get("name", _scanner_device.name)] *)
Definition effective_name (config : Config) (d : ScannerDevice) : string :=
  match cfg_name config with
  | Some n => n
  | None => name d
  end.


(** No character of [s] ends a line. *)
Fixpoint break_free (s : string) : bool :=
  match s with
  | EmptyString => true
  | String c rest => negb (Overlay.is_line_break c) && break_free rest
  end.

(** A text file written line by line, every line closed by a line feed. *)
Fixpoint unlines (lines : list string) : string :=
  match lines with
  | [] => EmptyString
  | line :: rest => (line ++ String "010" (unlines rest))%string
  end.


(** [m] followed by [k] binary zeros: [m * 2^k]. *)
Fixpoint doubled (k : nat) (m : positive) : positive :=
  match k with
  | O => m
  | S k' => xO (doubled k' m)
  end.


(** A driver on which every call returns. *)
Definition willing_driver : Linuxpy.Driver := fun _ => Ok tt.

(** A library that finds one camera but does not know the port of the
    controller's camera. *)
Definition library_without_port : Gphoto2.Library :=
  Gphoto2.mkLibrary (Ok tt) (Ok tt) (Ok [ ("camX", "usb:001,004") ])
    (fun _ => Raise (RuntimeError "unknown port"))
    (fun _ => Ok tt) (fun m => Ok m) (fun _ => Ok tt).


(** What switching one light on reports. *)
Definition switch_on_events (env : Env) (n : string) : list event :=
  attempt (TurnOn n) (turn_on_raises env n) LightK n.


(** A disk on which every step succeeds. *)
Definition sound_disk : Router.Disk :=
  Router.mkDisk "/tmp/tmpab12.json" "/home/openscan/settings/device"
                false false false.


(** The kind of controller that an event is about. *)
Definition event_kind (e : event) : option kind :=
  match e with
  | Create k _ | Cleanup k _ | Caught k _ => Some k
  | TurnOn _ | TurnOff _ => Some LightK
  | StartListener _ => Some EndstopK
  | CleanupAllPins | Broadcast => None
  end.

Definition kind_eqb (a b : kind) : bool :=
  match a, b with
  | CameraK, CameraK | MotorK, MotorK | LightK, LightK
  | EndstopK, EndstopK => true
  | _, _ => false
  end.

(** [e] is about a controller of kind [k]. *)
Definition about (k : kind) (e : event) : bool :=
  match event_kind e with
  | Some k' => kind_eqb k k'
  | None => false
  end.

(** [e] belongs to a teardown: a cleanup, its log entry, or the release
    of the pins. *)
Definition tears_down (e : event) : bool :=
  match e with
  | Cleanup _ _ | CleanupAllPins | Caught EndstopK _ => true
  | _ => false
  end.


(* ================================================================== *)
(** * Sensor intrinsics: properties *)
(* ================================================================== *)

Section SensorFacts.

Lemma sensor_database_cases : forall key sensor,
    dict_get SENSOR_DATABASE key = Some sensor ->
    sensor = imx519 \/ sensor = hawkeye \/ sensor = imx708 \/ sensor = imx477.
Proof.
  intros key sensor. unfold SENSOR_DATABASE, dict_get.
  repeat match goal with
         | |- context [String.eqb ?a key] => destruct (String.eqb a key)
         end;
    intro H; inversion H; auto.
Qed.

Lemma get_sensor_for_camera_cases : forall camera_name sensor,
    get_sensor_for_camera camera_name = Some sensor ->
    sensor = imx519 \/ sensor = hawkeye \/ sensor = imx708 \/ sensor = imx477.
Proof.
  intros camera_name sensor.
  unfold get_sensor_for_camera, get_sensor_for_camera_in.
  destruct camera_name; [discriminate|].
  apply sensor_database_cases.
Qed.

(** Every sensor of the table has a focal length whose two EXIF values
    can be computed. *)
Lemma table_intrinsics_computable : forall sensor focal,
    sensor = imx519 \/ sensor = hawkeye \/ sensor = imx708 \/ sensor = imx477 ->
    default_focal_length_mm sensor = Some focal ->
    exists num f35,
      focal_to_rational focal = Ok (num, 100) /\
      calculate_35mm_equivalent focal (sensor_width_mm sensor) = Ok f35.
Proof.
  intros sensor focal Hs Hf.
  destruct Hs as [-> | [-> | [-> | ->]]];
    simpl in Hf; injection Hf as <-;
    eexists; eexists; split; vm_compute; reflexivity.
Qed.

Lemma ratio_scan_is_find : forall target_ratio width height sensors,
    Forall (fun s => exists r,
                int_true_div (native_width_px s) (native_height_px s) = Ok r)
           sensors ->
    ratio_scan target_ratio width height sensors =
    Ok (find (ratio_and_size_match target_ratio width height) sensors).
Proof.
  intros target_ratio width height sensors Hall.
  induction Hall as [| s rest [r Hr] _ IH]; [reflexivity|].
  simpl. unfold ratio_and_size_match. rewrite Hr. simpl.
  destruct (PrimFloat.abs (r - target_ratio) <? 0.01)%float; simpl;
    [|exact IH].
  destruct (width <=? native_width_px s); simpl; [|exact IH].
  destruct (height <=? native_height_px s); simpl; [reflexivity|exact IH].
Qed.

Lemma table_ratios_defined :
  Forall (fun s => exists r,
              int_true_div (native_width_px s) (native_height_px s) = Ok r)
         (values SENSOR_DATABASE).
Proof.
  repeat constructor; eexists; vm_compute; reflexivity.
Qed.

(** Wherever the observed ratio [width / height] can be computed, the
    estimate is the documented one: the exact native match first, then
    the first sensor of the table that passes both tests, else nothing. *)
Lemma estimate_sensor_from_resolution_defined_ratio :
  forall width height target_ratio,
    int_true_div width height = Ok target_ratio ->
    estimate_sensor_from_resolution width height =
    Ok (documented_estimate target_ratio width height).
Proof.
  intros width height target_ratio Hdiv.
  unfold estimate_sensor_from_resolution, estimate_sensor_from_resolution_in,
    documented_estimate.
  destruct (find (exact_native_match width height) (values SENSOR_DATABASE));
    [reflexivity|].
  rewrite Hdiv. cbv beta iota delta [bind].
  apply ratio_scan_is_find, table_ratios_defined.
Qed.

(** An exact native match is returned before any ratio is computed. *)
Lemma estimate_sensor_from_resolution_exact :
  forall width height sensor,
    find (exact_native_match width height) (values SENSOR_DATABASE)
      = Some sensor ->
    estimate_sensor_from_resolution width height = Ok (Some sensor).
Proof.
  intros width height sensor H.
  unfold estimate_sensor_from_resolution, estimate_sensor_from_resolution_in.
  rewrite H. reflexivity.
Qed.

Lemma positive_width_is_not_nonpositive : forall w : float,
    (0 <? w)%float = true -> (w <=? 0)%float = false.
Proof.
  intros w. rewrite ltb_spec, leb_spec.
  change (Prim2SF 0) with (S754_zero false).
  destruct (Prim2SF w) as [s | s | | s m e]; try destruct s;
    cbv [SFltb SFleb SFcompare]; congruence.
Qed.

End SensorFacts.

(** C8 (evaluation at the failing input).  For an observed resolution of
    1920 x 0 no sensor has that native resolution, and the estimate then
    divides the width by the height: the call raises [ZeroDivisionError]
    where the claim, and the function's own docstring, promise "no
    sensor".  [estimate_sensor_from_resolution_defined_ratio] shows that
    the claim holds wherever the division is defined. *)
Theorem estimate_sensor_from_resolution_zero_height :
  find (exact_native_match 1920 0) (values SENSOR_DATABASE) = None /\
  estimate_sensor_from_resolution 1920 0 = Raise ZeroDivisionError.
Proof. split; vm_compute; reflexivity. Qed.

(** C9 (the claim as stated fails).  At focal length
    107.50000000000001 mm and the positive width 60 mm the documented
    expression rounds to 65, and so does the exact quotient, which lies
    strictly between 64.5 and 65.5; the function returns 64: it multiplies
    by the already rounded crop factor [36.0 / 60.0], and the product is
    the tie 64.5. *)
Lemma calculate_35mm_equivalent_not_left_to_right :
  (0 <? 60)%float = true /\
  calculate_35mm_equivalent 0x1.ae00000000001p+6 60 = Ok 64 /\
  documented_35mm_formula 0x1.ae00000000001p+6 60 = Ok 65 /\
  Prim2SF 0x1.ae00000000001p+6 = S754_finite false 7564639999098881 (-46) /\
  Prim2SF 60 = S754_finite false 8444249301319680 (-47) /\
  (129 * 8444249301319680 < 2 * (7564639999098881 * 36 * 2)
   < 131 * 8444249301319680)%Z.
Proof. repeat split; vm_compute; reflexivity. Qed.

(** C9 (amended).  For a positive sensor width the result is
    [round(focal_mm * (36.0 / sensor_width_mm))], the crop factor being
    computed first; for a width that is zero or negative it is
    [round(focal_mm)]; and a 50 mm lens on a 36 mm sensor gives 50. *)
Theorem calculate_35mm_equivalent_crop_factor :
  forall focal_mm sensor_width_mm,
    ((0 <? sensor_width_mm)%float = true ->
     calculate_35mm_equivalent focal_mm sensor_width_mm =
     round (focal_mm * (36.0 / sensor_width_mm))%float) /\
    ((sensor_width_mm <=? 0)%float = true ->
     calculate_35mm_equivalent focal_mm sensor_width_mm = round focal_mm) /\
    calculate_35mm_equivalent 50.0 36.0 = Ok 50.
Proof.
  intros focal_mm sensor_width_mm. unfold calculate_35mm_equivalent.
  split; [|split].
  - intro Hpos. rewrite (positive_width_is_not_nonpositive _ Hpos).
    reflexivity.
  - intro Hle. rewrite Hle. reflexivity.
  - vm_compute. reflexivity.
Qed.

Lemma calculate_35mm_equivalent_crop_factor_witness :
  calculate_35mm_equivalent 4.28 4.64 = Ok 33 /\
  calculate_35mm_equivalent 4.28 0 = Ok 4.
Proof.
  split.
  - destruct (calculate_35mm_equivalent_crop_factor 4.28 4.64) as [H _].
    rewrite H; vm_compute; reflexivity.
  - destruct (calculate_35mm_equivalent_crop_factor 4.28 0) as [_ [H _]].
    rewrite H; vm_compute; reflexivity.
Defined.

(** C6 (the claim as stated fails).  For the camera "imx519", whose
    sensor is in the table and has a default focal length, the builder
    returns the empty dictionary when [piexif] cannot be imported. *)
Lemma build_camera_intrinsics_exif_needs_piexif :
  get_sensor_for_camera "imx519" = Some imx519 /\
  default_focal_length_mm imx519 = Some 4.28%float /\
  build_camera_intrinsics_exif false "imx519" 4656 3496 = empty_exif.
Proof. repeat split. Qed.

(** C6 (amended).  Whatever sensors the table holds when the builder is
    called, the builder returns the empty dictionary when the
    alias-resolved sensor is unknown or has no default focal length;
    otherwise, when [piexif] can be imported and the two roundings of the
    focal length return, it returns the sensor's rational focal length,
    its 35 mm equivalent, and the two pixel dimensions it was given.  On
    the table of [sensors.py] the two roundings return for every sensor,
    and with [piexif] importable the two documented calls give the
    documented results. *)
Theorem build_camera_intrinsics_exif_spec :
  forall database piexif_importable camera_name image_width image_height,
    (get_sensor_for_camera_in database camera_name = None ->
     build_camera_intrinsics_exif_in database piexif_importable camera_name
                                     image_width image_height
       = empty_exif) /\
    (forall sensor,
        get_sensor_for_camera_in database camera_name = Some sensor ->
        default_focal_length_mm sensor = None ->
        build_camera_intrinsics_exif_in database piexif_importable camera_name
                                        image_width image_height
          = empty_exif) /\
    (forall sensor focal num den f35,
        piexif_importable = true ->
        get_sensor_for_camera_in database camera_name = Some sensor ->
        default_focal_length_mm sensor = Some focal ->
        focal_to_rational focal = Ok (num, den) ->
        calculate_35mm_equivalent focal (sensor_width_mm sensor) = Ok f35 ->
        den = 100 /\
        build_camera_intrinsics_exif_in database piexif_importable camera_name
                                        image_width image_height
          = [ ("Exif",
               [ (FocalLength, Rational num 100);
                 (FocalLengthIn35mmFilm, Int f35);
                 (PixelXDimension, Int image_width);
                 (PixelYDimension, Int image_height) ]) ]) /\
    (forall sensor focal,
        piexif_importable = true ->
        get_sensor_for_camera camera_name = Some sensor ->
        default_focal_length_mm sensor = Some focal ->
        exists num f35,
          focal_to_rational focal = Ok (num, 100) /\
          calculate_35mm_equivalent focal (sensor_width_mm sensor) = Ok f35 /\
          build_camera_intrinsics_exif piexif_importable camera_name
                                       image_width image_height
            = [ ("Exif",
                 [ (FocalLength, Rational num 100);
                   (FocalLengthIn35mmFilm, Int f35);
                   (PixelXDimension, Int image_width);
                   (PixelYDimension, Int image_height) ]) ]) /\
    build_camera_intrinsics_exif true "imx519" 4656 3496
      = [ ("Exif",
           [ (FocalLength, Rational 428 100);
             (FocalLengthIn35mmFilm, Int 33);
             (PixelXDimension, Int 4656);
             (PixelYDimension, Int 3496) ]) ] /\
    build_camera_intrinsics_exif piexif_importable "unknown_camera" 4656 3496
      = empty_exif.
Proof.
  intros database piexif_importable camera_name image_width image_height.
  unfold build_camera_intrinsics_exif, build_camera_intrinsics_exif_in.
  split; [|split; [|split; [|split; [|split]]]].
  - intros ->. reflexivity.
  - intros sensor -> ->. reflexivity.
  - intros sensor focal num den f35 -> -> -> Hnum ->.
    assert (Hden : den = 100).
    { unfold focal_to_rational in Hnum.
      destruct (round (focal * 100)%float); simpl in Hnum; congruence. }
    subst den. rewrite Hnum. auto.
  - intros sensor focal -> Hs Hf.
    destruct (table_intrinsics_computable sensor focal
                (get_sensor_for_camera_cases _ _ Hs) Hf)
      as [num [f35 [Hnum Hf35]]].
    exists num, f35. unfold get_sensor_for_camera in Hs.
    rewrite Hs, Hf, Hnum, Hf35. auto.
  - vm_compute. reflexivity.
  - reflexivity.
Qed.

Lemma build_camera_intrinsics_exif_spec_witness :
  (exists num f35,
      build_camera_intrinsics_exif true "Arducam_64MP" 2312 1736
      = [ ("Exif",
           [ (FocalLength, Rational num 100);
             (FocalLengthIn35mmFilm, Int f35);
             (PixelXDimension, Int 2312);
             (PixelYDimension, Int 1736) ]) ]) /\
  get_sensor_for_camera_in lensless_table "Bare" = Some lensless_sensor /\
  build_camera_intrinsics_exif_in lensless_table true "Bare" 4656 3496
    = empty_exif.
Proof.
  destruct (build_camera_intrinsics_exif_spec
              SENSOR_DATABASE true "Arducam_64MP" 2312 1736)
    as [_ [_ [_ [H _]]]].
  destruct (build_camera_intrinsics_exif_spec
              lensless_table true "Bare" 4656 3496)
    as [_ [Hbare _]].
  split; [|split].
  - destruct (H hawkeye 5.1%float) as [num [f35 [_ [_ Hb]]]];
      [reflexivity | vm_compute; reflexivity | reflexivity |].
    exists num, f35. exact Hb.
  - reflexivity.
  - apply (Hbare lensless_sensor); reflexivity.
Defined.

(** C10.  When [piexif] cannot be imported the builder returns the empty
    dictionary for every camera, also for one whose sensor is known and has
    a focal length; that result equals the one for an unknown camera. *)
Theorem build_camera_intrinsics_exif_without_piexif :
  forall camera_name image_width image_height,
    build_camera_intrinsics_exif false camera_name image_width image_height
      = empty_exif /\
    (exists sensor focal,
        get_sensor_for_camera "imx519" = Some sensor /\
        default_focal_length_mm sensor = Some focal /\
        build_camera_intrinsics_exif false "imx519" image_width image_height
        = build_camera_intrinsics_exif true "unknown_camera"
            image_width image_height).
Proof.
  intros camera_name image_width image_height. split.
  - unfold build_camera_intrinsics_exif, build_camera_intrinsics_exif_in.
    destruct (get_sensor_for_camera_in SENSOR_DATABASE camera_name)
      as [sensor|]; [|reflexivity].
    destruct (default_focal_length_mm sensor); reflexivity.
  - exists imx519, 4.28%float. repeat split.
Qed.

(* ================================================================== *)
(** * Device orchestration: dictionaries and loops *)
(* ================================================================== *)


Section DictFacts.
Context {V : Type}.

Lemma dict_get_set : forall (d : dict V) k v k',
    dict_get (dict_set d k v) k' =
    if String.eqb k k' then Some v else dict_get d k'.
Proof.
  induction d as [| [k0 v0] d IH]; intros k v k'; simpl.
  - reflexivity.
  - destruct (String.eqb k0 k) eqn:E0; simpl.
    + apply String.eqb_eq in E0. subst k0.
      destruct (String.eqb k k'); reflexivity.
    + rewrite IH. destruct (String.eqb k0 k') eqn:E1; [|reflexivity].
      apply String.eqb_eq in E1. subst k0.
      rewrite String.eqb_sym, E0. reflexivity.
Qed.

Lemma dict_get_pop_other : forall (d : dict V) k k',
    k <> k' -> dict_get (dict_pop d k) k' = dict_get d k'.
Proof.
  induction d as [| [k0 v0] d IH]; intros k k' Hne; simpl; [reflexivity|].
  destruct (String.eqb k0 k) eqn:E0; simpl.
  - apply String.eqb_eq in E0. subst k0.
    apply String.eqb_neq in Hne. rewrite Hne. reflexivity.
  - rewrite IH by assumption. reflexivity.
Qed.

Lemma dict_get_in_keys : forall (d : dict V) k v,
    dict_get d k = Some v -> In k (keys d).
Proof.
  induction d as [| [k0 v0] d IH]; intros k v; simpl; [discriminate|].
  destruct (String.eqb k0 k) eqn:E0.
  - apply String.eqb_eq in E0. auto.
  - intro H. right. exact (IH _ _ H).
Qed.

Lemma dict_get_not_in_keys : forall (d : dict V) k,
    ~ In k (keys d) -> dict_get d k = None.
Proof.
  intros d k Hn. destruct (dict_get d k) eqn:E; [|reflexivity].
  elim Hn. exact (dict_get_in_keys _ _ _ E).
Qed.

Lemma dict_mem_in_keys : forall (d : dict V) k,
    dict_mem d k = true -> In k (keys d).
Proof.
  unfold dict_mem. intros d k.
  destruct (dict_get d k) eqn:E; [|discriminate].
  intros _. exact (dict_get_in_keys _ _ _ E).
Qed.

Lemma in_keys_dict_mem : forall (d : dict V) k,
    In k (keys d) -> dict_mem d k = true.
Proof.
  unfold dict_mem.
  induction d as [| [k0 v0] d IH]; intros k; simpl; [tauto|].
  destruct (String.eqb k0 k) eqn:E0; [reflexivity|].
  intros [H | H]; [|exact (IH _ H)].
  subst k0. rewrite String.eqb_refl in E0. discriminate.
Qed.

Lemma keys_dict_set : forall (d : dict V) k v k',
    In k' (keys (dict_set d k v)) <-> k' = k \/ In k' (keys d).
Proof.
  induction d as [| [k0 v0] d IH]; intros k v k'; simpl.
  - intuition.
  - destruct (String.eqb k0 k) eqn:E0; simpl.
    + apply String.eqb_eq in E0. subst k0. intuition.
    + rewrite IH. intuition.
Qed.

Lemma keys_app : forall (d1 d2 : dict V), keys (d1 ++ d2) = keys d1 ++ keys d2.
Proof. intros. unfold keys. apply map_app. Qed.

End DictFacts.

Section LoopFacts.
Variable env : Env.

(** A loop whose body leaves the store alone emits the events of its
    rounds, one after the other. *)
Lemma for_each_store_free : forall {A} (body : A -> action unit)
    (f : A -> list event) (l : list A) (st : Store),
    (forall x st', body x st' = (tt, st', f x)) ->
    for_each l body st = (tt, st, flat_map f l).
Proof.
  intros A body f l st Hbody. induction l as [| x l IH]; simpl.
  - reflexivity.
  - unfold seq. rewrite Hbody, IH. reflexivity.
Qed.

Lemma close_camera_run : forall n st,
    close_camera env n st = (tt, st, close_camera_events env n).
Proof.
  intros n st. unfold close_camera, close_camera_events, attempt, try_log,
    call, seq, emit, ret.
  destruct (cleanup_raises env CameraK n); reflexivity.
Qed.

Lemma switch_off_light_run : forall n st,
    switch_off_light env n st = (tt, st, switch_off_events env n).
Proof.
  intros n st. unfold switch_off_light, switch_off_events, attempt, try_log,
    call, seq, emit, ret.
  destruct (turn_off_raises env n); reflexivity.
Qed.

Lemma close_endstop_run : forall n st,
    close_endstop env n st =
    (tt, set_endstop_controllers (dict_pop (endstop_controllers st) n) st,
     close_endstop_events env n).
Proof.
  intros n st. unfold close_endstop, close_endstop_events, attempt, try_log,
    pop_endstop_controller, call, seq, emit, ret, read, update.
  destruct (cleanup_raises env EndstopK n); reflexivity.
Qed.

(** The endstop loop runs over a snapshot of the registry and pops every
    entry it visits: it empties the registry. *)
Lemma close_endstops_run : forall d st,
    endstop_controllers st = d ->
    for_each (keys d) (close_endstop env) st =
    (tt, set_endstop_controllers [] st,
     flat_map (close_endstop_events env) (keys d)).
Proof.
  induction d as [| [k v] d IH]; intros st Hd; simpl.
  - unfold ret. destruct st; simpl in *; subst; reflexivity.
  - unfold seq. rewrite close_endstop_run. rewrite Hd. simpl.
    rewrite String.eqb_refl.
    rewrite (IH (set_endstop_controllers d st)) by reflexivity.
    reflexivity.
Qed.

Lemma remove_motors_run : forall d st,
    motor_controllers st = d ->
    for_each (keys d) remove_motor_controller st =
    (tt, set_motor_controllers [] st, map (Cleanup MotorK) (keys d)).
Proof.
  induction d as [| [k v] d IH]; intros st Hd; simpl.
  - unfold ret. destruct st; simpl in *; subst; reflexivity.
  - unfold seq at 1. unfold remove_motor_controller at 1.
    unfold seq, read, update, emit, dict_mem. rewrite Hd. simpl.
    rewrite String.eqb_refl.
    rewrite (IH (set_motor_controllers d st)) by reflexivity.
    reflexivity.
Qed.

Lemma remove_lights_run : forall d st,
    light_controllers st = d ->
    for_each (keys d) remove_light_controller st =
    (tt, set_light_controllers [] st, map (Cleanup LightK) (keys d)).
Proof.
  induction d as [| [k v] d IH]; intros st Hd; simpl.
  - unfold ret. destruct st; simpl in *; subst; reflexivity.
  - unfold seq at 1. unfold remove_light_controller at 1.
    unfold seq, read, update, emit, dict_mem. rewrite Hd. simpl.
    rewrite String.eqb_refl.
    rewrite (IH (set_light_controllers d st)) by reflexivity.
    reflexivity.
Qed.

Lemma remove_cameras_run : forall d st,
    camera_controllers st = d ->
    for_each (keys d) remove_camera_controller st =
    (tt, set_camera_controllers [] st, map (Cleanup CameraK) (keys d)).
Proof.
  induction d as [| [k v] d IH]; intros st Hd; simpl.
  - unfold ret. destruct st; simpl in *; subst; reflexivity.
  - unfold seq at 1. unfold remove_camera_controller at 1.
    unfold seq, read, update, emit, dict_mem. rewrite Hd. simpl.
    rewrite String.eqb_refl.
    rewrite (IH (set_camera_controllers d st)) by reflexivity.
    reflexivity.
Qed.

(** [cleanup_and_exit], run: cameras, then endstops, then lights, then
    the pins; only the endstop registry changes. *)
Lemma cleanup_and_exit_run : forall st,
    cleanup_and_exit env st =
    (tt, set_endstop_controllers [] st,
     flat_map (close_camera_events env) (keys (camera_controllers st))
     ++ flat_map (close_endstop_events env) (keys (endstop_controllers st))
     ++ flat_map (switch_off_events env) (keys (light_controllers st))
     ++ [CleanupAllPins]).
Proof.
  intros st. unfold cleanup_and_exit.
  unfold seq at 1. unfold read at 1.
  unfold seq at 1.
  rewrite (for_each_store_free (close_camera env) (close_camera_events env))
    by apply close_camera_run.
  unfold seq at 1. unfold read at 1.
  unfold seq at 1.
  rewrite (close_endstops_run (endstop_controllers st) st) by reflexivity.
  unfold seq at 1. unfold read at 1.
  unfold seq at 1.
  rewrite (for_each_store_free (switch_off_light env) (switch_off_events env))
    by apply switch_off_light_run.
  unfold emit. simpl. reflexivity.
Qed.

(** The teardown at the head of [initialize], run: motors, lights,
    cameras, endstops, pins; it empties the four registries. *)
Lemma reinit_teardown_run : forall st,
    reinit_teardown env st =
    (tt, emptied st,
     map (Cleanup MotorK) (keys (motor_controllers st))
     ++ map (Cleanup LightK) (keys (light_controllers st))
     ++ map (Cleanup CameraK) (keys (camera_controllers st))
     ++ flat_map (close_endstop_events env) (keys (endstop_controllers st))
     ++ [CleanupAllPins]).
Proof.
  intros st. unfold reinit_teardown.
  unfold seq at 1. unfold read at 1. unfold seq at 1.
  rewrite (remove_motors_run (motor_controllers st) st) by reflexivity.
  unfold seq at 1. unfold read at 1. unfold seq at 1.
  rewrite (remove_lights_run _ (set_motor_controllers [] st)) by reflexivity.
  unfold seq at 1. unfold read at 1. unfold seq at 1.
  rewrite (remove_cameras_run _
             (set_light_controllers [] (set_motor_controllers [] st)))
    by reflexivity.
  unfold seq at 1. unfold read at 1. unfold seq at 1.
  rewrite (close_endstops_run _
             (set_camera_controllers []
                (set_light_controllers [] (set_motor_controllers [] st))))
    by reflexivity.
  unfold emit. simpl. reflexivity.
Qed.

End LoopFacts.

(* ================================================================== *)
(** * Sequencing laws, and what an action emits or leaves alone *)
(* ================================================================== *)

Section ActionFacts.

Lemma events_of_seq : forall {A B} (m : action A) (k : A -> action B) st,
    events_of (seq m k) st =
    events_of m st ++ events_of (k (value_of m st)) (store_after m st).
Proof.
  intros A B m k st. unfold events_of, value_of, store_after, seq.
  destruct (m st) as [[a s1] e1]. simpl.
  destruct (k a s1) as [[b s2] e2]. reflexivity.
Qed.

Lemma store_after_seq : forall {A B} (m : action A) (k : A -> action B) st,
    store_after (seq m k) st =
    store_after (k (value_of m st)) (store_after m st).
Proof.
  intros A B m k st. unfold value_of, store_after, seq.
  destruct (m st) as [[a s1] e1]. simpl.
  destruct (k a s1) as [[b s2] e2]. reflexivity.
Qed.

Lemma value_of_seq : forall {A B} (m : action A) (k : A -> action B) st,
    value_of (seq m k) st =
    value_of (k (value_of m st)) (store_after m st).
Proof.
  intros A B m k st. unfold value_of, store_after, seq.
  destruct (m st) as [[a s1] e1]. simpl.
  destruct (k a s1) as [[b s2] e2]. reflexivity.
Qed.

Variable P : event -> Prop.

Lemma emits_only_ret : forall {A} (a : A), emits_only P (ret a).
Proof. intros A a st. constructor. Qed.

Lemma emits_only_read : forall {A} (f : Store -> A), emits_only P (read f).
Proof. intros A f st. constructor. Qed.

Lemma emits_only_update : forall f, emits_only P (update f).
Proof. intros f st. constructor. Qed.

Lemma emits_only_emit : forall e, P e -> emits_only P (emit e).
Proof. intros e He st. repeat constructor. exact He. Qed.

Lemma emits_only_seq : forall {A B} (m : action A) (k : A -> action B),
    emits_only P m -> (forall a, emits_only P (k a)) ->
    emits_only P (seq m k).
Proof.
  intros A B m k Hm Hk st. rewrite events_of_seq.
  apply Forall_app. split; [apply Hm | apply Hk].
Qed.

Lemma emits_only_for_each : forall {A} (l : list A) (body : A -> action unit),
    (forall x, emits_only P (body x)) -> emits_only P (for_each l body).
Proof.
  intros A l body Hbody. induction l as [| x l IH]; simpl.
  - apply emits_only_ret.
  - apply emits_only_seq; [apply Hbody | intros _; exact IH].
Qed.

Variable X : Type.
Variable f : Store -> X.

Lemma preserves_ret : forall {A} (a : A), preserves f (ret a).
Proof. intros A a st. reflexivity. Qed.

Lemma preserves_read : forall {A} (g : Store -> A), preserves f (read g).
Proof. intros A g st. reflexivity. Qed.

Lemma preserves_emit : forall e, preserves f (emit e).
Proof. intros e st. reflexivity. Qed.

Lemma preserves_update : forall g,
    (forall st, f (g st) = f st) -> preserves f (update g).
Proof. intros g Hg st. apply Hg. Qed.

Lemma preserves_seq : forall {A B} (m : action A) (k : A -> action B),
    preserves f m -> (forall a, preserves f (k a)) -> preserves f (seq m k).
Proof.
  intros A B m k Hm Hk st. rewrite store_after_seq, Hk. apply Hm.
Qed.

Lemma preserves_for_each : forall {A} (l : list A) (body : A -> action unit),
    (forall x, preserves f (body x)) -> preserves f (for_each l body).
Proof.
  intros A l body Hbody. induction l as [| x l IH]; simpl.
  - apply preserves_ret.
  - apply preserves_seq; [apply Hbody | intros _; exact IH].
Qed.

End ActionFacts.

Lemma try_log_emits : forall (Q : event -> Prop) k n body,
    Q (Caught k n) -> emits_only Q body -> emits_only Q (try_log k n body).
Proof.
  intros Q k n body Hc Hb. unfold try_log.
  apply emits_only_seq; [exact Hb|].
  intros [u | e]; [apply emits_only_ret | apply emits_only_emit; exact Hc].
Qed.

Lemma call_emits : forall (Q : event -> Prop) e raises,
    Q e -> emits_only Q (call e raises).
Proof.
  intros Q e raises He. unfold call.
  apply emits_only_seq; [apply emits_only_emit; exact He|].
  intros _. apply emits_only_ret.
Qed.

Lemma try_log_preserves : forall {X} (f : Store -> X) k n body,
    preserves f body -> preserves f (try_log k n body).
Proof.
  intros X f k n body Hb. unfold try_log.
  apply preserves_seq; [exact Hb|].
  intros [u | e]; [apply preserves_ret | apply preserves_emit].
Qed.

Lemma call_preserves : forall {X} (f : Store -> X) e raises,
    preserves f (call e raises).
Proof.
  intros X f e raises. unfold call.
  apply preserves_seq; [apply preserves_emit|].
  intros _. apply preserves_ret.
Qed.

(** Walks through an action built from [seq], [for_each], conditionals
    and the primitive actions, for a goal [emits_only P m]. *)
Ltac emits_step :=
  first
    [ apply try_log_emits; [reflexivity |]
    | apply call_emits; reflexivity
    | apply emits_only_ret
    | apply emits_only_read
    | apply emits_only_update
    | apply emits_only_emit; (reflexivity || assumption || (simpl; tauto))
    | apply emits_only_seq; [| intros ?]
    | apply emits_only_for_each; intros ?
    | match goal with
      | |- emits_only _ (if ?b then _ else _) => destruct b
      | |- emits_only _ (match ?x with _ => _ end) => destruct x
      | |- emits_only _ (let (_, _) := ?x in _) => destruct x
      end ].

(** The same walk for a goal [preserves f m]. *)
Ltac preserves_step :=
  first
    [ apply try_log_preserves
    | apply call_preserves
    | apply preserves_ret
    | apply preserves_read
    | apply preserves_emit
    | apply preserves_update; intros ?; reflexivity
    | apply preserves_seq; [| intros ?]
    | apply preserves_for_each; intros ?
    | match goal with
      | |- preserves _ (if ?b then _ else _) => destruct b
      | |- preserves _ (match ?x with _ => _ end) => destruct x
      | |- preserves _ (let (_, _) := ?x in _) => destruct x
      end ].

Section BuildFacts.
Variable env : Env.

Let no_cleanup (e : event) : Prop := is_cleanup e = false.

Lemma init_camera_controller_spares : forall entry,
    emits_only no_cleanup (init_camera_controller env entry).
Proof.
  intros [n camera]. unfold init_camera_controller, create_camera_controller.
  repeat emits_step.
Qed.

Lemma init_motor_controller_spares : forall entry,
    emits_only no_cleanup (init_motor_controller env entry).
Proof.
  intros [n motor]. unfold init_motor_controller, create_motor_controller.
  repeat emits_step.
Qed.

Lemma init_light_controller_spares : forall entry,
    emits_only no_cleanup (init_light_controller env entry).
Proof.
  intros [n light]. unfold init_light_controller, create_light_controller.
  repeat emits_step.
Qed.

Lemma bind_endstop_spares : forall entry objs,
    emits_only no_cleanup (bind_endstop env entry objs).
Proof.
  intros [n data] objs. unfold bind_endstop, get_motor_controller.
  repeat emits_step.
Qed.

Lemma bind_endstops_spares : forall entries objs,
    emits_only no_cleanup (bind_endstops env entries objs).
Proof.
  induction entries as [| entry rest IH]; intros objs; simpl.
  - apply emits_only_ret.
  - apply emits_only_seq; [apply bind_endstop_spares | intros; apply IH].
Qed.

Lemma switch_on_light_spares : forall n,
    emits_only no_cleanup (switch_on_light env n).
Proof.
  intros n. unfold switch_on_light. repeat emits_step.
Qed.

Lemma finish_initialize_spares : forall config camera_objects endstop_objects,
    emits_only no_cleanup
      (finish_initialize env config camera_objects endstop_objects).
Proof.
  intros. unfold finish_initialize.
  apply emits_only_seq;
    [apply emits_only_for_each, init_light_controller_spares | intros _].
  apply emits_only_seq; [emits_step | intros lit].
  apply emits_only_seq;
    [apply emits_only_for_each, switch_on_light_spares | intros _].
  repeat emits_step.
Qed.

(** With no camera controller registered, detection removes nothing. *)
Lemma detect_cameras_on_empty_registry : forall st,
    camera_controllers st = [] ->
    _detect_cameras env st = (probe_cameras env, st, []).
Proof.
  intros st H. unfold _detect_cameras, seq, read. rewrite H. reflexivity.
Qed.

Lemma build_cameras_and_motors_spares : forall config detect st,
    camera_controllers st = [] ->
    Forall no_cleanup
           (events_of (build_cameras_and_motors env config detect) st).
Proof.
  intros config detect st Hempty. unfold build_cameras_and_motors.
  rewrite events_of_seq.
  assert (Hfirst :
    forall (m : action (dict Camera)),
      m = (if detect || is_empty (section_dict (cfg_cameras config))
           then _detect_cameras env
           else ret (cameras_from_config env
                       (section_dict (cfg_cameras config)) [])) ->
      events_of m st = [] /\ store_after m st = st).
  { intros m ->.
    destruct (detect || is_empty (section_dict (cfg_cameras config))).
    - unfold events_of, store_after.
      rewrite detect_cameras_on_empty_registry by assumption. auto.
    - auto. }
  destruct (Hfirst _ eq_refl) as [Hev Hst]. rewrite Hev, Hst. simpl.
  apply (emits_only_seq no_cleanup).
  - apply emits_only_for_each, init_camera_controller_spares.
  - intros _. apply emits_only_seq.
    + apply emits_only_for_each, init_motor_controller_spares.
    + intros _. apply emits_only_ret.
Qed.

End BuildFacts.

(* ================================================================== *)
(** * Teardown: the order of the design document, and the code's *)
(* ================================================================== *)

Section TeardownFacts.
Variable env : Env.

Lemma in_close_endstop_events : forall e n,
    In e (close_endstop_events env n) ->
    e = Cleanup EndstopK n \/ e = Caught EndstopK n.
Proof.
  intros e n. unfold close_endstop_events, attempt.
  destruct (cleanup_raises env EndstopK n); simpl; intuition.
Qed.

Lemma in_close_camera_events : forall e n,
    In e (close_camera_events env n) ->
    e = Cleanup CameraK n \/ e = Caught CameraK n.
Proof.
  intros e n. unfold close_camera_events, attempt.
  destruct (cleanup_raises env CameraK n); simpl; intuition.
Qed.

Lemma in_switch_off_events : forall e n,
    In e (switch_off_events env n) -> e = TurnOff n \/ e = Caught LightK n.
Proof.
  intros e n. unfold switch_off_events, attempt.
  destruct (turn_off_raises env n); simpl; intuition.
Qed.

Lemma endstop_cleanups_of_cameras : forall l,
    filter is_endstop_cleanup (flat_map (close_camera_events env) l) = [].
Proof.
  induction l as [| n l IH]; [reflexivity|].
  simpl. rewrite filter_app, IH.
  unfold close_camera_events, attempt.
  destruct (cleanup_raises env CameraK n); reflexivity.
Qed.

Lemma endstop_cleanups_of_lights : forall l,
    filter is_endstop_cleanup (flat_map (switch_off_events env) l) = [].
Proof.
  induction l as [| n l IH]; [reflexivity|].
  simpl. rewrite filter_app, IH.
  unfold switch_off_events, attempt.
  destruct (turn_off_raises env n); reflexivity.
Qed.

Lemma endstop_cleanups_of_endstops : forall l,
    filter is_endstop_cleanup (flat_map (close_endstop_events env) l)
    = map (Cleanup EndstopK) l.
Proof.
  induction l as [| n l IH]; [reflexivity|].
  simpl. rewrite filter_app, IH.
  unfold close_endstop_events, attempt.
  destruct (cleanup_raises env EndstopK n); reflexivity.
Qed.

Lemma teardown_creates_nothing : forall st,
    Forall (fun e => is_create e = false) (events_of (reinit_teardown env) st).
Proof.
  intros st. unfold events_of. rewrite reinit_teardown_run. simpl.
  apply Forall_forall. intros e He.
  repeat (apply in_app_or in He; destruct He as [He | He]).
  - apply in_map_iff in He. destruct He as [n [<- _]]. reflexivity.
  - apply in_map_iff in He. destruct He as [n [<- _]]. reflexivity.
  - apply in_map_iff in He. destruct He as [n [<- _]]. reflexivity.
  - apply in_flat_map in He. destruct He as [n [_ He]].
    destruct (in_close_endstop_events _ _ He) as [-> | ->]; reflexivity.
  - destruct He as [<- | []]. reflexivity.
Qed.

Lemma teardown_covers : forall st,
    let pre := events_of (reinit_teardown env) st in
    (forall n, In n (keys (motor_controllers st)) -> In (Cleanup MotorK n) pre) /\
    (forall n, In n (keys (light_controllers st)) -> In (Cleanup LightK n) pre) /\
    (forall n, In n (keys (camera_controllers st)) -> In (Cleanup CameraK n) pre) /\
    (forall n, In n (keys (endstop_controllers st)) ->
               In (Cleanup EndstopK n) pre).
Proof.
  intros st pre. subst pre. unfold events_of. rewrite reinit_teardown_run.
  simpl. repeat split; intros n Hn.
  - apply in_or_app. left. apply in_map. exact Hn.
  - apply in_or_app. right. apply in_or_app. left. apply in_map. exact Hn.
  - do 2 (apply in_or_app; right). apply in_or_app. left.
    apply in_map. exact Hn.
  - do 3 (apply in_or_app; right). apply in_or_app. left.
    apply in_flat_map. exists n. split; [exact Hn|].
    unfold close_endstop_events, attempt. left. reflexivity.
Qed.

(** When the device is initialized, [initialize] is the teardown followed
    by the rebuild from the emptied store. *)
Lemma initialize_when_ready : forall config detect st,
    initialized (scanner_device st) = true ->
    events_of (initialize env config detect) st =
    events_of (reinit_teardown env) st
    ++ events_of
         (camera_objects <- build_cameras_and_motors env config detect ;;
          endstop_objects <-
            bind_endstops env (section_dict (cfg_endstops config)) [] ;;
          finish_initialize env config camera_objects endstop_objects)
         (emptied st).
Proof.
  intros config detect st Hready. unfold initialize.
  rewrite events_of_seq.
  change (value_of (read scanner_device) st) with (scanner_device st).
  change (store_after (read scanner_device) st) with st.
  rewrite Hready. rewrite events_of_seq.
  assert (Hst : store_after (reinit_teardown env) st = emptied st).
  { unfold store_after. rewrite reinit_teardown_run. reflexivity. }
  rewrite Hst. reflexivity.
Qed.

Lemma rebuild_spares : forall config detect st,
    camera_controllers st = [] ->
    Forall (fun e => is_cleanup e = false)
      (events_of
         (camera_objects <- build_cameras_and_motors env config detect ;;
          endstop_objects <-
            bind_endstops env (section_dict (cfg_endstops config)) [] ;;
          finish_initialize env config camera_objects endstop_objects)
         st).
Proof.
  intros config detect st Hempty. rewrite events_of_seq.
  apply Forall_app. split.
  - apply build_cameras_and_motors_spares. exact Hempty.
  - apply emits_only_seq.
    + apply bind_endstops_spares.
    + intros objs. apply finish_initialize_spares.
Qed.

End TeardownFacts.

(** C1 (the claim as stated fails).  On the bench, [cleanup_and_exit]
    closes the camera before the endstop and never cleans up a motor, and
    the teardown at the head of [initialize] removes the motors before it
    stops the endstops: neither follows the documented order. *)
Lemma teardown_not_in_documented_order :
  in_documented_order (events_of (cleanup_and_exit (bench_env [])) bench_store)
    = false /\
  in_documented_order (events_of (reinit_teardown (bench_env [])) bench_store)
    = false /\
  events_of (cleanup_and_exit (bench_env [])) bench_store
    = [ Cleanup CameraK "cam"; Cleanup EndstopK "home"; TurnOff "ring";
        CleanupAllPins ] /\
  keys (motor_controllers bench_store) = [ "rotor"; "turntable" ].
Proof. repeat split; vm_compute; reflexivity. Qed.

(** C1 (amended).  [cleanup_and_exit] closes every camera controller,
    then stops and pops every endstop controller, then turns every light
    off, then releases the pins; each of these calls is guarded, and an
    error is logged right after a call that raised.  The teardown at the
    head of [initialize] on an initialized device removes every motor
    controller, then every light controller, then every camera controller,
    then stops and pops every endstop controller, then releases the pins. *)
Theorem teardown_orders :
  forall env st,
    events_of (cleanup_and_exit env) st =
      flat_map (close_camera_events env) (keys (camera_controllers st))
      ++ flat_map (close_endstop_events env) (keys (endstop_controllers st))
      ++ flat_map (switch_off_events env) (keys (light_controllers st))
      ++ [CleanupAllPins] /\
    events_of (reinit_teardown env) st =
      map (Cleanup MotorK) (keys (motor_controllers st))
      ++ map (Cleanup LightK) (keys (light_controllers st))
      ++ map (Cleanup CameraK) (keys (camera_controllers st))
      ++ flat_map (close_endstop_events env) (keys (endstop_controllers st))
      ++ [CleanupAllPins] /\
    (forall config detect,
        initialized (scanner_device st) = true ->
        exists rebuild,
          events_of (initialize env config detect) st =
          events_of (reinit_teardown env) st ++ rebuild).
Proof.
  intros env st. split; [|split].
  - unfold events_of. rewrite cleanup_and_exit_run. reflexivity.
  - unfold events_of. rewrite reinit_teardown_run. reflexivity.
  - intros config detect Hready. eexists.
    apply initialize_when_ready. exact Hready.
Qed.

Lemma teardown_orders_witness :
  exists rebuild,
    events_of (initialize (bench_env []) bench_config false) bench_store =
    [ Cleanup MotorK "rotor"; Cleanup MotorK "turntable";
      Cleanup LightK "ring"; Cleanup CameraK "cam";
      Cleanup EndstopK "home"; CleanupAllPins ] ++ rebuild.
Proof.
  destruct (teardown_orders (bench_env []) bench_store) as [_ [_ H]].
  destruct (H bench_config false) as [rebuild Hr]; [reflexivity|].
  exists rebuild. exact Hr.
Defined.

(** C2 (the claim as stated fails).  On the bench, the second of two
    successive calls of [cleanup_and_exit] closes the camera again and
    turns the light off again. *)
Lemma second_cleanup_repeats_calls :
  filter is_controller_action
    (events_of (cleanup_and_exit (bench_env []))
       (store_after (cleanup_and_exit (bench_env [])) bench_store))
  = [ Cleanup CameraK "cam"; TurnOff "ring" ].
Proof. vm_compute. reflexivity. Qed.

(** C2 (amended).  The first call leaves the endstop registry empty, so
    the second call makes no call on any endstop controller: over the two
    calls the endstop cleanups are one per registered endstop controller,
    in registry order.  The second call closes again every camera
    controller that is registered, turns off again every light that is
    registered, and releases the pins again. *)
Theorem second_cleanup_skips_endstops :
  forall env st,
    let st1 := store_after (cleanup_and_exit env) st in
    let first := events_of (cleanup_and_exit env) st in
    let second := events_of (cleanup_and_exit env) st1 in
    endstop_controllers st1 = [] /\
    second =
      flat_map (close_camera_events env) (keys (camera_controllers st))
      ++ flat_map (switch_off_events env) (keys (light_controllers st))
      ++ [CleanupAllPins] /\
    (forall n, ~ In (Cleanup EndstopK n) second) /\
    filter is_endstop_cleanup (first ++ second)
      = map (Cleanup EndstopK) (keys (endstop_controllers st)).
Proof.
  intros env st st1 first second.
  assert (Hst1 : st1 = set_endstop_controllers [] st).
  { subst st1. unfold store_after. rewrite cleanup_and_exit_run. reflexivity. }
  assert (Hev : second =
      flat_map (close_camera_events env) (keys (camera_controllers st))
      ++ flat_map (switch_off_events env) (keys (light_controllers st))
      ++ [CleanupAllPins]).
  { subst second. unfold events_of.
    rewrite cleanup_and_exit_run, Hst1. reflexivity. }
  split; [rewrite Hst1; reflexivity|]. split; [exact Hev|]. split.
  - intros n Hin. rewrite Hev in Hin.
    repeat (apply in_app_or in Hin; destruct Hin as [Hin | Hin]).
    + apply in_flat_map in Hin. destruct Hin as [c [_ Hin]].
      destruct (in_close_camera_events _ _ _ Hin); discriminate.
    + apply in_flat_map in Hin. destruct Hin as [c [_ Hin]].
      destruct (in_switch_off_events _ _ _ Hin); discriminate.
    + destruct Hin as [Hin | []]. discriminate.
  - rewrite Hev. subst first. unfold events_of.
    rewrite cleanup_and_exit_run. cbv beta iota delta [snd].
    rewrite !filter_app.
    rewrite !endstop_cleanups_of_cameras, !endstop_cleanups_of_lights,
      endstop_cleanups_of_endstops.
    simpl. rewrite !app_nil_r. reflexivity.
Qed.

(** C3.  When [initialize] runs on an initialized device, its events are
    the teardown followed by the rebuild: the teardown cleans up every
    motor, light, camera and endstop controller that existed at the call
    and constructs nothing, it leaves the four registries empty, and the
    rebuild that follows cleans up nothing. *)
Theorem reinitialize_destroys_before_creating :
  forall env config detect st,
    initialized (scanner_device st) = true ->
    exists pre post,
      events_of (initialize env config detect) st = pre ++ post /\
      (forall n, In n (keys (motor_controllers st)) ->
                 In (Cleanup MotorK n) pre) /\
      (forall n, In n (keys (light_controllers st)) ->
                 In (Cleanup LightK n) pre) /\
      (forall n, In n (keys (camera_controllers st)) ->
                 In (Cleanup CameraK n) pre) /\
      (forall n, In n (keys (endstop_controllers st)) ->
                 In (Cleanup EndstopK n) pre) /\
      Forall (fun e => is_create e = false) pre /\
      Forall (fun e => is_cleanup e = false) post /\
      store_after (reinit_teardown env) st = emptied st.
Proof.
  intros env config detect st Hready.
  eexists. eexists. split; [apply initialize_when_ready; exact Hready|].
  destruct (teardown_covers env st) as [Hm [Hl [Hc He]]].
  repeat split; try assumption.
  - apply teardown_creates_nothing.
  - apply rebuild_spares. reflexivity.
  - unfold store_after. rewrite reinit_teardown_run. reflexivity.
Qed.

Lemma reinitialize_destroys_before_creating_witness :
  exists pre post,
    events_of (initialize (bench_env []) bench_config false) bench_store
      = pre ++ post /\
    In (Cleanup MotorK "rotor") pre /\
    In (Cleanup EndstopK "home") pre /\
    Forall (fun e => is_create e = false) pre /\
    Forall (fun e => is_cleanup e = false) post.
Proof.
  destruct (reinitialize_destroys_before_creating
              (bench_env []) bench_config false bench_store)
    as [pre [post [Hev [Hm [_ [_ [He [Hpre [Hpost _]]]]]]]]];
    [reflexivity|].
  exists pre, post. repeat split; try assumption.
  - apply Hm. vm_compute. auto.
  - apply He. vm_compute. auto.
Defined.

(* ================================================================== *)
(** * The device snapshot *)
(* ================================================================== *)

Section SnapshotFacts.
Context {C : Type}.
Variable get_status : C -> result string.

Lemma collect_status_succeeds : forall (controllers : dict C) acc,
    status_ok get_status controllers = true ->
    exists out,
      collect_status get_status controllers acc = Ok out /\
      (forall n, In n (keys out) <->
                 In n (keys acc) \/ In n (keys controllers)) /\
      (forall n s, dict_get out n = Some s ->
                   dict_get acc n = Some s \/
                   exists c, In (n, c) controllers /\ get_status c = Ok s).
Proof.
  induction controllers as [| [k c] rest IH]; intros acc Hok; simpl.
  - exists acc. split; [reflexivity|]. split.
    + intros n. simpl. tauto.
    + intros n s H. left. exact H.
  - simpl in Hok. apply andb_true_iff in Hok. destruct Hok as [Hc Hrest].
    destruct (get_status c) as [s0 |] eqn:Es; [|discriminate]. simpl.
    destruct (IH (dict_set acc k s0) Hrest) as [out [Hrun [Hkeys Hvals]]].
    exists out. split; [exact Hrun|]. split.
    + intros n. rewrite Hkeys, keys_dict_set. simpl. intuition.
    + intros n s Hget. destruct (Hvals n s Hget) as [Hacc | [c' [Hin Hs]]].
      * rewrite dict_get_set in Hacc.
        destruct (String.eqb k n) eqn:Ekn.
        -- apply String.eqb_eq in Ekn. subst n. injection Hacc as <-.
           right. exists c. split; [left; reflexivity | exact Es].
        -- left. exact Hacc.
      * right. exists c'. split; [right; exact Hin | exact Hs].
Qed.

Lemma collect_status_raises : forall (controllers : dict C) acc,
    status_ok get_status controllers = false ->
    exists e, collect_status get_status controllers acc = Raise e.
Proof.
  induction controllers as [| [k c] rest IH]; intros acc Hbad; simpl.
  - discriminate.
  - simpl in Hbad. destruct (get_status c) as [s0 | e] eqn:Es; simpl.
    + apply IH. exact Hbad.
    + exists e. reflexivity.
Qed.

(** The comprehension raises what the first failing query raises. *)
Lemma collect_status_first_failure : forall (controllers : dict C) acc e,
    first_failure get_status controllers = Some e ->
    collect_status get_status controllers acc = Raise e.
Proof.
  induction controllers as [| [k c] rest IH]; intros acc e Hfirst; simpl in *.
  - discriminate.
  - destruct (get_status c) as [s0 | e0]; simpl.
    + apply IH. exact Hfirst.
    + congruence.
Qed.

Lemma first_failure_none : forall (controllers : dict C),
    status_ok get_status controllers = true ->
    first_failure get_status controllers = None.
Proof.
  induction controllers as [| [k c] rest IH]; intros Hok; simpl in *.
  - reflexivity.
  - destruct (get_status c); simpl in Hok; [exact (IH Hok) | discriminate].
Qed.

Lemma first_failure_some : forall (controllers : dict C),
    status_ok get_status controllers = false ->
    exists e n c,
      first_failure get_status controllers = Some e /\
      In (n, c) controllers /\ get_status c = Raise e.
Proof.
  induction controllers as [| [k c] rest IH]; intros Hbad; simpl in *.
  - discriminate.
  - destruct (get_status c) as [s0 | e0] eqn:Es; simpl in Hbad.
    + destruct (IH Hbad) as [e [n [c' [Hf [Hin Hc]]]]].
      exists e, n, c'. auto.
    + exists e0, k, c. auto.
Qed.

Lemma collect_status_snapshot : forall (controllers : dict C),
    status_ok get_status controllers = true ->
    exists snap,
      collect_status get_status controllers [] = Ok snap /\
      snapshot_of get_status controllers snap.
Proof.
  intros controllers Hok.
  destruct (collect_status_succeeds controllers [] Hok)
    as [out [Hrun [Hkeys Hvals]]].
  exists out. split; [exact Hrun|]. split.
  - intros n. rewrite Hkeys. simpl. tauto.
  - intros n s Hget. destruct (Hvals n s Hget) as [Habs | H];
      [discriminate | exact H].
Qed.

End SnapshotFacts.

(** C4 (the claim as stated fails).  In a store that [initialize] has
    produced, with a camera whose [get_status] raises, [get_device_info]
    raises the same exception. *)
Lemma get_device_info_can_raise :
  reachable faulty_status_env faulty_store /\
  get_device_info faulty_status_env faulty_store
    = Raise (RuntimeError "camera busy").
Proof.
  split.
  - apply reachable_initialize, reachable_initial.
  - vm_compute. reflexivity.
Qed.

(** C4 (amended).  In every store, when every registered camera, motor
    and light controller answers its status query, [get_device_info]
    returns a snapshot with the device's name, model, shield and
    [initialized] flag and one status per registered controller.  When
    some status query raises, [get_device_info] raises that exception:
    the one of the first query that raises, the cameras being asked
    first, then the motors, then the lights, each in the order of their
    registry; and it raises nothing else. *)
Theorem get_device_info_snapshot :
  forall env st,
    (all_status_ok env st = true ->
     exists info,
       get_device_info env st = Ok info /\
       info_name info = name (scanner_device st) /\
       info_model info = model (scanner_device st) /\
       info_shield info = shield (scanner_device st) /\
       info_initialized info = initialized (scanner_device st) /\
       snapshot_of (camera_status env) (camera_controllers st)
                   (info_cameras info) /\
       snapshot_of (motor_status env) (motor_controllers st)
                   (info_motors info) /\
       snapshot_of (light_status env) (light_controllers st)
                   (info_lights info)) /\
    (all_status_ok env st = false ->
     exists e,
       first_status_failure env st = Some e /\
       get_device_info env st = Raise e) /\
    (forall e,
        get_device_info env st = Raise e ->
        first_status_failure env st = Some e).
Proof.
  intros env st.
  assert (Hraises : all_status_ok env st = false ->
            exists e,
              first_status_failure env st = Some e /\
              get_device_info env st = Raise e).
  { unfold all_status_ok, first_status_failure, get_device_info.
    intros Hbad.
    destruct (status_ok (camera_status env) (camera_controllers st)) eqn:Hc.
    - destruct (collect_status_snapshot _ _ Hc) as [cams [Ec _]].
      rewrite Ec, (first_failure_none _ _ Hc). simpl.
      destruct (status_ok (motor_status env) (motor_controllers st)) eqn:Hm.
      + destruct (collect_status_snapshot _ _ Hm) as [mots [Em _]].
        rewrite Em, (first_failure_none _ _ Hm). simpl. simpl in Hbad.
        destruct (first_failure_some _ _ Hbad) as [e [n [c [Hf _]]]].
        exists e. rewrite Hf, (collect_status_first_failure _ _ [] e Hf).
        split; reflexivity.
      + destruct (first_failure_some _ _ Hm) as [e [n [c [Hf _]]]].
        exists e. rewrite Hf, (collect_status_first_failure _ _ [] e Hf).
        split; reflexivity.
    - destruct (first_failure_some _ _ Hc) as [e [n [c [Hf _]]]].
      exists e. rewrite Hf, (collect_status_first_failure _ _ [] e Hf).
      split; reflexivity. }
  assert (Hreturns : all_status_ok env st = true ->
            exists info,
              get_device_info env st = Ok info /\
              info_name info = name (scanner_device st) /\
              info_model info = model (scanner_device st) /\
              info_shield info = shield (scanner_device st) /\
              info_initialized info = initialized (scanner_device st) /\
              snapshot_of (camera_status env) (camera_controllers st)
                          (info_cameras info) /\
              snapshot_of (motor_status env) (motor_controllers st)
                          (info_motors info) /\
              snapshot_of (light_status env) (light_controllers st)
                          (info_lights info)).
  { unfold all_status_ok, get_device_info.
    intros Hall. apply andb_true_iff in Hall. destruct Hall as [Hall Hl].
    apply andb_true_iff in Hall. destruct Hall as [Hc Hm].
    destruct (collect_status_snapshot _ _ Hc) as [cams [Ec Sc]].
    destruct (collect_status_snapshot _ _ Hm) as [mots [Em Sm]].
    destruct (collect_status_snapshot _ _ Hl) as [lits [El Sl]].
    rewrite Ec, Em, El. simpl.
    eexists. split; [reflexivity|]. simpl. auto 10. }
  split; [exact Hreturns | split; [exact Hraises|]].
  intros e He.
  destruct (all_status_ok env st) eqn:Hall.
  - destruct (Hreturns eq_refl) as [info [Hrun _]]. congruence.
  - destruct (Hraises eq_refl) as [e' [Hfirst Hrun]]. congruence.
Qed.

Lemma get_device_info_snapshot_witness :
  (exists info,
      get_device_info (bench_env []) bench_store = Ok info /\
      info_name info = "scanner" /\
      info_initialized info = true) /\
  first_status_failure faulty_status_env faulty_store
    = Some (RuntimeError "camera busy").
Proof.
  destruct (get_device_info_snapshot (bench_env []) bench_store)
    as [H _].
  destruct (get_device_info_snapshot faulty_status_env faulty_store)
    as [_ [Hbad _]].
  split.
  - destruct H as [info [Hrun [Hname [_ [_ [Hinit _]]]]]]; [reflexivity|].
    exists info. split; [exact Hrun|]. split.
    + rewrite Hname. reflexivity.
    + rewrite Hinit. reflexivity.
  - destruct Hbad as [e [Hfirst _]]; [reflexivity|].
    rewrite Hfirst. vm_compute in Hfirst. symmetry. exact Hfirst.
Defined.

(* ================================================================== *)
(** * Binding endstops to motors *)
(* ================================================================== *)

Section BindingFacts.
Variable env : Env.

Lemma emits_only_weaken : forall (P Q : event -> Prop) {A} (m : action A),
    (forall e, P e -> Q e) -> emits_only P m -> emits_only Q m.
Proof.
  intros P Q A m HPQ Hm st. eapply Forall_impl; [exact HPQ | apply Hm].
Qed.

Let not_binding (e : event) : Prop := is_binding e = false.

Lemma reinit_teardown_binds_nothing :
  emits_only not_binding (reinit_teardown env).
Proof.
  unfold reinit_teardown, remove_motor_controller, remove_light_controller,
    remove_camera_controller, close_endstop, pop_endstop_controller.
  repeat emits_step.
Qed.

Lemma build_cameras_and_motors_binds_nothing : forall config detect,
    emits_only not_binding (build_cameras_and_motors env config detect).
Proof.
  intros. unfold build_cameras_and_motors, _detect_cameras,
    remove_camera_controller, init_camera_controller, init_motor_controller,
    create_camera_controller, create_motor_controller.
  repeat emits_step.
Qed.

Lemma before_endstops_binds_nothing : forall config detect,
    emits_only not_binding (before_endstops env config detect).
Proof.
  intros. unfold before_endstops.
  apply emits_only_seq; [emits_step | intros dev].
  apply emits_only_seq.
  - destruct (initialized dev);
      [apply reinit_teardown_binds_nothing | apply emits_only_ret].
  - intros _. apply build_cameras_and_motors_binds_nothing.
Qed.

Lemma finish_initialize_binds_nothing : forall config cams objs,
    emits_only not_binding (finish_initialize env config cams objs).
Proof.
  intros. unfold finish_initialize, init_light_controller,
    create_light_controller, switch_on_light.
  repeat emits_step.
Qed.

Lemma build_cameras_and_motors_keeps_endstops : forall config detect,
    preserves endstop_controllers
              (build_cameras_and_motors env config detect).
Proof.
  intros. unfold build_cameras_and_motors, _detect_cameras,
    remove_camera_controller, init_camera_controller, init_motor_controller,
    create_camera_controller, create_motor_controller.
  repeat preserves_step.
Qed.

Lemma bind_endstop_keeps_motors : forall entry objs,
    preserves motor_controllers (bind_endstop env entry objs).
Proof.
  intros [n data] objs. unfold bind_endstop, get_motor_controller.
  repeat preserves_step.
Qed.

Lemma bind_endstops_keeps_motors : forall entries objs,
    preserves motor_controllers (bind_endstops env entries objs).
Proof.
  induction entries as [| entry rest IH]; intros objs; simpl.
  - apply preserves_ret.
  - apply preserves_seq; [apply bind_endstop_keeps_motors | intros; apply IH].
Qed.

(** The three stages of [initialize]. *)
Lemma initialize_stages : forall config detect st,
    initialize env config detect st =
    let '(camera_objects, s1, e1) := before_endstops env config detect st in
    let '(endstop_objects, s2, e2) :=
      bind_endstops env (section_dict (cfg_endstops config)) [] s1 in
    let '(u, s3, e3) :=
      finish_initialize env config camera_objects endstop_objects s2 in
    (u, s3, e1 ++ e2 ++ e3).
Proof.
  intros config detect st. unfold initialize, before_endstops.
  unfold seq, read. cbv beta iota.
  destruct ((if initialized (scanner_device st)
             then reinit_teardown env else ret tt) st) as [[u0 s0] e0].
  destruct (build_cameras_and_motors env config detect s0) as [[co s1] e1].
  destruct (bind_endstops env (section_dict (cfg_endstops config)) [] s1)
    as [[eo s2] e2].
  destruct (finish_initialize env config co eo s2) as [[u s3] e3].
  simpl. rewrite <- app_assoc. reflexivity.
Qed.

(** An endstop whose motor name resolves to no motor controller: the
    round only logs. *)
Lemma bind_endstop_unresolved : forall n raw objs st,
    dict_get (motor_controllers st)
             (motor_name (_load_endstop_config env raw)) = None ->
    bind_endstop env (n, EndstopEntry raw) objs st =
    (objs, st, [Caught EndstopK n]).
Proof.
  intros n raw objs st Hnone.
  unfold bind_endstop, get_motor_controller, seq, read, ret, emit.
  rewrite Hnone. reflexivity.
Qed.

(** One round either only logs, or registers the endstop under its own
    name and emits events about that name only. *)
Lemma bind_endstop_cases : forall k data objs st,
    exists o s e,
      bind_endstop env (k, data) objs st = (o, s, e) /\
      ((o = objs /\ s = st /\ e = [Caught EndstopK k]) \/
       (exists endstop controller,
           o = dict_set objs k endstop /\
           s = set_endstop_controllers
                 (dict_set (endstop_controllers st) k controller) st /\
           (forall e', In e' e ->
                       e' = Create EndstopK k \/ e' = StartListener k \/
                       e' = Caught EndstopK k))).
Proof.
  intros k data objs st.
  unfold bind_endstop, get_motor_controller, try_log, call,
    seq, read, update, ret, emit.
  destruct data as [| raw].
  - do 3 eexists. split; [reflexivity|]. left. auto.
  - destruct (dict_get (motor_controllers st)
                       (motor_name (_load_endstop_config env raw))).
    + destruct (endstop_ctor_raises env _).
      * do 3 eexists. split; [reflexivity|]. left. auto.
      * destruct (start_listener_raises env k);
          (do 3 eexists; split; [reflexivity|]; right;
           do 2 eexists; split; [reflexivity|]; split; [reflexivity|];
           simpl; intuition).
    + do 3 eexists. split; [reflexivity|]. left. auto.
Qed.

Lemma bind_endstops_cons : forall entry rest objs,
    bind_endstops env (entry :: rest) objs =
    (o <- bind_endstop env entry objs ;; bind_endstops env rest o).
Proof. reflexivity. Qed.

(** The loop registers, and emits binding events for, names of its
    entries only. *)
Lemma bind_endstops_names : forall entries objs st,
    exists o s e,
      bind_endstops env entries objs st = (o, s, e) /\
      (forall n, In n (keys o) -> In n (keys objs) \/ In n (keys entries)) /\
      (forall n, In n (keys (endstop_controllers s)) ->
                 In n (keys (endstop_controllers st)) \/ In n (keys entries)) /\
      (forall n, In (Create EndstopK n) e \/ In (StartListener n) e ->
                 In n (keys entries)).
Proof.
  induction entries as [| [k data] rest IH]; intros objs st.
  - simpl. unfold ret. do 3 eexists. split; [reflexivity|].
    simpl. intuition.
  - rewrite bind_endstops_cons. unfold seq.
    destruct (bind_endstop_cases k data objs st) as [o1 [s1 [e1 [Hrun Hcase]]]].
    rewrite Hrun.
    destruct (IH o1 s1) as [o [s [e [Hrest [Ho [Hs He]]]]]].
    rewrite Hrest. do 3 eexists. split; [reflexivity|].
    destruct Hcase as [[-> [-> ->]] | [endstop [ctrl [-> [-> Hshape]]]]].
    + repeat split.
      * intros n Hn. destruct (Ho n Hn); simpl; auto.
      * intros n Hn. destruct (Hs n Hn); simpl; auto.
      * intros n [Hn | Hn]; simpl in Hn;
          (destruct Hn as [Hn | Hn]; [discriminate|]);
          right; apply He; auto.
    + repeat split.
      * intros n Hn. destruct (Ho n Hn) as [H | H]; simpl; auto.
        apply keys_dict_set in H. destruct H as [-> | H]; auto.
      * intros n Hn. destruct (Hs n Hn) as [H | H]; simpl; auto.
        simpl in H. apply keys_dict_set in H. destruct H as [-> | H]; auto.
      * intros n [Hn | Hn]; apply in_app_or in Hn;
          (destruct Hn as [Hn | Hn];
           [ destruct (Hshape _ Hn) as [Heq | [Heq | Heq]];
             inversion Heq; simpl; auto
           | right; apply He; auto ]).
Qed.

Lemma bind_endstops_app : forall l1 l2 objs st,
    bind_endstops env (l1 ++ l2) objs st =
    let '(o1, s1, e1) := bind_endstops env l1 objs st in
    let '(o2, s2, e2) := bind_endstops env l2 o1 s1 in
    (o2, s2, e1 ++ e2).
Proof.
  induction l1 as [| entry l1 IH]; intros l2 objs st.
  - simpl. unfold ret.
    destruct (bind_endstops env l2 objs st) as [[o2 s2] e2]. reflexivity.
  - simpl. unfold seq.
    destruct (bind_endstop env entry objs st) as [[o0 s0] e0].
    rewrite IH.
    destruct (bind_endstops env l1 o0 s0) as [[o1 s1] e1].
    destruct (bind_endstops env l2 o1 s1) as [[o2 s2] e2].
    rewrite app_assoc. reflexivity.
Qed.

(** Skipping one unresolved entry in the middle of the loop: the result
    and the store are those of the loop without the entry, and the only
    additional event is the log entry. *)
Lemma bind_endstops_skip : forall before n raw after objs st,
    dict_get (motor_controllers st)
             (motor_name (_load_endstop_config env raw)) = None ->
    exists o s e1 e2,
      bind_endstops env (before ++ after) objs st = (o, s, e1 ++ e2) /\
      bind_endstops env (before ++ (n, EndstopEntry raw) :: after) objs st =
      (o, s, e1 ++ Caught EndstopK n :: e2).
Proof.
  intros before n raw after objs st Hnone.
  rewrite !bind_endstops_app.
  pose proof (bind_endstops_keeps_motors before objs st) as Hkeep.
  unfold store_after in Hkeep.
  destruct (bind_endstops env before objs st) as [[o1 s1] e1].
  simpl in Hkeep.
  rewrite bind_endstops_cons. unfold seq.
  rewrite bind_endstop_unresolved by (rewrite Hkeep; exact Hnone).
  destruct (bind_endstops env after o1 s1) as [[o2 s2] e2].
  exists o2, s2, e1, e2. split; reflexivity.
Qed.

(** [initialize] ends with the device marked initialized and holding the
    endstop descriptors that the loop returned. *)
Lemma finish_initialize_device : forall config cams objs st,
    initialized
      (scanner_device (store_after (finish_initialize env config cams objs) st))
      = true /\
    endstops
      (scanner_device (store_after (finish_initialize env config cams objs) st))
      = objs.
Proof.
  intros. unfold finish_initialize.
  rewrite !store_after_seq. split; reflexivity.
Qed.

Lemma finish_initialize_keeps_endstop_controllers : forall config cams objs,
    preserves endstop_controllers (finish_initialize env config cams objs).
Proof.
  intros. unfold finish_initialize, init_light_controller,
    create_light_controller, switch_on_light.
  repeat preserves_step.
Qed.

Lemma initialize_marks_initialized : forall config detect st,
    initialized (scanner_device (store_after (initialize env config detect) st))
    = true.
Proof.
  intros. unfold store_after. rewrite initialize_stages.
  destruct (before_endstops env config detect st) as [[co s1] e1].
  destruct (bind_endstops env _ [] s1) as [[eo s2] e2].
  pose proof (finish_initialize_device config co eo s2) as [H _].
  unfold store_after in H.
  destruct (finish_initialize env config co eo s2) as [[u s3] e3].
  exact H.
Qed.

(** In a reachable store, endstop controllers exist only once the device
    has been initialized. *)
Lemma reachable_endstops : forall st,
    reachable env st ->
    initialized (scanner_device st) = false ->
    endstop_controllers st = [].
Proof.
  intros st Hreach.
  induction Hreach as [| st config detect _ _ | st _ IH | st c m l _ IH].
  - reflexivity.
  - rewrite initialize_marks_initialized. discriminate.
  - intros _. unfold store_after. rewrite cleanup_and_exit_run. reflexivity.
  - exact IH.
Qed.

(** At binding time no endstop controller is registered. *)
Lemma no_endstop_before_binding : forall config detect st,
    reachable env st ->
    endstop_controllers (store_after (before_endstops env config detect) st)
    = [].
Proof.
  intros config detect st Hreach. unfold before_endstops.
  rewrite store_after_seq.
  change (value_of (read scanner_device) st) with (scanner_device st).
  change (store_after (read scanner_device) st) with st.
  rewrite store_after_seq, build_cameras_and_motors_keeps_endstops.
  destruct (initialized (scanner_device st)) eqn:Hinit.
  - unfold store_after. rewrite reinit_teardown_run. reflexivity.
  - apply reachable_endstops; assumption.
Qed.

End BindingFacts.

(* ================================================================== *)
(** * [initialize], returning or raising *)
(* ================================================================== *)

Section OutcomeFacts.
Variable env : Env.
Variable faults : Faults.

Lemma and_then_run : forall {A B} (m : action (result A))
    (k : A -> action (result B)) st,
    and_then m k st =
    match m st with
    | (Ok a, s1, e1) => let '(r, s2, e2) := k a s1 in (r, s2, e1 ++ e2)
    | (Raise e, s1, e1) => (Raise e, s1, e1)
    end.
Proof.
  intros A B m k st. unfold and_then, seq.
  destruct (m st) as [[[a | e] s1] e1]; [reflexivity|].
  unfold ret. rewrite app_nil_r. reflexivity.
Qed.

Lemma seq_assoc_run : forall {A B C} (m : action A) (f : A -> action B)
    (g : B -> action C) st,
    seq (seq m f) g st = seq m (fun x => seq (f x) g) st.
Proof.
  intros A B C m f g st. unfold seq.
  destruct (m st) as [[a s1] e1].
  destruct (f a s1) as [[b s2] e2].
  destruct (g b s2) as [[c s3] e3].
  rewrite app_assoc. reflexivity.
Qed.

(** ** Where the run returns, it is the run of [initialize] *)

Lemma agrees_ret : forall {A} (a : A), agrees (ret (Ok a)) (ret a).
Proof. intros A a st a' s e H. injection H as <- <- <-. reflexivity. Qed.

Lemma agrees_and_then : forall {A B} (m' : action (result A)) (m : action A)
    (k' : A -> action (result B)) (k : A -> action B),
    agrees m' m -> (forall a, agrees (k' a) (k a)) ->
    agrees (and_then m' k') (seq m k).
Proof.
  intros A B m' m k' k Hm Hk st b s e Hrun.
  rewrite and_then_run in Hrun.
  destruct (m' st) as [[[a | x] s1] e1] eqn:Em; [|discriminate].
  apply Hm in Em.
  destruct (k' a s1) as [[r s2] e2] eqn:Ek.
  injection Hrun as -> -> <-. apply Hk in Ek.
  unfold seq. rewrite Em, Ek. reflexivity.
Qed.

Lemma agrees_seq : forall {A B} (m : action A)
    (k' : A -> action (result B)) (k : A -> action B),
    (forall a, agrees (k' a) (k a)) ->
    agrees (seq m k') (seq m k).
Proof.
  intros A B m k' k Hk st b s e Hrun. unfold seq in *.
  destruct (m st) as [[a s1] e1].
  destruct (k' a s1) as [[r s2] e2] eqn:Ek.
  injection Hrun as -> -> <-. rewrite (Hk _ _ _ _ _ Ek). reflexivity.
Qed.

Lemma agrees_ext : forall {A} (m' : action (result A)) (m1 m2 : action A),
    (forall st, m2 st = m1 st) -> agrees m' m1 -> agrees m' m2.
Proof. intros A m' m1 m2 Hext H st a s e Hrun. rewrite Hext. eauto. Qed.

(** A block that may raise, against the same block inlined in what
    follows it. *)
Lemma agrees_block : forall {A B} (blk' : action (result A)) (blk : action A)
    (k' : A -> action (result B)) (k : A -> action B) (m : action B),
    agrees blk' blk ->
    (forall st, m st = seq blk k st) ->
    (forall a, agrees (k' a) (k a)) ->
    agrees (and_then blk' k') m.
Proof.
  intros A B blk' blk k' k m Hblk Hm Hk.
  apply (agrees_ext _ (seq blk k)); [exact Hm|].
  apply agrees_and_then; assumption.
Qed.

Lemma unguarded_returns : forall s st a s1 e1,
    unguarded faults s st = (Ok a, s1, e1) -> s1 = st /\ e1 = [].
Proof.
  intros s st a s1 e1 H. unfold unguarded, ret in H.
  injection H as _ <- <-. split; reflexivity.
Qed.

Lemma unguarded_loop_returns : forall sites st a s1 e1,
    for_each_or_raise sites (unguarded faults) st = (Ok a, s1, e1) ->
    s1 = st /\ e1 = [].
Proof.
  induction sites as [| s rest IH]; intros st a s1 e1 H.
  - injection H as _ <- <-. split; reflexivity.
  - cbn [for_each_or_raise] in H. rewrite and_then_run in H.
    destruct (unguarded faults s st) as [[[u | x] s0] e0] eqn:E;
      [|discriminate].
    apply unguarded_returns in E. destruct E as [-> ->].
    destruct (for_each_or_raise rest (unguarded faults) st)
      as [[r s2] e2] eqn:Erest.
    injection H as -> -> <-.
    apply IH in Erest. destruct Erest as [-> ->]. split; reflexivity.
Qed.

(** Calls that only return or raise, and leave no trace when they
    return. *)
Lemma agrees_skip : forall {A B} (m0 : action (result A))
    (k' : A -> action (result B)) (m : action B),
    (forall st a s1 e1, m0 st = (Ok a, s1, e1) -> s1 = st /\ e1 = []) ->
    (forall a, agrees (k' a) m) ->
    agrees (and_then m0 k') m.
Proof.
  intros A B m0 k' m Hm0 Hk st b s e Hrun.
  rewrite and_then_run in Hrun.
  destruct (m0 st) as [[[a | x] s1] e1] eqn:E; [|discriminate].
  apply Hm0 in E. destruct E as [-> ->].
  destruct (k' a st) as [[r s2] e2] eqn:Ek.
  simpl in Hrun. injection Hrun as -> -> <-. exact (Hk _ _ _ _ _ Ek).
Qed.

Lemma agrees_for_each : forall {A} (l : list A)
    (body' : A -> action (result unit)) (body : A -> action unit),
    (forall x, agrees (body' x) (body x)) ->
    agrees (for_each_or_raise l body') (for_each l body).
Proof.
  intros A l body' body Hbody.
  induction l as [| x l IH]; cbn [for_each_or_raise for_each].
  - intros st a s e H. injection H as _ <- <-. destruct a. reflexivity.
  - intros st a s e H. rewrite and_then_run in H.
    destruct (body' x st) as [[[u | y] s1] e1] eqn:E; [|discriminate].
    apply Hbody in E.
    destruct (for_each_or_raise l body' s1) as [[r s2] e2] eqn:El.
    injection H as -> -> <-. apply IH in El.
    unfold seq. destruct u. rewrite E, El. reflexivity.
Qed.

(** A last call outside the [try] blocks, after its event. *)
Lemma agrees_last_call : forall ev s,
    agrees (seq (emit ev) (fun _ => unguarded faults s)) (emit ev).
Proof.
  intros ev s st a s1 e1 H. unfold seq, emit, unguarded, ret in *.
  destruct (raises_at faults s); [discriminate|].
  injection H as <- <- <-. reflexivity.
Qed.

Lemma agrees_remove_motor : forall n,
    agrees (remove_controller_outcome faults MotorK motor_controllers
                                      set_motor_controllers n)
           (remove_motor_controller n).
Proof.
  intros n st a s e H.
  unfold remove_controller_outcome, remove_motor_controller,
    seq, read, emit, update, ret in *.
  destruct (dict_mem (motor_controllers st) n).
  - destruct (raises_at faults (RemoveController MotorK n)).
    + destruct (discards_on_failure faults); discriminate.
    + injection H as <- <- <-. reflexivity.
  - injection H as <- <- <-. reflexivity.
Qed.

Lemma agrees_remove_light : forall n,
    agrees (remove_controller_outcome faults LightK light_controllers
                                      set_light_controllers n)
           (remove_light_controller n).
Proof.
  intros n st a s e H.
  unfold remove_controller_outcome, remove_light_controller,
    seq, read, emit, update, ret in *.
  destruct (dict_mem (light_controllers st) n).
  - destruct (raises_at faults (RemoveController LightK n)).
    + destruct (discards_on_failure faults); discriminate.
    + injection H as <- <- <-. reflexivity.
  - injection H as <- <- <-. reflexivity.
Qed.

Lemma agrees_remove_camera : forall n,
    agrees (remove_controller_outcome faults CameraK camera_controllers
                                      set_camera_controllers n)
           (remove_camera_controller n).
Proof.
  intros n st a s e H.
  unfold remove_controller_outcome, remove_camera_controller,
    seq, read, emit, update, ret in *.
  destruct (dict_mem (camera_controllers st) n).
  - destruct (raises_at faults (RemoveController CameraK n)).
    + destruct (discards_on_failure faults); discriminate.
    + injection H as <- <- <-. reflexivity.
  - injection H as <- <- <-. reflexivity.
Qed.

Lemma agrees_remove_all : forall {C} (k : kind) (registry : Store -> dict C)
    (set_registry : dict C -> Store -> Store) (remove : string -> action unit),
    (forall n, agrees (remove_controller_outcome faults k registry
                                                 set_registry n)
                      (remove n)) ->
    agrees (remove_all_outcome faults k registry set_registry)
           (seq (read registry) (fun cs => for_each (keys cs) remove)).
Proof.
  intros C k registry set_registry remove Hremove.
  unfold remove_all_outcome.
  apply agrees_skip; [apply unguarded_returns|]. intros _.
  apply agrees_seq. intros cs. apply agrees_for_each. exact Hremove.
Qed.

Lemma agrees_reinit_teardown :
    agrees (reinit_teardown_outcome env faults) (reinit_teardown env).
Proof.
  unfold reinit_teardown_outcome, reinit_teardown.
  eapply agrees_block;
    [apply (agrees_remove_all MotorK _ _ _ agrees_remove_motor)
    |intros st; symmetry; apply seq_assoc_run|intros ?; cbv beta].
  eapply agrees_block;
    [apply (agrees_remove_all LightK _ _ _ agrees_remove_light)
    |intros st; symmetry; apply seq_assoc_run|intros ?; cbv beta].
  eapply agrees_block;
    [apply (agrees_remove_all CameraK _ _ _ agrees_remove_camera)
    |intros st; symmetry; apply seq_assoc_run|intros ?; cbv beta].
  apply agrees_seq. intros es. apply agrees_seq. intros _.
  apply agrees_last_call.
Qed.

Lemma agrees_detect_cameras :
    agrees (_detect_cameras_outcome env faults) (_detect_cameras env).
Proof.
  unfold _detect_cameras_outcome, _detect_cameras.
  eapply agrees_block;
    [apply (agrees_remove_all CameraK _ _ _ agrees_remove_camera)
    |intros st; symmetry; apply seq_assoc_run|intros ?; cbv beta].
  apply agrees_skip; [apply unguarded_returns|]. intros _.
  apply agrees_ret.
Qed.

Lemma agrees_before_endstops : forall config detect,
    agrees (before_endstops_outcome env faults config detect)
           (before_endstops env config detect).
Proof.
  intros config detect.
  unfold before_endstops_outcome, before_endstops, build_cameras_and_motors.
  apply agrees_skip; [apply unguarded_returns|]. intros _.
  apply agrees_seq. intros dev.
  apply (agrees_and_then
           (if initialized dev then reinit_teardown_outcome env faults
            else ret (Ok tt))
           (if initialized dev then reinit_teardown env else ret tt)).
  { destruct (initialized dev);
      [apply agrees_reinit_teardown | apply agrees_ret]. }
  intros _.
  apply agrees_and_then.
  { destruct (detect || is_empty (section_dict (cfg_cameras config))).
    - apply agrees_detect_cameras.
    - apply agrees_skip; [apply unguarded_loop_returns|]. intros _.
      apply agrees_ret. }
  intros camera_objects.
  apply agrees_skip; [apply unguarded_loop_returns|]. intros _.
  apply agrees_skip; [apply unguarded_loop_returns|]. intros _.
  apply agrees_skip; [apply unguarded_returns|]. intros _.
  apply agrees_skip; [apply unguarded_returns|]. intros _.
  apply agrees_seq. intros _. apply agrees_seq. intros _.
  apply agrees_ret.
Qed.

Lemma agrees_finish_initialize : forall config cams objs,
    agrees (finish_initialize_outcome env faults config cams objs)
           (finish_initialize env config cams objs).
Proof.
  intros config cams objs.
  unfold finish_initialize_outcome, finish_initialize.
  apply agrees_seq. intros _.
  apply agrees_skip; [apply unguarded_returns|]. intros _.
  apply agrees_seq. intros lit. apply agrees_seq. intros _.
  apply agrees_skip; [apply unguarded_returns|]. intros _.
  apply agrees_seq. intros current. apply agrees_seq. intros _.
  apply agrees_skip; [apply unguarded_returns|]. intros _.
  apply agrees_last_call.
Qed.

Lemma agrees_initialize : forall config detect,
    agrees (initialize_outcome env faults config detect)
           (initialize env config detect).
Proof.
  intros config detect st a s e Hrun.
  unfold initialize_outcome in Hrun. rewrite and_then_run in Hrun.
  destruct (before_endstops_outcome env faults config detect st)
    as [[[co | x] s1] e1] eqn:Epre; [|discriminate].
  apply agrees_before_endstops in Epre.
  rewrite initialize_stages, Epre.
  unfold seq in Hrun.
  destruct (bind_endstops env (section_dict (cfg_endstops config)) [] s1)
    as [[eo s2] e2].
  destruct (finish_initialize_outcome env faults config co eo s2)
    as [[r s3] e3] eqn:Efin.
  injection Hrun as -> -> <-.
  apply agrees_finish_initialize in Efin. rewrite Efin. reflexivity.
Qed.

(** ** What the run raises, a call outside the [try] blocks raised *)

Lemma raises_ret : forall {A} (a : A),
    raises_only_faults faults (ret (Ok a)).
Proof. intros A a st e H. discriminate. Qed.

Lemma raises_unguarded : forall s,
    raises_only_faults faults (unguarded faults s).
Proof.
  intros s st e H. unfold value_of, unguarded, ret in H. simpl in H.
  destruct (raises_at faults s) as [x |] eqn:E; [|discriminate].
  injection H as ->. exists s. exact E.
Qed.

Lemma raises_and_then : forall {A B} (m : action (result A))
    (k : A -> action (result B)),
    raises_only_faults faults m ->
    (forall a, raises_only_faults faults (k a)) ->
    raises_only_faults faults (and_then m k).
Proof.
  intros A B m k Hm Hk st e H. unfold value_of in H.
  rewrite and_then_run in H.
  destruct (m st) as [[[a | x] s1] e1] eqn:Em.
  - destruct (k a s1) as [[r s2] e2] eqn:Ek. simpl in H. subst r.
    apply (Hk a s1). unfold value_of. rewrite Ek. reflexivity.
  - simpl in H. injection H as ->.
    apply (Hm st). unfold value_of. rewrite Em. reflexivity.
Qed.

Lemma raises_seq : forall {A B} (m : action A) (k : A -> action (result B)),
    (forall a, raises_only_faults faults (k a)) ->
    raises_only_faults faults (seq m k).
Proof.
  intros A B m k Hk st e H. unfold value_of, seq in H.
  destruct (m st) as [[a s1] e1].
  destruct (k a s1) as [[r s2] e2] eqn:Ek. simpl in H. subst r.
  apply (Hk a s1). unfold value_of. rewrite Ek. reflexivity.
Qed.

Lemma raises_for_each : forall {A} (l : list A)
    (body : A -> action (result unit)),
    (forall x, raises_only_faults faults (body x)) ->
    raises_only_faults faults (for_each_or_raise l body).
Proof.
  intros A l body Hbody.
  induction l as [| x l IH]; cbn [for_each_or_raise].
  - apply raises_ret.
  - apply raises_and_then; [apply Hbody | intros _; exact IH].
Qed.

Lemma raises_remove : forall {C} (k : kind) (registry : Store -> dict C)
    (set_registry : dict C -> Store -> Store) n,
    raises_only_faults faults
      (remove_controller_outcome faults k registry set_registry n).
Proof.
  intros C k registry set_registry n st e H.
  unfold value_of, remove_controller_outcome, seq, read, emit, update, ret
    in H.
  destruct (dict_mem (registry st) n); [|discriminate].
  destruct (raises_at faults (RemoveController k n)) as [x |] eqn:E;
    [|discriminate].
  exists (RemoveController k n).
  destruct (discards_on_failure faults); simpl in H; congruence.
Qed.

Lemma raises_remove_all : forall {C} (k : kind) (registry : Store -> dict C)
    (set_registry : dict C -> Store -> Store),
    raises_only_faults faults
      (remove_all_outcome faults k registry set_registry).
Proof.
  intros. unfold remove_all_outcome.
  apply raises_and_then; [apply raises_unguarded | intros _].
  apply raises_seq. intros cs. apply raises_for_each. apply raises_remove.
Qed.

Lemma raises_initialize : forall config detect,
    raises_only_faults faults (initialize_outcome env faults config detect).
Proof.
  intros config detect.
  unfold initialize_outcome, before_endstops_outcome,
    finish_initialize_outcome, reinit_teardown_outcome,
    _detect_cameras_outcome.
  repeat first
    [ apply raises_ret
    | apply raises_unguarded
    | apply raises_remove_all
    | apply raises_for_each; intros ?
    | apply raises_and_then; [|intros ?]
    | apply raises_seq; intros ?
    | match goal with
      | |- raises_only_faults _ (if ?b then _ else _) => destruct b
      end ].
Qed.

(** ** An unresolved endstop makes no difference to the outcome *)

Lemma unresolved_endstop_outcome :
  forall config detect st before n raw after,
    cfg_endstops config = Entries (before ++ (n, EndstopEntry raw) :: after) ->
    dict_get
      (motor_controllers
         (store_after (before_endstops env config detect) st))
      (motor_name (_load_endstop_config env raw)) = None ->
    let run := initialize_outcome env faults config detect in
    let others :=
      initialize_outcome env faults
        (with_endstops config (Entries (before ++ after))) detect in
    value_of run st = value_of others st /\
    store_after run st = store_after others st /\
    hardware_calls (events_of run st) = hardware_calls (events_of others st).
Proof.
  intros config detect st before n raw after Hcfg Hnone run others.
  subst run others.
  unfold value_of, store_after, events_of, initialize_outcome in *.
  rewrite !and_then_run.
  change (before_endstops_outcome env faults (with_endstops config _) detect)
    with (before_endstops_outcome env faults config detect).
  destruct (before_endstops_outcome env faults config detect st)
    as [[[co | x] s1] e1] eqn:Epre; [|repeat split].
  apply agrees_before_endstops in Epre. rewrite Epre in Hnone.
  simpl in Hnone.
  rewrite Hcfg.
  change (section_dict
            (cfg_endstops (with_endstops config (Entries (before ++ after)))))
    with (before ++ after).
  change (section_dict (Entries (before ++ (n, EndstopEntry raw) :: after)))
    with (before ++ (n, EndstopEntry raw) :: after).
  destruct (bind_endstops_skip env before n raw after [] s1 Hnone)
    as [o [s [ea [eb [Hwithout Hwith]]]]].
  unfold seq. rewrite Hwith, Hwithout.
  change (finish_initialize_outcome env faults (with_endstops config _) co o)
    with (finish_initialize_outcome env faults config co o).
  destruct (finish_initialize_outcome env faults config co o s)
    as [[r s3] e3].
  simpl. split; [reflexivity | split; [reflexivity|]].
  unfold hardware_calls. rewrite !filter_app. simpl. reflexivity.
Qed.

End OutcomeFacts.

(** C5 (amended).  Take a store that the module was loaded with or that
    runs which returned have left, and a configuration whose endstop
    section holds, under a name [n] of its own, an entry whose motor name
    resolves to no motor controller when the endstop loop starts.  After
    the run of [initialize] in which every call outside a [try] block
    returns, [n] is neither in the endstop controller registry nor among
    the device's endstops, no controller was constructed and no listener
    started for [n], and the store and the hardware calls are those of
    the same configuration without the entry.  The entry raises nothing:
    whatever the calls outside the [try] blocks do, [initialize] ends as
    it does on the configuration without the entry, returning or raising
    the same with the same store and hardware calls.  [initialize]
    returns when none of those calls raises; what it raises, one of them
    raised; and where it returns, it is the run described first. *)
Theorem unresolved_endstop_is_skipped :
  forall env config detect st before n raw after,
    reachable env st ->
    cfg_endstops config = Entries (before ++ (n, EndstopEntry raw) :: after) ->
    NoDup (keys (before ++ (n, EndstopEntry raw) :: after)) ->
    dict_get
      (motor_controllers
         (store_after (before_endstops env config detect) st))
      (motor_name (_load_endstop_config env raw)) = None ->
    let run := initialize env config detect in
    let others :=
      initialize env (with_endstops config (Entries (before ++ after)))
                 detect in
    dict_get (endstop_controllers (store_after run st)) n = None /\
    dict_get (endstops (scanner_device (store_after run st))) n = None /\
    ~ In (Create EndstopK n) (events_of run st) /\
    ~ In (StartListener n) (events_of run st) /\
    store_after run st = store_after others st /\
    hardware_calls (events_of run st) = hardware_calls (events_of others st) /\
    (forall faults,
        let outcome := initialize_outcome env faults config detect in
        let outcome_of_others :=
          initialize_outcome env faults
            (with_endstops config (Entries (before ++ after))) detect in
        value_of outcome st = value_of outcome_of_others st /\
        store_after outcome st = store_after outcome_of_others st /\
        hardware_calls (events_of outcome st)
        = hardware_calls (events_of outcome_of_others st) /\
        ((forall s, raises_at faults s = None) ->
         value_of outcome st = Ok tt) /\
        (forall e, value_of outcome st = Raise e ->
                   exists s, raises_at faults s = Some e) /\
        (value_of outcome st = Ok tt ->
         store_after outcome st = store_after run st /\
         events_of outcome st = events_of run st)).
Proof.
  intros env config detect st before n raw after Hreach Hcfg Hnodup Hnone
         run others.
  subst run others.
  (* the run in which nothing raises first, then every run *)
  rewrite <- !and_assoc. split; [rewrite !and_assoc|].
  2: { intros faults outcome outcome_of_others.
       destruct (unresolved_endstop_outcome env faults config detect st
                   before n raw after Hcfg Hnone) as [Hvalue [Hstore Hcalls]].
       subst outcome outcome_of_others.
       split; [exact Hvalue | split; [exact Hstore | split; [exact Hcalls|]]].
       split; [|split].
       - intros Hcalm.
         destruct (value_of (initialize_outcome env faults config detect) st)
           as [[] | e] eqn:E; [reflexivity|].
         destruct (raises_initialize env faults config detect st e E)
           as [s Hs].
         rewrite Hcalm in Hs. discriminate.
       - intros e. apply raises_initialize.
       - intros Hret. unfold value_of, store_after, events_of in *.
         destruct (initialize_outcome env faults config detect st)
           as [[r s] e] eqn:E.
         simpl in Hret. subst r.
         apply agrees_initialize in E. rewrite E. split; reflexivity. }
  (* the entry's name occurs nowhere else *)
  assert (Hfresh : ~ In n (keys (before ++ after))).
  { unfold keys in *. rewrite map_app in *. simpl in Hnodup.
    exact (NoDup_remove_2 _ _ _ Hnodup). }
  (* the stage before the loop *)
  pose proof (no_endstop_before_binding env config detect st Hreach) as Hempty.
  pose proof (before_endstops_binds_nothing env config detect st) as Hpre.
  unfold store_after, events_of in *.
  rewrite !initialize_stages.
  change (before_endstops env (with_endstops config _) detect)
    with (before_endstops env config detect).
  destruct (before_endstops env config detect st) as [[co s1] e1].
  simpl in Hnone, Hempty, Hpre.
  (* the loop, with and without the entry *)
  rewrite Hcfg.
  change (section_dict
            (cfg_endstops (with_endstops config (Entries (before ++ after)))))
    with (before ++ after).
  change (section_dict (Entries (before ++ (n, EndstopEntry raw) :: after)))
    with (before ++ (n, EndstopEntry raw) :: after).
  destruct (bind_endstops_skip env before n raw after [] s1 Hnone)
    as [o [s [ea [eb [Hwithout Hwith]]]]].
  rewrite Hwith, Hwithout.
  destruct (bind_endstops_names env (before ++ after) [] s1)
    as [o' [s' [e' [Hrun [Ho [Hs He]]]]]].
  rewrite Hwithout in Hrun. injection Hrun as <- <- <-.
  rewrite Hempty in Hs.
  (* the stage after the loop *)
  change (finish_initialize env (with_endstops config _) co o)
    with (finish_initialize env config co o).
  pose proof (finish_initialize_device env config co o s) as [_ Hdev].
  pose proof (finish_initialize_keeps_endstop_controllers env config co o s)
    as Hkeep.
  pose proof (finish_initialize_binds_nothing env config co o s) as Hpost.
  unfold store_after, events_of in Hdev, Hkeep, Hpost.
  destruct (finish_initialize env config co o s) as [[u s3] e3].
  simpl in Hdev, Hkeep, Hpost. simpl.
  assert (Hquiet : forall e, is_binding e = true ->
                             In e (e1 ++ (ea ++ Caught EndstopK n :: eb) ++ e3) ->
                             In e (ea ++ eb)).
  { intros e Hb Hin.
    apply in_app_or in Hin. destruct Hin as [Hin | Hin].
    - rewrite Forall_forall in Hpre. rewrite (Hpre _ Hin) in Hb. discriminate.
    - apply in_app_or in Hin. destruct Hin as [Hin | Hin].
      + apply in_app_or in Hin. apply in_or_app.
        destruct Hin as [Hin | [<- | Hin]]; auto. discriminate.
      + rewrite Forall_forall in Hpost. rewrite (Hpost _ Hin) in Hb.
        discriminate. }
  repeat split.
  - apply dict_get_not_in_keys. rewrite Hkeep. intro Hin.
    destruct (Hs n Hin) as [[] | H]. exact (Hfresh H).
  - rewrite Hdev. apply dict_get_not_in_keys. intro Hin.
    destruct (Ho n Hin) as [[] | H]. exact (Hfresh H).
  - intro Hin. apply Hfresh, He. left. apply Hquiet; [reflexivity | exact Hin].
  - intro Hin. apply Hfresh, He. right. apply Hquiet; [reflexivity | exact Hin].
  - unfold hardware_calls. rewrite !filter_app. simpl. reflexivity.
Qed.

Lemma unresolved_endstop_is_skipped_witness :
  dict_get
    (endstop_controllers
       (store_after (initialize (bench_env []) bench_config false)
                    initial_store)) "lost" = None /\
  ~ In (StartListener "lost")
       (events_of (initialize (bench_env []) bench_config false)
                  initial_store) /\
  value_of (initialize_outcome (bench_env []) calm bench_config false)
           initial_store = Ok tt.
Proof.
  destruct (unresolved_endstop_is_skipped
              (bench_env []) bench_config false initial_store
              [ ("home", EndstopEntry (Some (mkEndstopConfig 4 0 "rotor"))) ]
              "lost" (Some (mkEndstopConfig 6 0 "gantry")) [])
    as [Hreg [_ [_ [Hlisten [_ [_ Houtcome]]]]]].
  - apply reachable_initial.
  - reflexivity.
  - repeat constructor; simpl; intuition discriminate.
  - vm_compute. reflexivity.
  - destruct (Houtcome calm) as [_ [_ [_ [Hreturns _]]]].
    split; [exact Hreg | split; [exact Hlisten|]].
    apply Hreturns. reflexivity.
Defined.

(** C5 (the claim as stated fails).  On the bench configuration, whose
    endstop ["lost"] names the motor ["gantry"] that has no controller,
    [initialize] raises when [schedule_device_status_broadcast()]
    does. *)
Lemma initialize_can_raise :
  dict_get (section_dict (cfg_endstops bench_config)) "lost"
  = Some (EndstopEntry (Some (mkEndstopConfig 6 0 "gantry"))) /\
  dict_get
    (motor_controllers
       (store_after (before_endstops (bench_env []) bench_config false)
                    initial_store)) "gantry" = None /\
  value_of (initialize_outcome (bench_env []) broadcast_fails bench_config
                               false) initial_store
  = Raise (RuntimeError "no event loop").
Proof. vm_compute. repeat split. Qed.

(** A run that raises leaves a store outside those that the runs which
    return leave: when [ScannerDevice(...)] raises in a first run, the
    endstop ["home"] stays registered while the device stays
    uninitialized, and a second run in which ["home"] names no motor
    finds no teardown to do and leaves the old controller in place. *)
Lemma stale_endstop_after_raise :
  let first :=
    initialize_outcome (bench_env []) device_rejected bench_config false in
  let second :=
    initialize (bench_env [])
      (with_endstops bench_config
         (Entries [ ("home",
                     EndstopEntry (Some (mkEndstopConfig 4 0 "gantry"))) ]))
      false in
  value_of first initial_store = Raise ValueError /\
  initialized (scanner_device (store_after first initial_store)) = false /\
  dict_mem
    (endstop_controllers
       (store_after second (store_after first initial_store))) "home" = true.
Proof. vm_compute. repeat split. Qed.

(* ================================================================== *)
(** * Naming detected cameras *)
(* ================================================================== *)

Section NamingFacts.

Lemma append_cancel_l : forall a b c : string,
    (a ++ b)%string = (a ++ c)%string -> b = c.
Proof.
  induction a as [| ch a IH]; intros b c H; simpl in H.
  - exact H.
  - injection H as H. exact (IH _ _ H).
Qed.

Lemma str_of_nat_inj : forall a b, str_of_nat a = str_of_nat b -> a = b.
Proof.
  intros a b H. unfold str_of_nat in H.
  apply (f_equal NilEmpty.uint_of_string) in H.
  rewrite !NilEmpty.usu in H. injection H as H.
  exact (DecimalNat.Unsigned.to_uint_inj _ _ H).
Qed.

Lemma candidate_inj : forall base a b,
    candidate base a = candidate base b -> a = b.
Proof.
  intros base a b H. unfold candidate in H.
  apply append_cancel_l in H. simpl in H. injection H as H.
  exact (str_of_nat_inj _ _ H).
Qed.

(** Among [length taken + 1] successive candidates one is free. *)
Lemma some_candidate_is_free : forall (taken : dict Camera) base start,
    exists j, (start <= j <= start + List.length taken)%nat /\
              dict_mem taken (candidate base j) = false.
Proof.
  intros taken base start.
  set (range := List.seq start (S (List.length taken))).
  destruct (existsb (fun j => negb (dict_mem taken (candidate base j))) range)
    eqn:E.
  - apply existsb_exists in E. destruct E as [j [Hin Hfree]].
    apply in_seq in Hin. exists j. split; [lia|].
    apply negb_true_iff. exact Hfree.
  - exfalso.
    assert (Hall : forall j, In j range ->
                             dict_mem taken (candidate base j) = true).
    { intros j Hj. destruct (dict_mem taken (candidate base j)) eqn:Ej;
        [reflexivity|].
      assert (existsb (fun j => negb (dict_mem taken (candidate base j))) range
              = true) as Habs.
      { apply existsb_exists. exists j. rewrite Ej. auto. }
      congruence. }
    assert (Hnd : NoDup (map (candidate base) range)).
    { apply Injective_map_NoDup.
      - intros a b. apply candidate_inj.
      - apply seq_NoDup. }
    assert (Hincl : incl (map (candidate base) range) (keys taken)).
    { intros name Hname. apply in_map_iff in Hname.
      destruct Hname as [j [<- Hj]]. apply dict_mem_in_keys, Hall, Hj. }
    pose proof (NoDup_incl_length Hnd Hincl) as Hlen.
    unfold keys, range in Hlen. rewrite !length_map, length_seq in Hlen. lia.
Qed.

Lemma scan_suffix_round : forall (taken : dict Camera) base suffix fuel,
    scan_suffix taken base suffix (S fuel) =
    if dict_mem taken (candidate base suffix)
    then scan_suffix taken base (S suffix) fuel
    else candidate base suffix.
Proof. reflexivity. Qed.

(** With a free candidate within its fuel, the loop returns the first
    free candidate from [suffix] upward. *)
Lemma scan_suffix_least : forall (taken : dict Camera) base fuel suffix,
    (exists j, (suffix <= j <= suffix + fuel)%nat /\
               dict_mem taken (candidate base j) = false) ->
    exists k,
      (suffix <= k)%nat /\
      scan_suffix taken base suffix fuel = candidate base k /\
      dict_mem taken (candidate base k) = false /\
      (forall j, (suffix <= j < k)%nat ->
                 dict_mem taken (candidate base j) = true).
Proof.
  intros taken base. induction fuel as [| fuel IH]; intros suffix [j [Hj Hfree]].
  - assert (j = suffix) by lia. subst j.
    exists suffix. repeat split; [lia | exact Hfree | intros; lia].
  - rewrite scan_suffix_round.
    destruct (dict_mem taken (candidate base suffix)) eqn:Ehere.
    + assert (Hne : j <> suffix) by (intros ->; congruence).
      destruct (IH (S suffix)) as [k [Hk [Hrun [Hfk Hmin]]]].
      { exists j. split; [lia | exact Hfree]. }
      exists k. repeat split; [lia | exact Hrun | exact Hfk |].
      intros i Hi. destruct (Nat.eq_dec i suffix) as [-> | Hi'];
        [exact Ehere | apply Hmin; lia].
    + exists suffix. repeat split; [lia | exact Ehere | intros; lia].
Qed.

End NamingFacts.

(* ================================================================== *)
(** * The admin token *)
(* ================================================================== *)

Section SecurityFacts.
Import Security.

Lemma lstrip_all_space : forall s, all_space s = true -> lstrip s = "".
Proof.
  induction s as [| c s IH]; simpl; [reflexivity|].
  intro H. apply andb_true_iff in H. destruct H as [Hc Hs].
  rewrite Hc. exact (IH Hs).
Qed.

Lemma strip_all_space : forall s, all_space s = true -> strip s = "".
Proof. intros s H. unfold strip. rewrite lstrip_all_space by exact H. reflexivity. Qed.

Lemma lstrip_head : forall s,
    lstrip s = "" \/ exists c rest, lstrip s = String c rest /\ is_space c = false.
Proof.
  induction s as [| c s IH]; simpl; [left; reflexivity|].
  destruct (is_space c) eqn:E; [exact IH|].
  right. exists c, s. split; [reflexivity | exact E].
Qed.

Lemma rstrip_head : forall c rest,
    is_space c = false -> exists kept, rstrip (String c rest) = String c kept.
Proof.
  intros c rest Hc. simpl. destruct (rstrip rest) as [| c' kept'].
  - rewrite Hc. eexists. reflexivity.
  - eexists. reflexivity.
Qed.

Lemma rstrip_cons : forall c rest,
    rstrip (String c rest) =
    match rstrip rest with
    | EmptyString => if is_space c then EmptyString else String c EmptyString
    | String c' kept => String c (String c' kept)
    end.
Proof. intros c rest. simpl. destruct (rstrip rest); reflexivity. Qed.

Lemma rstrip_idempotent : forall s, rstrip (rstrip s) = rstrip s.
Proof.
  induction s as [| c s IH]; [reflexivity|].
  rewrite rstrip_cons. destruct (rstrip s) as [| c' kept] eqn:E.
  - destruct (is_space c) eqn:Ec; [reflexivity|]. simpl. rewrite Ec. reflexivity.
  - rewrite rstrip_cons, IH. reflexivity.
Qed.

Lemma strip_idempotent : forall s, strip (strip s) = strip s.
Proof.
  intros s. unfold strip.
  destruct (lstrip_head s) as [-> | [c [rest [-> Hc]]]]; [reflexivity|].
  destruct (rstrip_head c rest Hc) as [kept Hk]. rewrite Hk.
  simpl lstrip. rewrite Hc. rewrite <- Hk. apply rstrip_idempotent.
Qed.

Lemma lower_app : forall a b, lower (a ++ b) = (lower a ++ lower b)%string.
Proof.
  induction a as [| c a IH]; intros b; simpl; [reflexivity|].
  rewrite IH. reflexivity.
Qed.

Lemma lower_length : forall s, String.length (lower s) = String.length s.
Proof. induction s as [| c s IH]; simpl; congruence. Qed.

Lemma prefix_app : forall a b, String.prefix a (a ++ b) = true.
Proof.
  induction a as [| c a IH]; intros b; simpl.
  - destruct b; reflexivity.
  - destruct (ascii_dec c c) as [_ | Hne]; [apply IH | congruence].
Qed.

Lemma drop_app : forall a b, drop (String.length a) (a ++ b) = b.
Proof. induction a as [| c a IH]; intros b; simpl; [reflexivity | apply IH]. Qed.

End SecurityFacts.

Section AdminFacts.
Import Security.

(** X1.  With a non-blank [OPENSCAN_ADMIN_TOKEN] configured,
    [require_admin] lets a request through exactly when the token it
    extracts from the request equals the configured token with its
    surrounding white space removed (and that token is ASCII); the
    [OPENSCAN_ALLOW_INSECURE_ADMIN] switch plays no part. *)
Theorem admin_token_decides :
  forall getenv request v,
    getenv ADMIN_TOKEN_ENV = Some v ->
    strip v <> "" ->
    (require_admin getenv request = Allowed <->
     _extract_request_token request = Some (strip v) /\
     is_ascii (strip v) = true).
Proof.
  intros getenv request v Henv Hnonblank.
  unfold require_admin, _get_admin_token. rewrite Henv.
  destruct (strip v) as [| c0 t0] eqn:Ev; [congruence|].
  destruct (_extract_request_token request) as [[| c p] |]; lazy beta iota.
  - split; [discriminate | intros [H _]; discriminate].
  - remember (String c0 t0) as tok eqn:Htok.
    remember (String c p) as provided eqn:Hprov.
    unfold compare_digest.
    destruct (is_ascii provided) eqn:Ea; destruct (is_ascii tok) eqn:Et;
      cbn [andb].
    + destruct (String.eqb provided tok) eqn:Ee.
      * apply String.eqb_eq in Ee. rewrite Ee.
        split; [intros _; split; reflexivity | reflexivity].
      * apply String.eqb_neq in Ee.
        split; [discriminate | intros [H _]; congruence].
    + split; [discriminate | intros [_ H]; discriminate].
    + split; [discriminate|]. intros [H Ht]. injection H as H.
      rewrite H in Ea. congruence.
    + split; [discriminate | intros [_ H]; discriminate].
  - split; [discriminate | intros [H _]; discriminate].
Qed.

Lemma admin_token_decides_witness :
  require_admin token_environ (request_with (Some "s3cret") None) = Allowed.
Proof.
  apply (admin_token_decides token_environ
           (request_with (Some "s3cret") None) " s3cret ").
  - reflexivity.
  - vm_compute. discriminate.
  - split; vm_compute; reflexivity.
Defined.

(** X2.  When [OPENSCAN_ADMIN_TOKEN] is unset, or set to white space
    only, [require_admin] does not look at the request: every request is
    let through when [OPENSCAN_ALLOW_INSECURE_ADMIN] is switched on, and
    every request gets status 503 otherwise. *)
Theorem blank_admin_token_is_no_token :
  forall getenv request,
    (getenv ADMIN_TOKEN_ENV = None \/
     exists v, getenv ADMIN_TOKEN_ENV = Some v /\ all_space v = true) ->
    require_admin getenv request =
    if _allow_insecure_admin getenv then Allowed else HTTPException 503.
Proof.
  intros getenv request [Hnone | [v [Hv Hblank]]];
    unfold require_admin, _get_admin_token.
  - rewrite Hnone. reflexivity.
  - rewrite Hv, strip_all_space by exact Hblank. reflexivity.
Qed.

Lemma blank_admin_token_is_no_token_witness :
  require_admin (fun key =>
                   if String.eqb key ADMIN_TOKEN_ENV then Some "  "
                   else None)
                (request_with (Some "s3cret") None)
  = HTTPException 503.
Proof.
  rewrite blank_admin_token_is_no_token.
  - reflexivity.
  - right. exists "  ". split; reflexivity.
Defined.

(** X3.  A non-empty [X-OpenScan-Token] header is the request's token,
    whatever the [Authorization] header carries: with a token configured,
    a request whose [X-OpenScan-Token] is white space only gets status 401
    even when its [Authorization] header holds the right bearer token. *)
Theorem token_header_shadows_bearer :
  forall getenv request v h,
    getenv ADMIN_TOKEN_ENV = Some v ->
    strip v <> "" ->
    headers_get request ADMIN_HEADER_NAME = Some h ->
    h <> "" ->
    _extract_request_token request = Some (strip h) /\
    (all_space h = true -> require_admin getenv request = HTTPException 401).
Proof.
  intros getenv request v h Henv Hnonblank Hh Hne.
  assert (Hx : _extract_request_token request = Some (strip h)).
  { unfold _extract_request_token. rewrite Hh.
    destruct h; [congruence | reflexivity]. }
  split; [exact Hx|].
  intros Hblank. unfold require_admin, _get_admin_token.
  rewrite Henv, Hx, (strip_all_space h Hblank).
  destruct (strip v); [congruence | reflexivity].
Qed.

Lemma token_header_shadows_bearer_witness :
  require_admin token_environ
                (request_with (Some " ") (Some "Bearer s3cret"))
  = HTTPException 401.
Proof.
  destruct (token_header_shadows_bearer token_environ
              (request_with (Some " ") (Some "Bearer s3cret"))
              " s3cret " " ") as [_ H].
  - reflexivity.
  - vm_compute. discriminate.
  - reflexivity.
  - discriminate.
  - apply H. reflexivity.
Defined.

(** X4.  Without an [X-OpenScan-Token] header, an [Authorization] header
    whose first seven characters read ["bearer "] in any letter case
    gives as token the rest of the header with its surrounding white
    space removed; removing the white space again changes nothing. *)
Theorem bearer_token_is_trimmed :
  forall request scheme rest,
    (headers_get request ADMIN_HEADER_NAME = None \/
     headers_get request ADMIN_HEADER_NAME = Some "") ->
    headers_get request "Authorization" = Some (scheme ++ rest)%string ->
    lower scheme = "bearer " ->
    _extract_request_token request = Some (strip rest) /\
    strip (strip rest) = strip rest.
Proof.
  intros request scheme rest Hx Hauth Hscheme.
  split; [|apply strip_idempotent].
  assert (Hlen : String.length scheme = 7%nat).
  { rewrite <- lower_length, Hscheme. reflexivity. }
  unfold _extract_request_token.
  assert (Hgo : (if String.prefix "bearer " (lower (scheme ++ rest))
                 then Some (strip (drop 7 (scheme ++ rest)))
                 else None) = Some (strip rest)).
  { rewrite lower_app, Hscheme, prefix_app.
    rewrite <- Hlen, drop_app. reflexivity. }
  destruct Hx as [-> | ->]; rewrite Hauth; exact Hgo.
Qed.

Lemma bearer_token_is_trimmed_witness :
  _extract_request_token (request_with None (Some "BeArEr  s3cret "))
  = Some "s3cret".
Proof.
  destruct (bearer_token_is_trimmed
              (request_with None (Some "BeArEr  s3cret "))
              "BeArEr " " s3cret ") as [H _].
  - left. reflexivity.
  - reflexivity.
  - reflexivity.
  - rewrite H. reflexivity.
Defined.

End AdminFacts.

(* ================================================================== *)
(** * Configuration file names *)
(* ================================================================== *)

Section FilenameFacts.
Import Security Router.

Lemma safe_char_is_not_space : forall c,
    is_safe_char c = true -> is_space c = false.
Proof.
  intros c. destruct c as [[] [] [] [] [] [] [] []]; vm_compute; congruence.
Qed.

Lemma line_feed_is_space : forall c, Ascii.eqb c "010" = true -> is_space c = true.
Proof. intros c H. apply Ascii.eqb_eq in H. subst c. reflexivity. Qed.

Lemma rstrip_ends_in_no_space : forall s, ends_in_space (rstrip s) = false.
Proof.
  induction s as [| c s IH]; [reflexivity|].
  rewrite rstrip_cons. destruct (rstrip s) as [| c' kept].
  - destruct (is_space c) eqn:E; [reflexivity | simpl; exact E].
  - exact IH.
Qed.

Lemma safe_tail_all_safe : forall s,
    ends_in_space s = false -> safe_tail s = true -> all_safe s = true.
Proof.
  induction s as [| c s IH]; [reflexivity|].
  destruct s as [| c' s'].
  - simpl. intros Hsp H. apply orb_true_iff in H. destruct H as [H | H].
    + rewrite H. reflexivity.
    + rewrite (line_feed_is_space _ H) in Hsp. discriminate.
  - intros Hsp H.
    change (is_safe_char c && safe_tail (String c' s') = true) in H.
    apply andb_true_iff in H. destruct H as [Hc Ht].
    change (is_safe_char c && all_safe (String c' s') = true).
    rewrite Hc. exact (IH Hsp Ht).
Qed.

Lemma all_safe_safe_tail : forall s, all_safe s = true -> safe_tail s = true.
Proof.
  induction s as [| c s IH]; [reflexivity|].
  intros H. simpl in H. apply andb_true_iff in H. destruct H as [Hc Hs].
  destruct s as [| c' s'].
  - simpl. rewrite Hc. reflexivity.
  - change (is_safe_char c && safe_tail (String c' s') = true).
    rewrite Hc. exact (IH Hs).
Qed.

Lemma rstrip_all_safe : forall s, all_safe s = true -> rstrip s = s.
Proof.
  induction s as [| c s IH]; [reflexivity|].
  intros H. simpl in H. apply andb_true_iff in H. destruct H as [Hc Hs].
  rewrite rstrip_cons, (IH Hs).
  destruct s; [|reflexivity].
  rewrite (safe_char_is_not_space _ Hc). reflexivity.
Qed.

Lemma strip_all_safe : forall s, all_safe s = true -> strip s = s.
Proof.
  intros s H. unfold strip.
  assert (Hl : lstrip s = s).
  { destruct s as [| c s]; [reflexivity|]. simpl in H |- *.
    apply andb_true_iff in H. destruct H as [Hc _].
    rewrite (safe_char_is_not_space _ Hc). reflexivity. }
  rewrite Hl. apply rstrip_all_safe. exact H.
Qed.

Lemma has_substring_cons : forall sub c s,
    has_substring sub (String c s) =
    String.prefix sub (String c s) || has_substring sub s.
Proof. reflexivity. Qed.

Lemma prefix_cons : forall a s1 b s2,
    String.prefix (String a s1) (String b s2) =
    if ascii_dec a b then String.prefix s1 s2 else false.
Proof. reflexivity. Qed.

Lemma all_safe_no_slash : forall s,
    all_safe s = true -> has_substring "/" s = false.
Proof.
  induction s as [| c s IH]; [reflexivity|].
  intros H. simpl in H. apply andb_true_iff in H. destruct H as [Hc Hs].
  rewrite has_substring_cons, (IH Hs), prefix_cons.
  destruct (ascii_dec "/" c) as [<- | _]; [discriminate Hc|].
  reflexivity.
Qed.

(** What the three tests of [_validate_config_filename] leave through. *)
Lemma accepted_name_facts : forall config_name accepted,
    _validate_config_filename config_name = Return accepted ->
    accepted = strip config_name /\
    _SAFE_CONFIG_NAME_match accepted = true /\
    all_safe accepted = true /\
    has_substring "/" accepted = false /\
    has_substring ".." accepted = false.
Proof.
  intros config_name accepted. unfold _validate_config_filename.
  pose proof (rstrip_ends_in_no_space (lstrip config_name)) as Hsp.
  fold (strip config_name) in Hsp.
  destruct (strip config_name) as [| c rest] eqn:Es; [discriminate|].
  destruct (_SAFE_CONFIG_NAME_match (String c rest)) eqn:Em; [|discriminate].
  cbn [negb].
  destruct (has_substring "/" (String c rest)
            || has_substring ".." (String c rest)) eqn:Esep; [discriminate|].
  intros H. injection H as <-.
  apply orb_false_iff in Esep. destruct Esep as [Hslash Hdots].
  repeat split; try assumption.
  pose proof Em as Hmatch. simpl in Hmatch.
  apply andb_true_iff in Hmatch. destruct Hmatch as [Hc Ht].
  change (is_safe_char c && all_safe rest = true). rewrite Hc.
  destruct rest as [| c' rest']; [reflexivity|].
  apply safe_tail_all_safe; [exact Hsp | exact Ht].
Qed.

(** X5.  A name that [_validate_config_filename] accepts is the trimmed
    argument; it is not empty, consists of letters, digits, [_], [.] and
    [-] only, holds no ["/"] and no [".."], and is accepted unchanged when
    it is validated again. *)
Theorem validated_filename_is_safe :
  forall config_name accepted,
    _validate_config_filename config_name = Return accepted ->
    accepted = strip config_name /\
    accepted <> "" /\
    all_safe accepted = true /\
    has_substring "/" accepted = false /\
    has_substring ".." accepted = false /\
    _validate_config_filename accepted = Return accepted.
Proof.
  intros config_name accepted Haccepted.
  destruct (accepted_name_facts _ _ Haccepted)
    as [Hstrip [Hmatch [Hsafe [Hslash Hdots]]]].
  assert (Hne : accepted <> "").
  { intros ->. discriminate Hmatch. }
  repeat split; try assumption.
  unfold _validate_config_filename. rewrite (strip_all_safe _ Hsafe).
  destruct accepted as [| c rest]; [contradiction|].
  rewrite Hmatch, Hslash, Hdots. reflexivity.
Qed.

Lemma validated_filename_is_safe_witness :
  _validate_config_filename " mini-v2.json " = Return "mini-v2.json" /\
  has_substring ".." "mini-v2.json" = false.
Proof.
  destruct (validated_filename_is_safe " mini-v2.json " "mini-v2.json")
    as [_ [_ [_ [_ [Hdots Hagain]]]]].
  - vm_compute. reflexivity.
  - split; [vm_compute; reflexivity | exact Hdots].
Defined.

End FilenameFacts.

Section ResolveFacts.
Import Security Router.
Variable fs : FileSystem.

Lemma upto_last_slash_empty : forall p,
    upto_last_slash p = "" <-> has_substring "/" p = false.
Proof.
  induction p as [| c p IH]; [simpl; tauto|].
  rewrite has_substring_cons, prefix_cons. simpl upto_last_slash.
  destruct (upto_last_slash p) as [| h hs] eqn:E.
  - destruct IH as [IH _]. rewrite (IH eq_refl), orb_false_r.
    destruct (ascii_dec "/" c) as [<- | Hne].
    + change (Ascii.eqb "/" "/") with true. cbv iota.
      assert (String.prefix "" p = true) as -> by (destruct p; reflexivity).
      split; intros H; discriminate H.
    + assert (Ascii.eqb c "/" = false) as ->
          by (apply Ascii.eqb_neq; congruence).
      destruct p; tauto.
  - assert (Hp : has_substring "/" p = true).
    { destruct (has_substring "/" p) eqn:H; [reflexivity|].
      destruct IH as [_ IH]. discriminate (IH eq_refl). }
    rewrite Hp, orb_true_r. split; discriminate.
Qed.

Lemma rstrip_slashes_empty : forall s,
    rstrip_slashes s = "" -> all_slashes s = true.
Proof.
  induction s as [| c s IH]; [reflexivity|].
  simpl. destruct (rstrip_slashes s) as [| k ks].
  - destruct (Ascii.eqb c "/"); [intros _; exact (IH eq_refl) | discriminate].
  - discriminate.
Qed.

Lemma dirname_empty : forall p,
    dirname p = "" <-> has_substring "/" p = false.
Proof.
  intros p. rewrite <- upto_last_slash_empty. unfold dirname.
  destruct (upto_last_slash p) as [| h hs] eqn:E; [tauto|].
  destruct (all_slashes (String h hs)) eqn:Ea.
  - tauto.
  - split; [|discriminate]. intros H.
    apply rstrip_slashes_empty in H. congruence.
Qed.

Lemma index_configs_listed : forall available cp cf cp' cf',
    index_configs fs available cp cf = (cp', cf') ->
    (forall n config,
        dict_get cf' n = Some config ->
        dict_get cf n = Some config \/
        (In config available /\ filename config = Some n)) /\
    (forall k,
        dict_mem cp' k = true ->
        dict_mem cp k = true \/
        exists config q,
          In config available /\ path config = Some q /\ resolve fs q = k).
Proof.
  induction available as [| config rest IH]; intros cp cf cp' cf' Hrun.
  - simpl in Hrun. injection Hrun as <- <-. split; auto.
  - simpl in Hrun. destruct (IH _ _ _ _ Hrun) as [Hf Hp]. split.
    + intros n found Hget. destruct (Hf n found Hget) as [Hin | [Hin Hname]].
      * destruct (filename config) as [[| c f] |] eqn:Efn; auto.
        rewrite dict_get_set in Hin.
        destruct (String.eqb (String c f) n) eqn:Ee; auto.
        apply String.eqb_eq in Ee. injection Hin as <-.
        right. split; [left; reflexivity | congruence].
      * right. split; [right; exact Hin | exact Hname].
    + intros k Hmem. destruct (Hp k Hmem) as [Hin | [found [q [Hin [Hq Hr]]]]].
      * destruct (path config) as [[| c q] |] eqn:Ep; auto.
        unfold dict_mem in Hin |- *. rewrite dict_get_set in Hin.
        destruct (String.eqb (resolve fs (String c q)) k) eqn:Ee.
        -- apply String.eqb_eq in Ee.
           right. exists config, (String c q).
           split; [left; reflexivity | split; [exact Ep | exact Ee]].
        -- left. exact Hin.
      * right. exists found, q.
        split; [right; exact Hin | split; assumption].
Qed.

Lemma first_listed_found : forall cf names p,
    first_listed cf names = Some p ->
    exists n config,
      In n names /\ dict_get cf n = Some config /\ path config = Some p.
Proof.
  induction names as [| n rest IH]; intros p H; [discriminate|].
  simpl in H. destruct (dict_get cf n) as [config |] eqn:Eg.
  - destruct (path config) as [[| c q] |] eqn:Ep.
    + destruct (IH p H) as [n' [c' [Hin Hrest]]]. exists n', c'. simpl. auto.
    + injection H as <-. exists n, config. simpl. auto.
    + destruct (IH p H) as [n' [c' [Hin Hrest]]]. exists n', c'. simpl. auto.
  - destruct (IH p H) as [n' [c' [Hin Hrest]]]. exists n', c'. simpl. auto.
Qed.

End ResolveFacts.

Section ResolveTheorem.
Import Security Router.

(** X6.  A path that [_resolve_config_path] returns belongs to a listed
    configuration.  For a value without ["/"] it is the stored path of a
    listed configuration whose file name is the validated value, or that
    value followed by [.json]; for a value with ["/"] it is the resolved
    value, and it equals the resolved path of a listed configuration. *)
Theorem resolved_path_is_listed :
  forall fs config_value available_configs p,
    _resolve_config_path fs config_value available_configs = Return p ->
    exists config,
      In config available_configs /\
      ((has_substring "/" config_value = false /\
        path config = Some p /\
        exists safe_name,
          _validate_config_filename config_value = Return safe_name /\
          (filename config = Some safe_name \/
           filename config = Some (safe_name ++ ".json")%string)) \/
       (has_substring "/" config_value = true /\
        p = expand_resolve fs config_value /\
        exists listed, path config = Some listed /\ resolve fs listed = p)).
Proof.
  intros fs config_value available p. unfold _resolve_config_path.
  destruct config_value as [| c0 v0] eqn:Ev; [discriminate|]. rewrite <- Ev.
  destruct (index_configs fs available [] []) as [cp cf] eqn:Ei.
  destruct (index_configs_listed fs _ _ _ _ _ Ei) as [Hfiles Hpaths].
  destruct (dirname config_value) as [| d ds] eqn:Ed.
  - apply dirname_empty in Ed.
    destruct (_validate_config_filename config_value) as [safe | sc dt] eqn:Eval;
      [|discriminate].
    set (names := if ends_with ".json" safe then [safe]
                  else if json_name_first fs
                       then [(safe ++ ".json")%string; safe]
                       else [safe; (safe ++ ".json")%string]).
    destruct (first_listed cf names) as [found |] eqn:Ef; [|discriminate].
    intros H. injection H as <-.
    destruct (first_listed_found _ _ _ Ef) as [n [config [Hn [Hget Hpath]]]].
    destruct (Hfiles n config Hget) as [Habs | [Hin Hname]]; [discriminate|].
    exists config. split; [exact Hin|]. left.
    split; [exact Ed|]. split; [exact Hpath|].
    exists safe. split; [reflexivity|].
    subst names.
    destruct (ends_with ".json" safe).
    + destruct Hn as [<- | []]. left. exact Hname.
    + destruct (json_name_first fs); simpl in Hn;
        destruct Hn as [<- | [<- | []]]; auto.
  - assert (Hslash : has_substring "/" config_value = true).
    { destruct (has_substring "/" config_value) eqn:E; [reflexivity|].
      apply dirname_empty in E. congruence. }
    destruct (dict_mem cp (expand_resolve fs config_value)) eqn:Em;
      [|discriminate].
    intros H. injection H as <-.
    destruct (Hpaths _ Em) as [Habs | [config [q [Hin [Hq Hr]]]]];
      [discriminate|].
    exists config. split; [exact Hin|]. right.
    split; [exact Hslash|]. split; [reflexivity|].
    exists q. auto.
Qed.

Lemma resolved_path_is_listed_witness :
  exists config,
    In config listed_configs /\
    path config = Some "/settings/device/classic.json".
Proof.
  destruct (resolved_path_is_listed plain_file_system "classic"
              listed_configs "/settings/device/classic.json")
    as [config [Hin [[_ [Hp _]] | [Habs _]]]].
  - vm_compute. reflexivity.
  - exists config. auto.
  - vm_compute in Habs. discriminate.
Defined.

End ResolveTheorem.

(* ================================================================== *)
(** * The device aggregate after [initialize], and the status endpoints *)
(* ================================================================== *)

Section AggregateFacts.
Variable env : Env.

Lemma reinit_teardown_keeps_device :
  preserves scanner_device (reinit_teardown env).
Proof.
  intros st. unfold store_after. rewrite reinit_teardown_run. reflexivity.
Qed.

Lemma build_cameras_and_motors_keeps_device : forall config detect,
    preserves scanner_device (build_cameras_and_motors env config detect).
Proof.
  intros. unfold build_cameras_and_motors, _detect_cameras,
    remove_camera_controller, init_camera_controller, init_motor_controller,
    create_camera_controller, create_motor_controller.
  repeat preserves_step.
Qed.

Lemma before_endstops_keeps_device : forall config detect,
    preserves scanner_device (before_endstops env config detect).
Proof.
  intros. unfold before_endstops.
  apply preserves_seq; [preserves_step | intros dev].
  apply preserves_seq.
  - destruct (initialized dev);
      [apply reinit_teardown_keeps_device | apply preserves_ret].
  - intros _. apply build_cameras_and_motors_keeps_device.
Qed.

Lemma bind_endstop_keeps_device : forall entry objs,
    preserves scanner_device (bind_endstop env entry objs).
Proof.
  intros [n data] objs. unfold bind_endstop, get_motor_controller.
  repeat preserves_step.
Qed.

Lemma bind_endstops_keeps_device : forall entries objs,
    preserves scanner_device (bind_endstops env entries objs).
Proof.
  induction entries as [| entry rest IH]; intros objs; simpl.
  - apply preserves_ret.
  - apply preserves_seq; [apply bind_endstop_keeps_device | intros; apply IH].
Qed.

Lemma light_loops_keep_device : forall light_objects,
    preserves scanner_device
      (for_each light_objects (init_light_controller env) ;;
       lit <- read light_controllers ;;
       for_each (keys lit) (switch_on_light env)).
Proof.
  intros. unfold init_light_controller, create_light_controller,
    switch_on_light.
  repeat preserves_step.
Qed.

(** The aggregate that [finish_initialize] installs. *)
Lemma finish_initialize_aggregate : forall config cams objs st,
    scanner_device (store_after (finish_initialize env config cams objs) st) =
    mkScannerDevice
      (match cfg_name config with
       | Some n => n
       | None => name (scanner_device st)
       end)
      (parse_enum (valid_scanner_model env) (cfg_model config))
      (parse_enum (valid_scanner_shield env) (cfg_shield config))
      cams
      (motors_from_config env (section_dict (cfg_motors config)) [])
      (lights_from_config env (section_dict (cfg_lights config)) [])
      objs true.
Proof.
  intros config cams objs st.
  pose proof (light_loops_keep_device
                (lights_from_config env (section_dict (cfg_lights config)) [])
                st) as Hkeep.
  unfold finish_initialize.
  rewrite store_after_seq in Hkeep. rewrite store_after_seq in Hkeep.
  rewrite !store_after_seq.
  change (value_of (read light_controllers) ?s) with (light_controllers s)
    in Hkeep.
  unfold value_of at 1. unfold read at 1.
  cbn [fst snd store_after update emit set_scanner_device scanner_device].
  unfold store_after at 1. unfold store_after at 1.
  cbn [fst snd update emit set_scanner_device scanner_device read value_of].
  f_equal. destruct (cfg_name config); [reflexivity|].
  f_equal. exact Hkeep.
Qed.

(** The aggregate that [initialize] installs: the motor and light
    descriptors are those of the configuration, whatever happened to the
    controllers. *)
Lemma initialize_aggregate : forall config detect st,
    exists camera_objects endstop_objects,
      scanner_device (store_after (initialize env config detect) st) =
      mkScannerDevice
        (match cfg_name config with
         | Some n => n
         | None => name (scanner_device st)
         end)
        (parse_enum (valid_scanner_model env) (cfg_model config))
        (parse_enum (valid_scanner_shield env) (cfg_shield config))
        camera_objects
        (motors_from_config env (section_dict (cfg_motors config)) [])
        (lights_from_config env (section_dict (cfg_lights config)) [])
        endstop_objects true.
Proof.
  intros config detect st.
  pose proof (before_endstops_keeps_device config detect st) as H1.
  unfold store_after in *. rewrite initialize_stages.
  destruct (before_endstops env config detect st) as [[co s1] e1].
  pose proof (bind_endstops_keeps_device
                (section_dict (cfg_endstops config)) [] s1) as H2.
  unfold store_after in H2.
  destruct (bind_endstops env _ [] s1) as [[eo s2] e2].
  pose proof (finish_initialize_aggregate config co eo s2) as H3.
  unfold store_after in H3.
  destruct (finish_initialize env config co eo s2) as [[u s3] e3].
  simpl in *. exists co, eo. rewrite H3, H2, H1. reflexivity.
Qed.

Lemma get_device_info_healthy : forall st,
    all_status_ok env st = true ->
    exists info,
      Device.get_device_info env st = Ok info /\
      info_model info = model (scanner_device st) /\
      info_shield info = shield (scanner_device st).
Proof.
  intros st Hall. unfold all_status_ok in Hall.
  apply andb_true_iff in Hall. destruct Hall as [Hall Hl].
  apply andb_true_iff in Hall. destruct Hall as [Hc Hm].
  destruct (collect_status_snapshot _ _ Hc) as [cams [Ec _]].
  destruct (collect_status_snapshot _ _ Hm) as [mots [Em _]].
  destruct (collect_status_snapshot _ _ Hl) as [lits [El _]].
  unfold Device.get_device_info. rewrite Ec, Em, El. simpl.
  eexists. split; [reflexivity|]. split; reflexivity.
Qed.

End AggregateFacts.

Section EndpointFacts.
Import Router.

(** X7.  [GET /device/info] answers 503 for a device without a model or
    without a shield, even when every controller answers its status
    query: so it does before the first [initialize], and after an
    [initialize] whose configuration names no valid model. *)
Theorem info_needs_model_and_shield :
  forall env schemas st,
    all_status_ok env st = true ->
    (model (scanner_device st) = None \/ shield (scanner_device st) = None) ->
    Router.get_device_info env schemas st = Refuse 503.
Proof.
  intros env schemas st Hok Hmissing.
  destruct (get_device_info_healthy env st Hok) as [info [Hrun [Hm Hs]]].
  unfold Router.get_device_info. rewrite Hrun.
  unfold model_validate. rewrite Hm, Hs.
  destruct Hmissing as [-> | ->]; [reflexivity|].
  destruct (model (scanner_device st)); reflexivity.
Qed.

Lemma info_needs_model_and_shield_witness :
  Router.get_device_info (bench_env []) any_status initial_store = Refuse 503 /\
  Router.get_device_info (bench_env []) any_status
    (store_after (initialize (bench_env []) modelless_config false)
                 initial_store)
  = Refuse 503.
Proof.
  split; apply info_needs_model_and_shield;
    solve [reflexivity | left; reflexivity].
Defined.

(** X8.  [POST /device/configurations/current/initialize] runs
    [initialize] first and validates the status afterwards: when the
    document names no valid model or no valid shield, the reply is
    status 500 although every controller answers, and the store is the
    one that [initialize] left, with the device marked initialized. *)
Theorem reinitialize_fails_after_initializing :
  forall env schemas dumped detect st,
    let st' := store_after (initialize env dumped detect) st in
    (parse_enum (valid_scanner_model env) (cfg_model dumped) = None \/
     parse_enum (valid_scanner_shield env) (cfg_shield dumped) = None) ->
    all_status_ok env st' = true ->
    reinitialize_hardware env schemas dumped detect st = (Refuse 500, st') /\
    initialized (scanner_device st') = true.
Proof.
  intros env schemas dumped detect st st' Hmissing Hok.
  destruct (initialize_aggregate env dumped detect st) as [co [eo Hagg]].
  fold st' in Hagg.
  destruct (get_device_info_healthy env st' Hok) as [info [Hrun [Hm Hs]]].
  split.
  - unfold reinitialize_hardware. fold st'. rewrite Hrun.
    unfold model_validate. rewrite Hm, Hs, Hagg. simpl.
    destruct Hmissing as [-> | ->]; [reflexivity|].
    destruct (parse_enum (valid_scanner_model env) (cfg_model dumped));
      reflexivity.
  - rewrite Hagg. reflexivity.
Qed.

Lemma reinitialize_fails_after_initializing_witness :
  fst (reinitialize_hardware (bench_env []) any_status modelless_config
                             false bench_store)
  = Refuse 500.
Proof.
  destruct (reinitialize_fails_after_initializing
              (bench_env []) any_status modelless_config false bench_store)
    as [H _].
  - left. reflexivity.
  - vm_compute. reflexivity.
  - rewrite H. reflexivity.
Defined.

End EndpointFacts.

(* ================================================================== *)
(** * What [cleanup_and_exit] and [initialize] leave behind *)
(* ================================================================== *)

(** X9.  [cleanup_and_exit] changes the endstop registry and nothing
    else: the camera, motor and light controllers it has closed or
    switched off stay registered, and the device aggregate, with its
    [initialized] flag and its endstop descriptors, is as before. *)
Theorem cleanup_and_exit_only_pops_endstops :
  forall env st,
    let st1 := store_after (cleanup_and_exit env) st in
    endstop_controllers st1 = [] /\
    camera_controllers st1 = camera_controllers st /\
    motor_controllers st1 = motor_controllers st /\
    light_controllers st1 = light_controllers st /\
    scanner_device st1 = scanner_device st.
Proof.
  intros env st st1. subst st1. unfold store_after.
  rewrite cleanup_and_exit_run. repeat split.
Qed.

Section BoundFacts.
Variable env : Env.

Lemma dict_mem_set : forall {V} (d : dict V) k v n,
    dict_mem (dict_set d k v) n = String.eqb k n || dict_mem d n.
Proof.
  intros V d k v n. unfold dict_mem. rewrite dict_get_set.
  destruct (String.eqb k n); reflexivity.
Qed.



Lemma finish_initialize_keeps_motors : forall config cams objs,
    preserves motor_controllers (finish_initialize env config cams objs).
Proof.
  intros. unfold finish_initialize, init_light_controller,
    create_light_controller, switch_on_light.
  repeat preserves_step.
Qed.

End BoundFacts.



(* ================================================================== *)
(** * Detection loses no camera *)
(* ================================================================== *)

Section DetectFacts.
Variable env : Env.

Lemma dict_set_absent : forall {V} (d : dict V) k v,
    dict_mem d k = false -> dict_set d k v = d ++ [(k, v)].
Proof.
  intros V d k v. unfold dict_mem.
  induction d as [| [k' v'] d IH]; simpl; intros H; [reflexivity|].
  destruct (String.eqb k' k); [discriminate|].
  rewrite IH by exact H. reflexivity.
Qed.

Lemma unique_camera_name_is_free : forall (found : dict Camera) base_name,
    dict_mem found (_unique_camera_name found base_name) = false.
Proof.
  intros found base_name. unfold _unique_camera_name.
  destruct (dict_mem found (name_or_default base_name)) eqn:E; cbn [negb].
  - destruct (scan_suffix_least found (name_or_default base_name)
                (S (List.length found)) 2) as [k [_ [-> [Hfree _]]]];
      [|exact Hfree].
    destruct (some_candidate_is_free found (name_or_default base_name) 2)
      as [j [Hj Hfree]].
    exists j. split; [lia | exact Hfree].
  - exact E.
Qed.

Lemma add_detected_appends : forall found ty base_name path settings,
    add_detected found ty base_name path settings =
    found ++ [(_unique_camera_name found base_name,
               mkCamera ty (_unique_camera_name found base_name)
                        path settings)].
Proof.
  intros. unfold add_detected.
  apply dict_set_absent, unique_camera_name_is_free.
Qed.

Lemma add_detected_well_named : forall found ty base_name path settings,
    well_named found ->
    well_named (add_detected found ty base_name path settings) /\
    List.length (add_detected found ty base_name path settings)
    = S (List.length found).
Proof.
  intros found ty base_name path settings [Hnd Hnames].
  rewrite add_detected_appends. split; [split|].
  - rewrite keys_app. simpl.
    apply NoDup_app; [exact Hnd | repeat constructor; intros [] |].
    intros n Hn [<- | []].
    apply in_keys_dict_mem in Hn.
    rewrite unique_camera_name_is_free in Hn. discriminate.
  - intros n cam Hin. apply in_app_or in Hin.
    destruct Hin as [Hin | [Heq | []]]; [exact (Hnames _ _ Hin)|].
    injection Heq as <- <-. reflexivity.
  - rewrite length_app. simpl. lia.
Qed.

Lemma detect_linuxpy_well_named : forall devices found,
    well_named found ->
    well_named (detect_linuxpy devices found) /\
    List.length (detect_linuxpy devices found)
    = (List.length found + accepted_linuxpy devices)%nat.
Proof.
  induction devices as [| cam rest IH]; intros found Hwn; simpl.
  - split; [exact Hwn | lia].
  - destruct (opens cam); [|split; [exact Hwn | lia]].
    destruct (is_isp_node (card cam)).
    + destruct (IH found Hwn) as [H1 H2]. split; [exact H1 | lia].
    + destruct (add_detected_well_named found LINUXPY (card cam)
                  (filename cam) None Hwn) as [Hwn' Hlen'].
      destruct (IH _ Hwn') as [H1 H2]. split; [exact H1 | lia].
Qed.

Lemma detect_gphoto2_well_named : forall detected found,
    well_named found ->
    well_named (detect_gphoto2 detected found) /\
    List.length (detect_gphoto2 detected found)
    = (List.length found + List.length detected)%nat.
Proof.
  induction detected as [| [model_name port] rest IH]; intros found Hwn; simpl.
  - split; [exact Hwn | lia].
  - destruct (add_detected_well_named found GPHOTO2 model_name port None Hwn)
      as [Hwn' Hlen'].
    destruct (IH _ Hwn') as [H1 H2]. split; [exact H1 | lia].
Qed.

Lemma probe_cameras_well_named :
    well_named (probe_cameras env) /\
    List.length (probe_cameras env) = accepted_devices env.
Proof.
  unfold probe_cameras, accepted_devices, detect_picamera2.
  assert (Hnil : well_named (@nil (string * Camera))).
  { split; [constructor | intros n cam []]. }
  set (after_linux := match iter_video_capture_devices env with
                      | Ok devices => detect_linuxpy devices []
                      | Raise _ => []
                      end).
  assert (Hlinux : well_named after_linux /\
                   List.length after_linux =
                   match iter_video_capture_devices env with
                   | Ok devices => accepted_linuxpy devices
                   | Raise _ => 0%nat
                   end).
  { subst after_linux. destruct (iter_video_capture_devices env).
    - exact (detect_linuxpy_well_named a [] Hnil).
    - split; [exact Hnil | reflexivity]. }
  destruct Hlinux as [Hwn1 Hlen1]. rewrite <- Hlen1. clearbody after_linux.
  set (after_gphoto2 := match gphoto2_autodetect env with
                        | Ok detected => detect_gphoto2 detected after_linux
                        | Raise _ => after_linux
                        end).
  assert (Hgphoto : well_named after_gphoto2 /\
                    List.length after_gphoto2 =
                    (List.length after_linux +
                     match gphoto2_autodetect env with
                     | Ok detected => List.length detected
                     | Raise _ => 0
                     end)%nat).
  { subst after_gphoto2. destruct (gphoto2_autodetect env).
    - exact (detect_gphoto2_well_named a after_linux Hwn1).
    - split; [exact Hwn1 | lia]. }
  destruct Hgphoto as [Hwn2 Hlen2]. rewrite <- Hlen2. clearbody after_gphoto2.
  destruct (camera_type_available env PICAMERA2); [|split; [exact Hwn2 | lia]].
  destruct (picamera2_probe env) as [[model_name location] | e];
    [|split; [exact Hwn2 | lia]].
  destruct (add_detected_well_named after_gphoto2 PICAMERA2 model_name
              ("/dev/video0" ++ location)%string
              (Some (default_camera_settings env)) Hwn2) as [H1 H2].
  split; [exact H1 | lia].
Qed.

End DetectFacts.

Section NamingInTurn.

Lemma unique_camera_name_rule : forall (found : dict Camera) base_name,
    follows_rule (keys found) base_name (_unique_camera_name found base_name).
Proof.
  intros found base_name. unfold follows_rule, _unique_camera_name.
  set (base := name_or_default base_name).
  destruct (dict_mem found base) eqn:E; cbn [negb]; cbv iota.
  - right. split; [apply dict_mem_in_keys; exact E|].
    destruct (scan_suffix_least found base (S (List.length found)) 2)
      as [k [Hk [Hrun [Hfree Hmin]]]].
    { destruct (some_candidate_is_free found base 2) as [j [Hj Hfree]].
      exists j. split; [lia | exact Hfree]. }
    exists k. split; [exact Hk|]. split; [exact Hrun|]. split.
    + intro Hin. apply in_keys_dict_mem in Hin. congruence.
    + intros j Hj. apply dict_mem_in_keys. apply Hmin. exact Hj.
  - left. split; [|reflexivity].
    intro Hin. apply in_keys_dict_mem in Hin. congruence.
Qed.

Lemma keys_add_detected : forall found ty base_name path settings,
    keys (add_detected found ty base_name path settings)
    = keys found ++ [_unique_camera_name found base_name].
Proof.
  intros. rewrite add_detected_appends, keys_app. reflexivity.
Qed.

Lemma named_in_turn_app : forall bases1 bases2 taken names1 names2,
    named_in_turn bases1 taken names1 ->
    named_in_turn bases2 (taken ++ names1) names2 ->
    named_in_turn (bases1 ++ bases2) taken (names1 ++ names2).
Proof.
  intros bases1 bases2 taken names1 names2 H1.
  induction H1 as [taken | base_name bases taken n assigned Hrule _ IH];
    intros H2; simpl.
  - rewrite app_nil_r in H2. exact H2.
  - apply named_next; [exact Hrule|].
    apply IH. rewrite <- app_assoc. exact H2.
Qed.

Lemma detect_linuxpy_named : forall devices found,
    exists names,
      keys (detect_linuxpy devices found) = keys found ++ names /\
      named_in_turn (linuxpy_bases devices) (keys found) names.
Proof.
  induction devices as [| cam rest IH]; intros found; simpl.
  - exists []. rewrite app_nil_r. split; [reflexivity | constructor].
  - destruct (opens cam).
    + destruct (is_isp_node (card cam)); simpl.
      * apply IH.
      * destruct (IH (add_detected found LINUXPY (card cam) (filename cam)
                                   None)) as [names [Hkeys Hnamed]].
        rewrite keys_add_detected in Hkeys, Hnamed.
        exists (_unique_camera_name found (card cam) :: names). split.
        -- rewrite Hkeys, <- app_assoc. reflexivity.
        -- apply named_next; [apply unique_camera_name_rule | exact Hnamed].
    + exists []. rewrite app_nil_r. split; [reflexivity | constructor].
Qed.

Lemma detect_gphoto2_named : forall detected found,
    exists names,
      keys (detect_gphoto2 detected found) = keys found ++ names /\
      named_in_turn (map fst detected) (keys found) names.
Proof.
  induction detected as [| [model_name port] rest IH]; intros found; simpl.
  - exists []. rewrite app_nil_r. split; [reflexivity | constructor].
  - destruct (IH (add_detected found GPHOTO2 model_name port None))
      as [names [Hkeys Hnamed]].
    rewrite keys_add_detected in Hkeys, Hnamed.
    exists (_unique_camera_name found model_name :: names). split.
    + rewrite Hkeys, <- app_assoc. reflexivity.
    + apply named_next; [apply unique_camera_name_rule | exact Hnamed].
Qed.

Lemma probe_cameras_named : forall env,
    named_in_turn (detected_bases env) [] (keys (probe_cameras env)).
Proof.
  intro env. unfold probe_cameras, detected_bases, detect_picamera2.
  set (after_linux := match iter_video_capture_devices env with
                      | Ok devices => detect_linuxpy devices []
                      | Raise _ => []
                      end).
  set (bases_linux := match iter_video_capture_devices env with
                      | Ok devices => linuxpy_bases devices
                      | Raise _ => []
                      end).
  assert (Hlinux : named_in_turn bases_linux [] (keys after_linux)).
  { subst after_linux bases_linux.
    destruct (iter_video_capture_devices env) as [devices | e];
      [|constructor].
    destruct (detect_linuxpy_named devices []) as [names [Hkeys Hnamed]].
    rewrite Hkeys. exact Hnamed. }
  clearbody after_linux bases_linux.
  set (after_gphoto2 := match gphoto2_autodetect env with
                        | Ok detected => detect_gphoto2 detected after_linux
                        | Raise _ => after_linux
                        end).
  set (bases_gphoto2 := match gphoto2_autodetect env with
                        | Ok detected => map fst detected
                        | Raise _ => []
                        end).
  assert (Hgphoto : exists names,
             keys after_gphoto2 = keys after_linux ++ names /\
             named_in_turn bases_gphoto2 (keys after_linux) names).
  { subst after_gphoto2 bases_gphoto2.
    destruct (gphoto2_autodetect env) as [detected | e].
    - apply detect_gphoto2_named.
    - exists []. rewrite app_nil_r. split; [reflexivity | constructor]. }
  destruct Hgphoto as [names2 [Hkeys2 Hnamed2]].
  clearbody after_gphoto2 bases_gphoto2.
  set (bases_picamera2 :=
         if camera_type_available env PICAMERA2
         then match picamera2_probe env with
              | Ok (model_name, _) => [model_name]
              | Raise _ => []
              end
         else []).
  set (after_picamera2 :=
         if camera_type_available env PICAMERA2
         then match picamera2_probe env with
              | Ok (model_name, location) =>
                  add_detected after_gphoto2 PICAMERA2 model_name
                    ("/dev/video0" ++ location)%string
                    (Some (default_camera_settings env))
              | Raise _ => after_gphoto2
              end
         else after_gphoto2).
  assert (Hpicam : exists names,
             keys after_picamera2 = keys after_gphoto2 ++ names /\
             named_in_turn bases_picamera2 (keys after_gphoto2) names).
  { subst after_picamera2 bases_picamera2.
    destruct (camera_type_available env PICAMERA2);
      [|exists []; rewrite app_nil_r; split; [reflexivity | constructor]].
    destruct (picamera2_probe env) as [[model_name location] | e];
      [|exists []; rewrite app_nil_r; split; [reflexivity | constructor]].
    exists [_unique_camera_name after_gphoto2 model_name]. split.
    - apply keys_add_detected.
    - apply named_next; [apply unique_camera_name_rule | constructor]. }
  destruct Hpicam as [names3 [Hkeys3 Hnamed3]].
  rewrite Hkeys3, Hkeys2, <- app_assoc.
  change (keys after_linux ++ names2 ++ names3)
    with ((keys after_linux) ++ (names2 ++ names3)).
  apply named_in_turn_app; [exact Hlinux|]. rewrite app_nil_l.
  apply named_in_turn_app; [exact Hnamed2|].
  rewrite <- Hkeys2. exact Hnamed3.
Qed.

End NamingInTurn.

(** C7.  Detection names every camera it detects through one rule,
    whichever probe found it: the video devices, then the tethered
    cameras, then the Picamera2 module are named in turn, each against
    the names given before it.  A base name that is free is used as it
    is.  A base name that is taken is given the suffix [-k] for the least
    [k >= 2] whose candidate is free: every candidate from [-2] up to
    [-(k-1)] is taken.  Detecting two cameras that both report ["camX"]
    names them ["camX"] and ["camX-2"], and a third is named ["camX-3"],
    from one probe or from three. *)
Theorem unique_camera_name_scans_upward :
  forall (taken : dict Camera) base_name,
    let base := name_or_default base_name in
    (dict_mem taken base = false ->
     _unique_camera_name taken base_name = base) /\
    (dict_mem taken base = true ->
     exists k,
       (2 <= k)%nat /\
       _unique_camera_name taken base_name = candidate base k /\
       dict_mem taken (candidate base k) = false /\
       (forall j, (2 <= j < k)%nat ->
                  dict_mem taken (candidate base j) = true)) /\
    (forall env st,
        named_in_turn (detected_bases env) []
                      (keys (value_of (_detect_cameras env) st))) /\
    keys (value_of (_detect_cameras (bench_env (firstn 2 three_tethered)))
                   initial_store)
      = [ "camX"; "camX-2" ] /\
    keys (value_of (_detect_cameras (bench_env three_tethered)) initial_store)
      = [ "camX"; "camX-2"; "camX-3" ] /\
    keys (value_of (_detect_cameras mixed_env) initial_store)
      = [ "camX"; "camX-2"; "camX-3" ].
Proof.
  intros taken base_name base. unfold _unique_camera_name. fold base.
  split; [|split; [|split; [|split; [|split]]]].
  - intros ->. reflexivity.
  - intros ->. simpl negb. cbv iota.
    apply scan_suffix_least.
    destruct (some_candidate_is_free taken base 2) as [j [Hj Hfree]].
    exists j. split; [lia | exact Hfree].
  - intros env st.
    replace (value_of (_detect_cameras env) st) with (probe_cameras env)
      by (unfold _detect_cameras; rewrite !value_of_seq; reflexivity).
    apply probe_cameras_named.
  - vm_compute. reflexivity.
  - vm_compute. reflexivity.
  - vm_compute. reflexivity.
Qed.

Lemma unique_camera_name_scans_upward_witness :
  exists k,
    (2 <= k)%nat /\
    _unique_camera_name two_found (Some "camX") = candidate "camX" k /\
    dict_mem two_found (candidate "camX" k) = false /\
    dict_mem two_found "camX" = true.
Proof.
  destruct (unique_camera_name_scans_upward two_found (Some "camX"))
    as [_ [H _]].
  destruct H as [k [Hk [Hrun [Hfree Hmin]]]]; [reflexivity|].
  exists k. repeat split; assumption || reflexivity.
Defined.

(** X11.  [_detect_cameras] loses no camera to a name clash: whatever
    names the devices report, the cameras it returns have pairwise
    different names, each is filed under the name it carries, and there
    is one camera for each device that the three probes accept. *)
Theorem detect_cameras_keeps_every_device :
  forall env st,
    let cameras := value_of (_detect_cameras env) st in
    NoDup (keys cameras) /\
    (forall n cam, In (n, cam) cameras -> camera_name cam = n) /\
    List.length cameras = accepted_devices env.
Proof.
  intros env st cameras.
  assert (Hvalue : cameras = probe_cameras env).
  { subst cameras. unfold _detect_cameras.
    rewrite !value_of_seq. reflexivity. }
  rewrite Hvalue.
  destruct (probe_cameras_well_named env) as [[Hnd Hnames] Hlen].
  repeat split; assumption.
Qed.

(* ================================================================== *)
(** * One failing motor does not stop the others *)
(* ================================================================== *)

Section MotorFacts.
Variable env : Env.

Lemma dict_get_in_nodup : forall {V} (d : dict V) k v,
    NoDup (keys d) -> In (k, v) d -> dict_get d k = Some v.
Proof.
  induction d as [| [k0 v0] d IH]; intros k v Hnd Hin; [destruct Hin|].
  simpl in *. inversion Hnd as [| ? ? Hfresh Hrest]; subst.
  destruct Hin as [Heq | Hin].
  - injection Heq as -> ->. rewrite String.eqb_refl. reflexivity.
  - destruct (String.eqb k0 k) eqn:E.
    + apply String.eqb_eq in E. subst k0. elim Hfresh.
      change k with (fst (k, v)). apply in_map. exact Hin.
    + apply IH; assumption.
Qed.

Lemma keys_filter : forall {V} (p : string * V -> bool) (d : dict V) k,
    In k (keys (filter p d)) -> In k (keys d).
Proof.
  intros V p d k H. unfold keys in *. apply in_map_iff in H.
  destruct H as [x [<- Hx]]. apply filter_In in Hx. apply in_map, Hx.
Qed.

Lemma dict_get_filter : forall {V} (p : string * V -> bool) (d : dict V) k v,
    NoDup (keys d) -> In (k, v) d ->
    dict_get (filter p d) k = if p (k, v) then Some v else None.
Proof.
  induction d as [| [k0 v0] d IH]; intros k v Hnd Hin; [destruct Hin|].
  simpl in Hnd. inversion Hnd as [| ? ? Hfresh Hrest]; subst.
  destruct Hin as [Heq | Hin].
  - injection Heq as -> ->. simpl. destruct (p (k, v)) eqn:Ep.
    + simpl. rewrite String.eqb_refl. reflexivity.
    + apply dict_get_not_in_keys. intros H. apply Hfresh.
      exact (keys_filter _ _ _ H).
  - assert (Hne : String.eqb k0 k = false).
    { apply String.eqb_neq. intros ->. apply Hfresh.
      change k with (fst (k, v)). apply in_map. exact Hin. }
    simpl. destruct (p (k0, v0)); simpl; rewrite ?Hne; apply IH; assumption.
Qed.

(** With distinct names, the motor descriptors are those of the section,
    one for one and in its order. *)
Lemma motors_from_config_fresh : forall entries acc,
    NoDup (keys acc ++ keys entries) ->
    motors_from_config env entries acc =
    acc ++ map (described_motor env) entries.
Proof.
  induction entries as [| [n settings] rest IH]; intros acc Hnd; simpl.
  - rewrite app_nil_r. reflexivity.
  - assert (Hfree : dict_mem acc n = false).
    { destruct (dict_mem acc n) eqn:E; [|reflexivity].
      apply dict_mem_in_keys in E. simpl in Hnd.
      apply NoDup_remove_2 in Hnd. elim Hnd. apply in_or_app. auto. }
    rewrite dict_set_absent by exact Hfree.
    rewrite IH.
    + rewrite <- app_assoc. reflexivity.
    + rewrite keys_app, <- app_assoc. exact Hnd.
Qed.

Lemma init_motor_controller_run : forall n motor st,
    init_motor_controller env (n, motor) st =
    (tt,
     (if motor_ctor_raises env motor then st
      else set_motor_controllers
             (dict_set (motor_controllers st) (motor_ident motor) motor) st),
     motor_round_events env (n, motor)).
Proof.
  intros n motor st.
  unfold init_motor_controller, create_motor_controller, motor_round_events,
    try_log, seq, read, update, emit, ret.
  simpl. destruct (motor_ctor_raises env motor); reflexivity.
Qed.

(** The motor loop, run on descriptors with distinct names that no
    registered controller has: the descriptors whose constructor returns
    are registered, in order, and every other one is logged. *)
Lemma motor_loop_run : forall descriptors st,
    (forall n motor, In (n, motor) descriptors -> motor_ident motor = n) ->
    NoDup (keys (motor_controllers st) ++ keys descriptors) ->
    for_each descriptors (init_motor_controller env) st =
    (tt,
     set_motor_controllers
       (motor_controllers st ++ filter (constructed env) descriptors) st,
     flat_map (motor_round_events env) descriptors).
Proof.
  induction descriptors as [| [n motor] rest IH]; intros st Hnames Hnd.
  - simpl. unfold ret. rewrite app_nil_r. destruct st; reflexivity.
  - cbn [for_each]. unfold seq. rewrite init_motor_controller_run.
    assert (Hident : motor_ident motor = n) by (apply Hnames; left; reflexivity).
    assert (Hrest : forall n' m', In (n', m') rest -> motor_ident m' = n').
    { intros n' m' H. apply Hnames. right. exact H. }
    unfold constructed at 1. simpl filter. simpl flat_map. simpl snd.
    destruct (motor_ctor_raises env motor) eqn:Eraise; simpl negb; cbv iota.
    + rewrite IH; [reflexivity | exact Hrest |].
      simpl in Hnd. apply NoDup_remove_1 in Hnd. exact Hnd.
    + assert (Hfree : dict_mem (motor_controllers st) n = false).
      { destruct (dict_mem (motor_controllers st) n) eqn:E; [|reflexivity].
        apply dict_mem_in_keys in E. simpl in Hnd.
        apply NoDup_remove_2 in Hnd. elim Hnd. apply in_or_app. auto. }
      rewrite Hident, dict_set_absent by exact Hfree.
      rewrite IH; [| exact Hrest |].
      * simpl. rewrite <- app_assoc. reflexivity.
      * simpl. rewrite keys_app, <- app_assoc. exact Hnd.
Qed.

Lemma camera_stage_keeps_motors : forall config detect,
    preserves motor_controllers
      (camera_objects <-
         (if detect || is_empty (section_dict (cfg_cameras config))
          then _detect_cameras env
          else ret (cameras_from_config env
                      (section_dict (cfg_cameras config)) [])) ;;
       for_each camera_objects (init_camera_controller env)).
Proof.
  intros. unfold _detect_cameras, remove_camera_controller,
    init_camera_controller, create_camera_controller.
  repeat preserves_step.
Qed.

(** The store and the events of [build_cameras_and_motors], once the
    cameras are done. *)
Lemma build_cameras_and_motors_motor_stage : forall config detect st,
    NoDup (keys (section_dict (cfg_motors config))) ->
    motor_controllers st = [] ->
    let descriptors :=
      map (described_motor env) (section_dict (cfg_motors config)) in
    motor_controllers
      (store_after (build_cameras_and_motors env config detect) st)
    = filter (constructed env) descriptors /\
    exists before,
      events_of (build_cameras_and_motors env config detect) st
      = before ++ flat_map (motor_round_events env) descriptors.
Proof.
  intros config detect st Hnd Hempty descriptors.
  pose proof (camera_stage_keeps_motors config detect st) as Hkeep.
  rewrite Hempty in Hkeep.
  unfold build_cameras_and_motors.
  rewrite motors_from_config_fresh by exact Hnd. simpl app. fold descriptors.
  unfold store_after, events_of, seq in *.
  destruct ((if detect || is_empty (section_dict (cfg_cameras config))
             then _detect_cameras env
             else ret (cameras_from_config env
                         (section_dict (cfg_cameras config)) [])) st)
    as [[cams s1] e1].
  destruct (for_each cams (init_camera_controller env) s1) as [[u s2] e2].
  simpl in Hkeep.
  rewrite motor_loop_run.
  - simpl. rewrite Hkeep. split; [reflexivity|].
    exists (e1 ++ e2). unfold ret.
    rewrite app_nil_r, app_assoc. reflexivity.
  - intros n motor Hin. unfold descriptors in Hin. apply in_map_iff in Hin.
    destruct Hin as [[n0 s0] [Heq _]]. injection Heq as <- <-. reflexivity.
  - rewrite Hkeep. simpl. unfold descriptors, keys.
    rewrite map_map. exact Hnd.
Qed.

End MotorFacts.

(** X14.  Take a motor section with distinct names and a store whose
    motor registry [initialize] starts from empty (the device is
    initialized, so the teardown empties it, or no motor controller is
    registered).  After [initialize], every configured motor is listed in
    the device aggregate with its loaded settings; it has a controller
    exactly when its constructor returned, and a constructor that raised
    is logged: one failing motor takes no other motor with it. *)
Theorem failed_motor_is_listed_without_controller :
  forall env config detect st,
    NoDup (keys (section_dict (cfg_motors config))) ->
    (initialized (scanner_device st) = false -> motor_controllers st = []) ->
    let st' := store_after (initialize env config detect) st in
    forall n settings,
      In (n, settings) (section_dict (cfg_motors config)) ->
      let motor := mkMotor n (_load_motor_config env settings) in
      dict_get (motors (scanner_device st')) n = Some motor /\
      dict_get (motor_controllers st') n =
        (if motor_ctor_raises env motor then None else Some motor) /\
      (motor_ctor_raises env motor = true ->
       In (Caught MotorK n) (events_of (initialize env config detect) st)).
Proof.
  intros env config detect st Hnd Hfresh st' n settings Hin motor.
  set (descriptors :=
         map (described_motor env) (section_dict (cfg_motors config))).
  assert (Hdesc_nd : NoDup (keys descriptors)).
  { unfold descriptors, keys. rewrite map_map. exact Hnd. }
  assert (Hdesc_in : In (n, motor) descriptors).
  { unfold descriptors. apply in_map_iff. exists (n, settings). auto. }
  split; [|split].
  - destruct (initialize_aggregate env config detect st) as [co [eo Hagg]].
    subst st'. rewrite Hagg. simpl motors.
    rewrite motors_from_config_fresh by exact Hnd.
    apply dict_get_in_nodup; assumption.
  - subst st'. unfold store_after. rewrite initialize_stages.
    unfold before_endstops, seq, read.
    assert (Hstart :
      motor_controllers
        (snd (fst ((if initialized (scanner_device st)
                    then reinit_teardown env else ret tt) st))) = []).
    { destruct (initialized (scanner_device st)) eqn:Hinit.
      - rewrite reinit_teardown_run. reflexivity.
      - apply Hfresh. reflexivity. }
    destruct ((if initialized (scanner_device st)
               then reinit_teardown env else ret tt) st) as [[u0 s0] e0].
    simpl in Hstart.
    destruct (build_cameras_and_motors_motor_stage env config detect s0
                Hnd Hstart) as [Hreg _].
    unfold store_after in Hreg.
    destruct (build_cameras_and_motors env config detect s0) as [[co s1] e1].
    pose proof (bind_endstops_keeps_motors env
                  (section_dict (cfg_endstops config)) [] s1) as H2.
    unfold store_after in H2.
    destruct (bind_endstops env _ [] s1) as [[eo s2] e2].
    pose proof (finish_initialize_keeps_motors env config co eo s2) as H3.
    unfold store_after in H3.
    destruct (finish_initialize env config co eo s2) as [[u s3] e3].
    simpl in *. rewrite H3, H2, Hreg. fold descriptors.
    rewrite (dict_get_filter (constructed env) descriptors n motor)
      by assumption.
    unfold constructed. simpl.
    destruct (motor_ctor_raises env motor); reflexivity.
  - intros Hraise. unfold events_of. rewrite initialize_stages.
    unfold before_endstops, seq, read.
    assert (Hstart :
      motor_controllers
        (snd (fst ((if initialized (scanner_device st)
                    then reinit_teardown env else ret tt) st))) = []).
    { destruct (initialized (scanner_device st)) eqn:Hinit.
      - rewrite reinit_teardown_run. reflexivity.
      - apply Hfresh. reflexivity. }
    destruct ((if initialized (scanner_device st)
               then reinit_teardown env else ret tt) st) as [[u0 s0] e0].
    simpl in Hstart.
    destruct (build_cameras_and_motors_motor_stage env config detect s0
                Hnd Hstart) as [_ [before Hev]].
    unfold events_of in Hev.
    destruct (build_cameras_and_motors env config detect s0) as [[co s1] e1].
    destruct (bind_endstops env _ [] s1) as [[eo s2] e2].
    destruct (finish_initialize env config co eo s2) as [[u s3] e3].
    simpl in *. subst e1.
    apply in_or_app. left. apply in_or_app. right. apply in_or_app. right.
    apply in_flat_map. exists (n, motor). split; [exact Hdesc_in|].
    unfold motor_round_events. simpl. fold motor. rewrite Hraise.
    left. reflexivity.
Qed.

Lemma failed_motor_is_listed_without_controller_witness :
  dict_get (motors (scanner_device degraded_store)) "rotor"
    = Some (mkMotor "rotor" bench_motor_config) /\
  dict_get (motor_controllers degraded_store) "rotor" = None /\
  dict_get (motor_controllers degraded_store) "turntable"
    = Some (mkMotor "turntable" bench_motor_config) /\
  In (Caught MotorK "rotor")
     (events_of (initialize degraded_env bench_config false) initial_store).
Proof.
  assert (Hnd : NoDup (keys (section_dict (cfg_motors bench_config)))).
  { repeat constructor; simpl; intuition discriminate. }
  assert (Hfresh : initialized (scanner_device initial_store) = false ->
                   motor_controllers initial_store = []) by reflexivity.
  pose proof (failed_motor_is_listed_without_controller
                degraded_env bench_config false initial_store Hnd Hfresh)
    as H.
  destruct (H "rotor" (Some bench_motor_config)) as [H1 [H2 H3]];
    [left; reflexivity|].
  destruct (H "turntable" (Some bench_motor_config)) as [_ [H4 _]];
    [right; left; reflexivity|].
  split; [exact H1 | split; [exact H2 | split; [exact H4 |]]].
  exact (H3 eq_refl).
Defined.

(* ================================================================== *)
(** * A camera without its backend *)
(* ================================================================== *)

Section CameraFacts.
Variable env : Env.

Lemma keys_dict_set_eq : forall {V} (d : dict V) k v,
    keys (dict_set d k v) = if dict_mem d k then keys d else keys d ++ [k].
Proof.
  intros V d k v. unfold dict_mem.
  induction d as [| [k0 v0] d IH]; simpl; [reflexivity|].
  destruct (String.eqb k0 k) eqn:E; simpl.
  - apply String.eqb_eq in E. subst k0. reflexivity.
  - rewrite IH. destruct (dict_get d k); reflexivity.
Qed.

Lemma in_dict_set : forall {V} (d : dict V) k v k' v',
    In (k', v') (dict_set d k v) -> (k', v') = (k, v) \/ In (k', v') d.
Proof.
  induction d as [| [k0 v0] d IH]; intros k v k' v' H; simpl in H.
  - destruct H as [H | []]. auto.
  - destruct (String.eqb k0 k); simpl in *.
    + destruct H as [H | H]; auto.
    + destruct H as [H | H]; auto.
      destruct (IH _ _ _ _ H); auto.
Qed.

Lemma dict_set_well_named : forall (d : dict Camera) k v,
    well_named d -> camera_name v = k -> well_named (dict_set d k v).
Proof.
  intros d k v [Hnd Hnames] Hv. split.
  - rewrite keys_dict_set_eq. destruct (dict_mem d k) eqn:E; [exact Hnd|].
    apply NoDup_app; [exact Hnd | repeat constructor; intros [] |].
    intros n Hn [<- | []]. apply in_keys_dict_mem in Hn. congruence.
  - intros n cam Hin. apply in_dict_set in Hin.
    destruct Hin as [Heq | Hin]; [|exact (Hnames _ _ Hin)].
    injection Heq as -> ->. exact Hv.
Qed.

Lemma cameras_from_config_well_named : forall entries acc,
    well_named acc -> well_named (cameras_from_config env entries acc).
Proof.
  induction entries as [| [n entry] rest IH]; intros acc Hacc; simpl.
  - exact Hacc.
  - destruct entry as [| [ty |] path settings]; try (apply IH; exact Hacc).
    apply IH, dict_set_well_named; [exact Hacc | reflexivity].
Qed.

Lemma listed_cameras_well_named : forall config detect,
    well_named (listed_cameras env config detect).
Proof.
  intros. unfold listed_cameras.
  destruct (detect || is_empty (section_dict (cfg_cameras config))).
  - apply probe_cameras_well_named.
  - apply cameras_from_config_well_named.
    split; [constructor | intros n cam []].
Qed.

Lemma emits_only_for_each_in : forall (P : event -> Prop) {A} (l : list A)
    (body : A -> action unit),
    (forall x, In x l -> emits_only P (body x)) ->
    emits_only P (for_each l body).
Proof.
  intros P A l body. induction l as [| x l IH]; intros H; simpl.
  - apply emits_only_ret.
  - apply emits_only_seq; [apply H; left; reflexivity|].
    intros _. apply IH. intros y Hy. apply H. right. exact Hy.
Qed.

Variable n : string.

Let no_attempt (e : event) : Prop := camera_attempt n e = false.
Let has_controller (st : Store) : bool := dict_mem (camera_controllers st) n.

(** One round of the camera loop, for a descriptor that is not an
    available camera named [n]. *)
Lemma init_camera_controller_elsewhere : forall n' cam',
    camera_name cam' = n' ->
    (n' = n -> camera_type_available env (camera_type cam') = false) ->
    emits_only no_attempt (init_camera_controller env (n', cam')) /\
    preserves has_controller (init_camera_controller env (n', cam')).
Proof.
  intros n' cam' Hname Hskip.
  unfold init_camera_controller, create_camera_controller.
  destruct (camera_type_available env (camera_type cam')) eqn:Eavail; simpl.
  - assert (Hne : String.eqb n' n = false).
    { apply String.eqb_neq. intros H. specialize (Hskip H). discriminate. }
    split.
    + intros st. unfold events_of, try_log, seq, read, update, emit, ret.
      destruct (camera_ctor_raises env cam'); simpl;
        repeat constructor; unfold no_attempt; simpl;
        rewrite ?Hname; exact Hne.
    + intros st. unfold store_after, has_controller, try_log, seq, read,
        update, emit, ret.
      destruct (camera_ctor_raises env cam'); simpl; [reflexivity|].
      rewrite Hname, dict_mem_set, Hne. reflexivity.
  - split; [apply emits_only_ret | apply preserves_ret].
Qed.

Lemma camera_loop_elsewhere : forall descriptors,
    (forall n' cam', In (n', cam') descriptors ->
                     camera_name cam' = n' /\
                     (n' = n ->
                      camera_type_available env (camera_type cam') = false)) ->
    emits_only no_attempt (for_each descriptors (init_camera_controller env)) /\
    preserves has_controller
              (for_each descriptors (init_camera_controller env)).
Proof.
  intros descriptors H. split.
  - apply emits_only_for_each_in. intros [n' cam'] Hin.
    destruct (H _ _ Hin) as [H1 H2].
    apply init_camera_controller_elsewhere; assumption.
  - induction descriptors as [| [n' cam'] rest IH]; simpl.
    + apply preserves_ret.
    + apply preserves_seq.
      * destruct (H n' cam') as [H1 H2]; [left; reflexivity|].
        apply init_camera_controller_elsewhere; assumption.
      * intros _. apply IH. intros n2 cam2 Hin. apply H. right. exact Hin.
Qed.

Lemma bind_endstops_attempt_no_camera : forall entries objs,
    emits_only no_attempt (bind_endstops env entries objs) /\
    preserves has_controller (bind_endstops env entries objs).
Proof.
  induction entries as [| [k data] rest IH]; intros objs; simpl.
  - split; [apply emits_only_ret | apply preserves_ret].
  - split.
    + apply emits_only_seq; [|intros o; apply IH].
      unfold bind_endstop, get_motor_controller, no_attempt.
      repeat emits_step.
    + apply preserves_seq; [|intros o; apply IH].
      unfold bind_endstop, get_motor_controller, has_controller.
      repeat preserves_step.
Qed.

Lemma finish_initialize_attempts_no_camera : forall config cams objs,
    emits_only no_attempt (finish_initialize env config cams objs) /\
    preserves has_controller (finish_initialize env config cams objs).
Proof.
  intros. unfold finish_initialize, init_light_controller,
    create_light_controller, switch_on_light, no_attempt, has_controller.
  split; [repeat emits_step | repeat preserves_step].
Qed.

Lemma motor_loop_attempts_no_camera : forall descriptors,
    emits_only no_attempt (for_each descriptors (init_motor_controller env)) /\
    preserves has_controller
              (for_each descriptors (init_motor_controller env)).
Proof.
  intros. unfold init_motor_controller, create_motor_controller,
    no_attempt, has_controller.
  split; [repeat emits_step | repeat preserves_step].
Qed.

Lemma build_cameras_and_motors_value : forall config detect st,
    value_of (build_cameras_and_motors env config detect) st
    = listed_cameras env config detect.
Proof.
  intros. unfold build_cameras_and_motors, listed_cameras.
  rewrite !value_of_seq.
  change (value_of (ret ?x) ?s) with x.
  destruct (detect || is_empty (section_dict (cfg_cameras config))).
  - unfold _detect_cameras. rewrite !value_of_seq. reflexivity.
  - reflexivity.
Qed.

(** The events and the registry when [build_cameras_and_motors] is done. *)
Lemma build_cameras_and_motors_skips : forall config detect st cam,
    dict_get (listed_cameras env config detect) n = Some cam ->
    camera_type_available env (camera_type cam) = false ->
    has_controller st = false ->
    Forall no_attempt
           (events_of (build_cameras_and_motors env config detect) st) /\
    has_controller
      (store_after (build_cameras_and_motors env config detect) st) = false.
Proof.
  intros config detect st cam Hget Hskip Hfree.
  destruct (listed_cameras_well_named config detect) as [Hnd Hnames].
  assert (Hrounds :
    forall n' cam', In (n', cam') (listed_cameras env config detect) ->
                    camera_name cam' = n' /\
                    (n' = n ->
                     camera_type_available env (camera_type cam') = false)).
  { intros n' cam' Hin. split; [exact (Hnames _ _ Hin)|].
    intros ->. rewrite (dict_get_in_nodup _ _ _ Hnd Hin) in Hget.
    injection Hget as ->. exact Hskip. }
  destruct (camera_loop_elsewhere _ Hrounds) as [Hloop_e Hloop_s].
  destruct (motor_loop_attempts_no_camera
              (motors_from_config env (section_dict (cfg_motors config)) []))
    as [Hmot_e Hmot_s].
  pose proof (build_cameras_and_motors_value config detect st) as Hvalue.
  assert (Hfirst :
    value_of (if detect || is_empty (section_dict (cfg_cameras config))
              then _detect_cameras env
              else ret (cameras_from_config env
                          (section_dict (cfg_cameras config)) [])) st
    = listed_cameras env config detect /\
    Forall no_attempt
      (events_of (if detect || is_empty (section_dict (cfg_cameras config))
                  then _detect_cameras env
                  else ret (cameras_from_config env
                              (section_dict (cfg_cameras config)) [])) st) /\
    has_controller
      (store_after (if detect || is_empty (section_dict (cfg_cameras config))
                    then _detect_cameras env
                    else ret (cameras_from_config env
                                (section_dict (cfg_cameras config)) [])) st)
    = false).
  { unfold listed_cameras.
    destruct (detect || is_empty (section_dict (cfg_cameras config))).
    - unfold _detect_cameras, value_of, events_of, store_after, seq, read.
      rewrite (remove_cameras_run (camera_controllers st) st) by reflexivity.
      simpl. rewrite app_nil_r. repeat split.
      apply Forall_forall. intros e He. apply in_map_iff in He.
      destruct He as [k [<- _]]. reflexivity.
    - repeat split; [constructor | exact Hfree]. }
  destruct Hfirst as [Hv [He Hs]].
  unfold build_cameras_and_motors.
  rewrite events_of_seq, store_after_seq, Hv.
  rewrite !events_of_seq, !store_after_seq.
  split.
  - apply Forall_app. split; [exact He|].
    apply Forall_app. split; [apply Hloop_e|].
    apply Forall_app. split; [apply Hmot_e | constructor].
  - change (store_after (ret ?x) ?s) with s.
    rewrite Hmot_s, Hloop_s. exact Hs.
Qed.

End CameraFacts.

(** X13.  A camera that [initialize] lists in the device aggregate but
    whose backend is not available gets no controller: [initialize] does
    not try to construct one and logs no error for it, and when no
    controller of that name outlives the start of [initialize], none is
    registered at its end. *)
Theorem camera_without_backend_is_listed_only :
  forall env config detect st n cam,
    let st' := store_after (initialize env config detect) st in
    dict_get (cameras (scanner_device st')) n = Some cam ->
    camera_type_available env (camera_type cam) = false ->
    (initialized (scanner_device st) = false ->
     dict_mem (camera_controllers st) n = false) ->
    dict_mem (camera_controllers st') n = false /\
    ~ In (Create CameraK n) (events_of (initialize env config detect) st) /\
    ~ In (Caught CameraK n) (events_of (initialize env config detect) st).
Proof.
  intros env config detect st n cam st' Hget Hskip Hfree.
  subst st'. unfold store_after, events_of in *.
  rewrite initialize_stages in *. unfold before_endstops, seq, read in *.
  assert (Hstart :
    dict_mem (camera_controllers
                (snd (fst ((if initialized (scanner_device st)
                            then reinit_teardown env else ret tt) st)))) n
    = false /\
    Forall (fun e => camera_attempt n e = false)
           (snd ((if initialized (scanner_device st)
                  then reinit_teardown env else ret tt) st))).
  { destruct (initialized (scanner_device st)) eqn:Hinit.
    - rewrite reinit_teardown_run. split; [reflexivity|].
      simpl. apply Forall_forall. intros e He.
      repeat (apply in_app_or in He; destruct He as [He | He]).
      + apply in_map_iff in He. destruct He as [k [<- _]]. reflexivity.
      + apply in_map_iff in He. destruct He as [k [<- _]]. reflexivity.
      + apply in_map_iff in He. destruct He as [k [<- _]]. reflexivity.
      + apply in_flat_map in He. destruct He as [k [_ He]].
        destruct (in_close_endstop_events _ _ _ He) as [-> | ->]; reflexivity.
      + destruct He as [<- | []]. reflexivity.
    - split; [apply Hfree; reflexivity | constructor]. }
  destruct ((if initialized (scanner_device st)
             then reinit_teardown env else ret tt) st) as [[u0 s0] e0].
  destruct Hstart as [Hs0 He0]. simpl in Hs0, He0.
  pose proof (build_cameras_and_motors_value env config detect s0) as Hco.
  pose proof (build_cameras_and_motors_skips env n config detect s0 cam)
    as Hbuild.
  unfold value_of, events_of, store_after in Hco, Hbuild.
  destruct (build_cameras_and_motors env config detect s0) as [[co s1] e1].
  destruct (bind_endstops_attempt_no_camera env n
              (section_dict (cfg_endstops config)) []) as [Hb_e Hb_s].
  specialize (Hb_e s1). specialize (Hb_s s1).
  unfold events_of, store_after in Hb_e, Hb_s.
  destruct (bind_endstops env _ [] s1) as [[eo s2] e2].
  destruct (finish_initialize_attempts_no_camera env n config co eo)
    as [Hf_e Hf_s].
  specialize (Hf_e s2). specialize (Hf_s s2).
  pose proof (finish_initialize_aggregate env config co eo s2) as Hagg.
  unfold events_of, store_after in Hf_e, Hf_s, Hagg.
  destruct (finish_initialize env config co eo s2) as [[u s3] e3].
  simpl in *. rewrite Hagg in Hget. simpl in Hget. subst co.
  destruct (Hbuild Hget Hskip Hs0) as [He1 Hs1].
  assert (Hall : Forall (fun e => camera_attempt n e = false)
                        ((e0 ++ e1) ++ e2 ++ e3)).
  { repeat (apply Forall_app; split); assumption. }
  rewrite Forall_forall in Hall.
  split; [rewrite Hf_s, Hb_s; exact Hs1|].
  split; intros Hin; apply Hall in Hin; simpl in Hin;
    rewrite String.eqb_refl in Hin; discriminate.
Qed.


Lemma camera_without_backend_is_listed_only_witness :
  dict_mem (cameras (scanner_device degraded_store)) "cam" = true /\
  dict_mem (camera_controllers degraded_store) "cam" = false /\
  ~ In (Create CameraK "cam")
       (events_of (initialize degraded_env bench_config false) initial_store).
Proof.
  destruct (camera_without_backend_is_listed_only
              degraded_env bench_config false initial_store "cam"
              (mkCamera EXTERNAL "cam" "/dev/null"
                        (Some (mkCameraSettings 95 true))))
    as [H1 [H2 _]]; [reflexivity | reflexivity | reflexivity |].
  split; [reflexivity | split; [exact H1 | exact H2]].
Defined.

(* ================================================================== *)
(** * Initializing twice *)
(* ================================================================== *)

Section BlindFacts.

Lemma device_blind_ret : forall {A} (a : A), device_blind (ret a).
Proof. intros A a d st. reflexivity. Qed.

Lemma device_blind_emit : forall e, device_blind (emit e).
Proof. intros e d st. reflexivity. Qed.

Lemma device_blind_read : forall {A} (f : Store -> A),
    (forall d st, f (set_scanner_device d st) = f st) ->
    device_blind (read f).
Proof. intros A f Hf d st. unfold read. rewrite Hf. reflexivity. Qed.

Lemma device_blind_update : forall g,
    (forall d st, g (set_scanner_device d st) = set_scanner_device d (g st)) ->
    device_blind (update g).
Proof. intros g Hg d st. unfold update. rewrite Hg. reflexivity. Qed.

Lemma device_blind_seq : forall {A B} (m : action A) (k : A -> action B),
    device_blind m -> (forall a, device_blind (k a)) ->
    device_blind (seq m k).
Proof.
  intros A B m k Hm Hk d st. unfold seq. rewrite Hm.
  destruct (m st) as [[a s1] e1]. rewrite Hk.
  destruct (k a s1) as [[b s2] e2]. reflexivity.
Qed.

Lemma device_blind_for_each : forall {A} (l : list A) (body : A -> action unit),
    (forall x, device_blind (body x)) -> device_blind (for_each l body).
Proof.
  intros A l body Hbody. induction l as [| x l IH]; simpl.
  - apply device_blind_ret.
  - apply device_blind_seq; [apply Hbody | intros _; exact IH].
Qed.

Lemma device_blind_try_log : forall k n body,
    device_blind body -> device_blind (try_log k n body).
Proof.
  intros k n body Hbody. unfold try_log.
  apply device_blind_seq; [exact Hbody|].
  intros [u | e]; [apply device_blind_ret | apply device_blind_emit].
Qed.

Lemma device_blind_call : forall e raises, device_blind (call e raises).
Proof.
  intros e raises. unfold call.
  apply device_blind_seq; [apply device_blind_emit|].
  intros _. apply device_blind_ret.
Qed.

End BlindFacts.

(** Walks through an action for a goal [device_blind m]. *)
Ltac blind_step :=
  first
    [ apply device_blind_try_log
    | apply device_blind_call
    | apply device_blind_ret
    | apply device_blind_emit
    | apply device_blind_read; intros ? ?; reflexivity
    | apply device_blind_update; intros ? ?; reflexivity
    | apply device_blind_seq; [| intros ?]
    | apply device_blind_for_each; intros ?
    | match goal with
      | |- device_blind (if ?b then _ else _) => destruct b
      | |- device_blind (match ?x with _ => _ end) => destruct x
      | |- device_blind (let (_, _) := ?x in _) => destruct x
      end ].

Section TwiceFacts.
Variable env : Env.

Lemma build_cameras_and_motors_blind : forall config detect,
    device_blind (build_cameras_and_motors env config detect).
Proof.
  intros. unfold build_cameras_and_motors, _detect_cameras,
    remove_camera_controller, init_camera_controller, init_motor_controller,
    create_camera_controller, create_motor_controller.
  repeat blind_step.
Qed.

Lemma bind_endstops_blind : forall entries objs,
    device_blind (bind_endstops env entries objs).
Proof.
  induction entries as [| [k data] rest IH]; intros objs; simpl.
  - apply device_blind_ret.
  - apply device_blind_seq; [|intros o; apply IH].
    unfold bind_endstop, get_motor_controller. repeat blind_step.
Qed.

Lemma light_loops_blind : forall light_objects,
    device_blind
      (for_each light_objects (init_light_controller env) ;;
       lit <- read light_controllers ;;
       for_each (keys lit) (switch_on_light env)).
Proof.
  intros. unfold init_light_controller, create_light_controller,
    switch_on_light.
  repeat blind_step.
Qed.

(** The store that [finish_initialize] leaves: the registries as the
    light loops leave them, under the new aggregate. *)
Lemma finish_initialize_store : forall config cams objs st,
    store_after (finish_initialize env config cams objs) st =
    set_scanner_device
      (mkScannerDevice
         (effective_name config (scanner_device st))
         (parse_enum (valid_scanner_model env) (cfg_model config))
         (parse_enum (valid_scanner_shield env) (cfg_shield config))
         cams
         (motors_from_config env (section_dict (cfg_motors config)) [])
         (lights_from_config env (section_dict (cfg_lights config)) [])
         objs true)
      (store_after
         (for_each
            (lights_from_config env (section_dict (cfg_lights config)) [])
            (init_light_controller env) ;;
          lit <- read light_controllers ;;
          for_each (keys lit) (switch_on_light env)) st).
Proof.
  intros config cams objs st.
  pose proof (light_loops_keep_device env
                (lights_from_config env (section_dict (cfg_lights config)) [])
                st) as Hkeep.
  unfold finish_initialize, effective_name. rewrite <- Hkeep.
  unfold store_after, value_of, seq, read, update, emit.
  destruct (for_each _ (init_light_controller env) st) as [[u1 s1] e1].
  destruct (for_each _ (switch_on_light env) s1) as [[u2 s2] e2].
  reflexivity.
Qed.

(** The rebuild depends on the device it starts from by its name only. *)
Lemma rebuild_ignores_device : forall config detect d1 d2 st,
    effective_name config d1 = effective_name config d2 ->
    store_after (rebuild env config detect) (set_scanner_device d1 st) =
    store_after (rebuild env config detect) (set_scanner_device d2 st).
Proof.
  intros config detect d1 d2 st Hname.
  unfold store_after, rebuild, seq.
  rewrite !build_cameras_and_motors_blind.
  destruct (build_cameras_and_motors env config detect st) as [[co s1] e1].
  rewrite !bind_endstops_blind.
  destruct (bind_endstops env _ [] s1) as [[eo s2] e2].
  pose proof (finish_initialize_store config co eo (set_scanner_device d1 s2))
    as H1.
  pose proof (finish_initialize_store config co eo (set_scanner_device d2 s2))
    as H2.
  unfold store_after in H1, H2. rewrite !light_loops_blind in H1, H2.
  destruct (finish_initialize env config co eo (set_scanner_device d1 s2))
    as [[u1 t1] f1].
  destruct (finish_initialize env config co eo (set_scanner_device d2 s2))
    as [[u2 t2] f2].
  destruct ((for_each _ (init_light_controller env) ;;
             lit <- read light_controllers ;;
             for_each (keys lit) (switch_on_light env)) s2) as [[u s3] e3].
  cbn [fst snd scanner_device set_scanner_device] in *.
  rewrite H1, H2, Hname. reflexivity.
Qed.

Lemma initialize_store_when_ready : forall config detect st,
    initialized (scanner_device st) = true ->
    store_after (initialize env config detect) st =
    store_after (rebuild env config detect) (emptied st).
Proof.
  intros config detect st Hready. unfold initialize.
  rewrite store_after_seq.
  change (value_of (read scanner_device) st) with (scanner_device st).
  change (store_after (read scanner_device) st) with st.
  rewrite Hready, store_after_seq.
  assert (Hst : store_after (reinit_teardown env) st = emptied st).
  { unfold store_after. rewrite reinit_teardown_run. reflexivity. }
  rewrite Hst. reflexivity.
Qed.

End TwiceFacts.

(** X12.  On an initialized device, [initialize] with the same
    configuration is idempotent on the module state: a second run tears
    down what the first built and builds the same device aggregate and
    the same four registries again. *)
Theorem reinitialize_twice_is_once :
  forall env config detect st,
    initialized (scanner_device st) = true ->
    let st1 := store_after (initialize env config detect) st in
    store_after (initialize env config detect) st1 = st1.
Proof.
  intros env config detect st Hready st1. subst st1.
  rewrite (initialize_store_when_ready env config detect
             (store_after (initialize env config detect) st))
    by apply initialize_marks_initialized.
  rewrite (initialize_store_when_ready env config detect st Hready).
  destruct (initialize_aggregate env config detect st) as [co [eo Hagg]].
  rewrite (initialize_store_when_ready env config detect st Hready) in Hagg.
  apply (rebuild_ignores_device env config detect
           (scanner_device (store_after (rebuild env config detect)
                                        (emptied st)))
           (scanner_device st) (mkStore initial_device [] [] [] [])).
  rewrite Hagg. unfold effective_name. simpl.
  destruct (cfg_name config); reflexivity.
Qed.

Lemma reinitialize_twice_is_once_witness :
  store_after (initialize (bench_env []) bench_config false)
    (store_after (initialize (bench_env []) bench_config false) bench_store)
  = store_after (initialize (bench_env []) bench_config false) bench_store.
Proof.
  apply (reinitialize_twice_is_once (bench_env []) bench_config false
           bench_store).
  reflexivity.
Defined.

(* ================================================================== *)
(** * The overlay check reads whole lines *)
(* ================================================================== *)

Section OverlayFacts.
Import Overlay.

Lemma append_assoc : forall a b c : string,
    ((a ++ b) ++ c)%string = (a ++ (b ++ c))%string.
Proof.
  induction a as [| ch a IH]; intros b c; simpl; [reflexivity|].
  rewrite IH. reflexivity.
Qed.

Lemma splitlines_line : forall line text,
    break_free line = true ->
    splitlines (line ++ String "010" text) = line :: splitlines text.
Proof.
  induction line as [| c line IH]; intros text Hfree.
  - reflexivity.
  - simpl in Hfree. apply andb_true_iff in Hfree. destruct Hfree as [Hc Hrest].
    apply negb_true_iff in Hc.
    change (String c line ++ String "010" text)%string
      with (String c (line ++ String "010" text)).
    cbn [splitlines]. rewrite Hc, (IH text Hrest). reflexivity.
Qed.

Lemma splitlines_open_line : forall line,
    break_free line = true ->
    splitlines line = match line with EmptyString => [] | _ => [line] end.
Proof.
  induction line as [| c line IH]; intros Hfree; [reflexivity|].
  simpl in Hfree. apply andb_true_iff in Hfree. destruct Hfree as [Hc Hrest].
  apply negb_true_iff in Hc.
  cbn [splitlines]. rewrite Hc, (IH Hrest). destruct line; reflexivity.
Qed.

(** Reading back a file written line by line gives its lines, and a last
    line that was left open when it is not empty. *)
Lemma splitlines_unlines : forall lines last,
    forallb break_free lines = true ->
    break_free last = true ->
    splitlines (unlines lines ++ last) =
    lines ++ match last with EmptyString => [] | _ => [last] end.
Proof.
  induction lines as [| line rest IH]; intros last Hlines Hlast.
  - simpl. apply splitlines_open_line, Hlast.
  - simpl in Hlines. apply andb_true_iff in Hlines.
    destruct Hlines as [Hline Hrest].
    cbn [unlines]. rewrite append_assoc.
    change (String "010" (unlines rest) ++ last)%string
      with (String "010" (unlines rest ++ last)).
    rewrite splitlines_line by exact Hline.
    rewrite IH by assumption. reflexivity.
Qed.

Lemma existsb_eqb_in : forall line lines,
    existsb (String.eqb line) lines = true <-> In line lines.
Proof.
  intros line lines. rewrite existsb_exists. split.
  - intros [x [Hin Heq]]. apply String.eqb_eq in Heq. subst x. exact Hin.
  - intros Hin. exists line. split; [exact Hin | apply String.eqb_refl].
Qed.

(** X15.  [check_arducam_overlay] answers [True] exactly when the camera
    model is one of the two it knows, spelled as in its table, and the
    overlay of that model is a whole line of the boot configuration:
    a line that carries anything besides the overlay does not count.  It
    answers [False] when the file cannot be read. *)
Theorem check_arducam_overlay_reads_whole_lines :
  forall lines last camera_model,
    forallb break_free lines = true ->
    break_free last = true ->
    (check_arducam_overlay (Ok (unlines lines ++ last)%string) camera_model
     = true <->
     (camera_model = "arducam_64mp" /\
      In "dtoverlay=arducam-64mp" (lines ++ [last])) \/
     (camera_model = "imx519" /\ In "dtoverlay=imx519" (lines ++ [last]))) /\
    (forall e, check_arducam_overlay (Raise e) camera_model = false).
Proof.
  intros lines last camera_model Hlines Hlast. split; [|reflexivity].
  unfold check_arducam_overlay.
  rewrite splitlines_unlines by assumption.
  assert (Hin : forall line,
             line <> EmptyString ->
             (In line (lines ++ match last with
                                | EmptyString => []
                                | _ => [last]
                                end)
              <-> In line (lines ++ [last]))).
  { intros line Hne. rewrite !in_app_iff. destruct last; simpl; [|tauto].
    split; [tauto|]. intros [H | [H | []]]; [auto | congruence]. }
  unfold arducam_overlays, overlay_in. cbn [dict_get].
  destruct (String.eqb "arducam_64mp" camera_model) eqn:E1.
  - apply String.eqb_eq in E1. subst camera_model.
    match goal with
    | |- (if ?b then true else false) = true <-> _ =>
        replace (if b then true else false) with b by (destruct b; reflexivity)
    end.
    rewrite existsb_eqb_in, Hin by discriminate.
    split; [intros H; left; auto|].
    intros [[_ H] | [H _]]; [exact H | discriminate].
  - destruct (String.eqb "imx519" camera_model) eqn:E2.
    + apply String.eqb_eq in E2. subst camera_model.
      match goal with
      | |- (if ?b then true else false) = true <-> _ =>
          replace (if b then true else false) with b
            by (destruct b; reflexivity)
      end.
      rewrite existsb_eqb_in, Hin by discriminate.
      split; [intros H; right; auto|].
      intros [[H _] | [_ H]]; [discriminate | exact H].
    + apply String.eqb_neq in E1. apply String.eqb_neq in E2.
      split; [discriminate|].
      intros [[H _] | [H _]]; congruence.
Qed.

Lemma check_arducam_overlay_reads_whole_lines_witness :
  check_arducam_overlay
    (Ok (unlines [ "dtparam=audio=on"; "dtoverlay=imx519" ] ++ "")%string)
    "imx519" = true /\
  check_arducam_overlay
    (Ok (unlines [ "dtparam=audio=on" ] ++ "dtoverlay=imx519,vcm")%string)
    "imx519" = false.
Proof.
  split.
  - apply (check_arducam_overlay_reads_whole_lines
             [ "dtparam=audio=on"; "dtoverlay=imx519" ] "" "imx519");
      [reflexivity | reflexivity |].
    right. split; [reflexivity|]. simpl. auto.
  - reflexivity.
Defined.

End OverlayFacts.

(* ================================================================== *)
(** * The sensor table: lookups, estimates and focal lengths *)
(* ================================================================== *)

Section FloatFacts.

Lemma digits2_doubled : forall k m,
    Z.pos (digits2_pos (doubled k m)) = Z.pos (digits2_pos m) + Z.of_nat k.
Proof.
  induction k as [| k IH]; intros m.
  - simpl. lia.
  - cbn [doubled digits2_pos]. rewrite Pos2Z.inj_succ, IH. lia.
Qed.

Lemma shr_doubled : forall k m,
    Nat.iter k shr_1 {| shr_m := Z.pos (doubled k m); shr_r := false;
                        shr_s := false |}
    = {| shr_m := Z.pos m; shr_r := false; shr_s := false |}.
Proof.
  induction k as [| k IH]; intros m; [reflexivity|].
  rewrite Nat.iter_succ_r. cbn [doubled shr_1 orb]. apply IH.
Qed.

(** Multiplying a double by [1.0] is exact: the product of the mantissas
    is shifted back by the 52 zeros it gained, and nothing is rounded. *)
Lemma SFmul_one_r : forall sx,
    valid_binary sx = true ->
    SFmul prec emax sx (S754_finite false 4503599627370496 (-52)) = sx.
Proof.
  intros [s | s | | s m e] Hvalid; cbn [SFmul].
  - destruct s; reflexivity.
  - destruct s; reflexivity.
  - reflexivity.
  - unfold SpecFloat.valid_binary, bounded, canonical_mantissa in Hvalid.
    apply andb_true_iff in Hvalid. destruct Hvalid as [Hcanon Hmax].
    apply Z.eqb_eq in Hcanon.
    assert (Hm : (m * 4503599627370496)%positive = doubled 52 m).
    { rewrite Pos.mul_comm. reflexivity. }
    rewrite Hm.
    unfold binary_round_aux, shr_fexp.
    cbn [Zdigits2]. rewrite digits2_doubled.
    replace (Z.pos (digits2_pos m) + Z.of_nat 52 + (e + -52))
      with (Z.pos (digits2_pos m) + e) by lia.
    rewrite Hcanon.
    replace (e - (e + -52)) with 52 by lia.
    cbn [shr shr_record_of_loc].
    change (iter_pos shr_1 52 ?r) with (Nat.iter 52 shr_1 r).
    rewrite shr_doubled.
    cbn [shr_m loc_of_shr_record round_nearest_even Zdigits2].
    replace (e + -52 + 52) with e by lia.
    rewrite Hcanon, Z.sub_diag. cbn [shr shr_m].
    rewrite Hmax. destruct s; reflexivity.
Qed.

Lemma mul_one_r : forall x : float, (x * 1)%float = x.
Proof.
  intros x. apply Prim2SF_inj. rewrite mul_spec.
  apply SFmul_one_r, Prim2SF_valid.
Qed.

(** The quotient of an integer by itself is [1.0], whatever its size. *)
Lemma SFdiv_self : forall s p,
    SFdiv prec emax (S754_finite s p 0) (S754_finite s p 0)
    = S754_finite false 4503599627370496 (-52).
Proof.
  intros s p. cbn [SFdiv]. unfold SFdiv_core_binary.
  replace (Zdigits2 (Z.pos p) + 0 - (Zdigits2 (Z.pos p) + 0)) with 0 by lia.
  change (Z.min (fexp prec emax 0) (0 - 0)) with (-53).
  change (0 - 0 - -53) with 53.
  cbv beta iota zeta.
  assert (Hdiv : Z.div_eucl (Z.shiftl (Z.pos p) 53) (Z.pos p)
                 = (9007199254740992, 0)).
  { rewrite Z.shiftl_mul_pow2 by lia.
    rewrite (surjective_pairing (Z.div_eucl _ _)).
    change (fst (Z.div_eucl ?a ?b)) with (a / b).
    change (snd (Z.div_eucl ?a ?b)) with (a mod b).
    rewrite Z.mul_comm, Z.div_mul, Z.mod_mul by lia. reflexivity. }
  rewrite Hdiv.
  assert (Hloc : new_location (Z.pos p) 0 = loc_Exact).
  { unfold new_location. destruct (Z.even (Z.pos p)); reflexivity. }
  rewrite Hloc. destruct s; reflexivity.
Qed.

Lemma int_true_div_self : forall n, n <> 0 -> int_true_div n n = Ok 1%float.
Proof.
  intros n Hn. unfold int_true_div.
  destruct (n =? 0) eqn:E; [apply Z.eqb_eq in E; contradiction|].
  destruct n as [| p | p]; [contradiction | |];
    cbn [Z2SF]; rewrite SFdiv_self; reflexivity.
Qed.

End FloatFacts.

Section LookupFacts.

Lemma sensor_name_is_its_key : forall sensor,
    sensor = imx519 \/ sensor = hawkeye \/ sensor = imx708 \/ sensor = imx477 ->
    In (Sensors.name sensor) get_sensor_names /\
    get_sensor_by_name (Sensors.name sensor) = Some sensor.
Proof.
  intros sensor [-> | [-> | [-> | ->]]]; split;
    solve [reflexivity | simpl; tauto].
Qed.

Lemma alias_table_extends_sensor_table : forall key sensor,
    dict_get SENSOR_DATABASE key = Some sensor ->
    dict_get SENSOR_DATABASE
      (match dict_get CAMERA_SENSOR_ALIASES key with
       | Some sensor_name => sensor_name
       | None => key
       end) = Some sensor.
Proof.
  intros key sensor H.
  destruct (String.eqb "imx519" key) eqn:E1;
    [apply String.eqb_eq in E1; subst key; exact H|].
  destruct (String.eqb "hawkeye" key) eqn:E2;
    [apply String.eqb_eq in E2; subst key; exact H|].
  destruct (String.eqb "imx708" key) eqn:E3;
    [apply String.eqb_eq in E3; subst key; exact H|].
  destruct (String.eqb "imx477" key) eqn:E4;
    [apply String.eqb_eq in E4; subst key; exact H|].
  unfold SENSOR_DATABASE in H. cbn [dict_get] in H.
  rewrite E1, E2, E3, E4 in H. discriminate.
Qed.

End LookupFacts.

(** X16.  The three sensor lookups agree.  [exif.get_sensor_for_camera]
    and [sensors.get_sensor_by_camera_name] return the same for every
    camera name; the alias table hides no sensor, so whatever
    [get_sensor_by_name] finds under a name, the lookup with aliases
    finds too; and a sensor that a lookup returns is listed by
    [get_sensor_names] under its own name and found again by it. *)
Theorem sensor_lookups_agree :
  forall camera_name,
    get_sensor_for_camera camera_name
      = get_sensor_by_camera_name camera_name /\
    (forall sensor,
        get_sensor_by_name camera_name = Some sensor ->
        get_sensor_by_camera_name camera_name = Some sensor) /\
    (forall sensor,
        get_sensor_by_camera_name camera_name = Some sensor ->
        In (Sensors.name sensor) get_sensor_names /\
        get_sensor_by_name (Sensors.name sensor) = Some sensor).
Proof.
  intros camera_name. split; [|split].
  - destruct camera_name; reflexivity.
  - intros sensor H. unfold get_sensor_by_name in H.
    unfold get_sensor_by_camera_name, resolve_alias.
    apply alias_table_extends_sensor_table. exact H.
  - intros sensor H. apply sensor_name_is_its_key.
    exact (sensor_database_cases _ _ H).
Qed.

Lemma sensor_lookups_agree_witness :
  get_sensor_by_camera_name "IMX708" = Some imx708 /\
  In "hawkeye" get_sensor_names /\
  get_sensor_by_name "hawkeye" = Some hawkeye /\
  get_sensor_by_name "arducam_64mp" = None.
Proof.
  destruct (sensor_lookups_agree "IMX708") as [_ [H1 _]].
  destruct (sensor_lookups_agree "Arducam_64MP") as [_ [_ H2]].
  destruct (H2 hawkeye eq_refl) as [H3 H4].
  split; [exact (H1 imx708 eq_refl) | split; [exact H3 | split]].
  - exact H4.
  - reflexivity.
Defined.

(** X17.  A sensor that [estimate_sensor_from_resolution] returns is a
    sensor of the table that is at least as wide and as high as the
    image, and the native resolution of every sensor of the table is
    estimated as that sensor. *)
Theorem estimate_sensor_from_resolution_fits :
  (forall width height sensor,
      estimate_sensor_from_resolution width height = Ok (Some sensor) ->
      In sensor (values SENSOR_DATABASE) /\
      width <= native_width_px sensor /\
      height <= native_height_px sensor) /\
  (forall sensor,
      In sensor (values SENSOR_DATABASE) ->
      estimate_sensor_from_resolution
        (native_width_px sensor) (native_height_px sensor)
      = Ok (Some sensor)).
Proof.
  split.
  - intros width height sensor.
    unfold estimate_sensor_from_resolution,
      estimate_sensor_from_resolution_in.
    destruct (find (exact_native_match width height) (values SENSOR_DATABASE))
      as [exact |] eqn:Efind.
    + intros H. injection H as ->.
      apply find_some in Efind. destruct Efind as [Hin Hmatch].
      unfold exact_native_match in Hmatch.
      apply andb_true_iff in Hmatch. destruct Hmatch as [Hw Hh].
      apply Z.eqb_eq in Hw. apply Z.eqb_eq in Hh.
      split; [exact Hin | lia].
    + destruct (int_true_div width height) as [target_ratio | e];
        cbv beta iota delta [bind]; [|discriminate].
      rewrite ratio_scan_is_find by apply table_ratios_defined.
      intros H.
      assert (Hfound :
        find (ratio_and_size_match target_ratio width height)
             (values SENSOR_DATABASE) = Some sensor) by congruence.
      apply find_some in Hfound. destruct Hfound as [Hin Hmatch].
      unfold ratio_and_size_match in Hmatch.
      destruct (int_true_div (native_width_px sensor)
                             (native_height_px sensor)); [|discriminate].
      apply andb_true_iff in Hmatch. destruct Hmatch as [Hmatch Hh].
      apply andb_true_iff in Hmatch. destruct Hmatch as [_ Hw].
      apply Z.leb_le in Hw. apply Z.leb_le in Hh.
      split; [exact Hin | lia].
  - intros sensor Hin. simpl in Hin.
    destruct Hin as [<- | [<- | [<- | [<- | []]]]]; reflexivity.
Qed.

Lemma estimate_sensor_from_resolution_fits_witness :
  estimate_sensor_from_resolution 2328 1748 = Ok (Some imx519) /\
  2328 <= native_width_px imx519 /\
  estimate_sensor_from_resolution 9152 6944 = Ok (Some hawkeye).
Proof.
  destruct estimate_sensor_from_resolution_fits as [Hfits Hnative].
  assert (H : estimate_sensor_from_resolution 2328 1748 = Ok (Some imx519))
    by (vm_compute; reflexivity).
  destruct (Hfits 2328 1748 imx519 H) as [_ [Hw _]].
  split; [exact H | split; [exact Hw|]].
  apply (Hnative hawkeye). simpl. auto.
Defined.

(** X18.  At the sensor's native width [focal_length_px] does not
    rescale: its result is [focal_mm * (native_width_px /
    sensor_width_mm)], for every focal length and every sensor with a
    non-zero native width.  With a native width of zero it raises
    [ZeroDivisionError] for every image width. *)
Theorem focal_length_px_at_native_width :
  forall sensor focal_mm,
    (native_width_px sensor <> 0 ->
     focal_length_px sensor focal_mm (native_width_px sensor) =
     (native_width <- float_of_int (native_width_px sensor) ;;
      px_per_mm <- float_true_div native_width (sensor_width_mm sensor) ;;
      Ok (focal_mm * px_per_mm)%float)%py) /\
    (native_width_px sensor = 0 ->
     forall image_width_px,
       focal_length_px sensor focal_mm image_width_px
       = Raise ZeroDivisionError).
Proof.
  intros sensor focal_mm. unfold focal_length_px. split.
  - intros Hn. rewrite int_true_div_self by exact Hn.
    cbv beta iota delta [bind].
    destruct (float_of_int (native_width_px sensor)); [|reflexivity].
    destruct (float_true_div a (sensor_width_mm sensor)); [|reflexivity].
    cbv zeta. rewrite mul_one_r. reflexivity.
  - intros Hn image_width_px. rewrite Hn. reflexivity.
Qed.

Lemma focal_length_px_at_native_width_witness :
  focal_length_px imx519 4.28 4656 = Ok (4.28 * (4656 / 4.64))%float /\
  focal_length_px (mkCameraSensor "blank" 4.64 3.48 0 3496 None) 4.28 4656
  = Raise ZeroDivisionError.
Proof.
  split.
  - apply (proj1 (focal_length_px_at_native_width imx519 4.28)).
    discriminate.
  - apply (proj2 (focal_length_px_at_native_width
                    (mkCameraSensor "blank" 4.64 3.48 0 3496 None) 4.28)).
    reflexivity.
Defined.

(* ================================================================== *)
(** * The handles that the camera controllers share *)
(* ================================================================== *)

Section LinuxpyFacts.
Import Linuxpy.

Lemma mode_eqb_refl : forall mode, mode_eqb mode mode = true.
Proof. destruct mode; reflexivity. Qed.

Lemma mode_differs_recorded : forall device mode,
    mode_differs (mkClassState device (Some mode)) mode = false.
Proof.
  intros. unfold mode_differs. simpl. rewrite mode_eqb_refl. reflexivity.
Qed.

Lemma mode_differs_false : forall st mode,
    mode_differs st mode = false -> _current_mode st = Some mode.
Proof.
  intros [device [current |]] mode; unfold mode_differs; simpl;
    [|discriminate].
  destruct current, mode; simpl; intros H; congruence.
Qed.

Lemma reopen_state : forall driver path mode closing,
    snd (fst (reopen driver path mode closing))
    = mkClassState (Some (mkHandle path)) (Some mode).
Proof.
  intros. unfold reopen.
  destruct (configure driver path mode) as [configured configuring].
  reflexivity.
Qed.

(** Once a mode is recorded, a device is recorded. *)
Lemma reachable_has_device : forall st,
    reachable st ->
    _current_mode st <> None -> exists device, _device st = Some device.
Proof.
  intros st Hreach. induction Hreach as [| driver path mode st Hreach IH].
  - intros H. elim H. reflexivity.
  - intros _. unfold _get_device.
    destruct (mode_differs st mode) eqn:Ediff.
    + destruct (_device st) as [old |] eqn:Eold.
      * destruct (driver (CloseDevice (handle_path old))).
        -- rewrite reopen_state. eexists. reflexivity.
        -- simpl. eexists. reflexivity.
      * rewrite reopen_state. eexists. reflexivity.
    + simpl. apply IH. rewrite (mode_differs_false _ _ Ediff). discriminate.
Qed.

End LinuxpyFacts.

(** X19.  The V4L2 device belongs to the mode, not to the camera.  After
    any call of [_get_device] for a mode, whether it returned or raised,
    the class records that mode and holds a device, and the next request
    for the same mode, through whichever controller and whatever the
    driver then does, makes no call on the driver and returns that
    device.  When the first call changed the mode and returned, the
    device is the one of the first controller's camera. *)
Theorem linuxpy_device_follows_mode_not_camera :
  forall driver driver' path path' mode st,
    Linuxpy.reachable st ->
    let '(answer, st1, calls) := Linuxpy._get_device driver path mode st in
    exists device,
      Linuxpy._device st1 = Some device /\
      Linuxpy._current_mode st1 = Some mode /\
      Linuxpy._get_device driver' path' mode st1
        = (Ok (Some device), st1, []) /\
      (forall handle, answer = Ok handle -> handle = Some device) /\
      (Linuxpy.mode_differs st mode = true ->
       (exists handle, answer = Ok handle) ->
       Linuxpy.handle_path device = path).
Proof.
  intros driver driver' path path' mode st Hreach.
  assert (Hnext : forall device,
             Linuxpy._get_device driver' path' mode
               (Linuxpy.mkClassState (Some device) (Some mode))
             = (Ok (Some device),
                Linuxpy.mkClassState (Some device) (Some mode), [])).
  { intros device. unfold Linuxpy._get_device.
    rewrite mode_differs_recorded. reflexivity. }
  unfold Linuxpy._get_device at 1.
  destruct (Linuxpy.mode_differs st mode) eqn:Ediff.
  - destruct (Linuxpy._device st) as [old |] eqn:Eold.
    + destruct (driver (Linuxpy.CloseDevice (Linuxpy.handle_path old)))
        as [u | e].
      * unfold Linuxpy.reopen.
        destruct (Linuxpy.configure driver path mode)
          as [[u' | e] configuring];
          (exists (Linuxpy.mkHandle path); simpl;
           repeat split; try apply Hnext; try reflexivity;
           intros handle H; congruence).
      * exists old. simpl. repeat split; try apply Hnext.
        -- intros handle H. discriminate.
        -- intros _ [handle H]. discriminate.
    + unfold Linuxpy.reopen.
      destruct (Linuxpy.configure driver path mode)
        as [[u' | e] configuring];
        (exists (Linuxpy.mkHandle path); simpl;
         repeat split; try apply Hnext; try reflexivity;
         intros handle H; congruence).
  - pose proof (mode_differs_false _ _ Ediff) as Hmode.
    destruct (reachable_has_device st Hreach) as [device Hdevice];
      [rewrite Hmode; discriminate|].
    exists device. destruct st as [dev0 mode0]. simpl in *. subst.
    repeat split; try apply Hnext.
    + intros handle H. congruence.
    + intros H. discriminate.
Qed.

Lemma linuxpy_device_follows_mode_not_camera_witness :
  Linuxpy._get_device willing_driver "/dev/video2" Linuxpy.PHOTO
    (snd (fst (Linuxpy._get_device willing_driver "/dev/video0"
                 Linuxpy.PHOTO Linuxpy.at_load)))
  = (Ok (Some (Linuxpy.mkHandle "/dev/video0")),
     Linuxpy.mkClassState (Some (Linuxpy.mkHandle "/dev/video0"))
                          (Some Linuxpy.PHOTO),
     []).
Proof.
  pose proof (linuxpy_device_follows_mode_not_camera
                willing_driver willing_driver "/dev/video0" "/dev/video2"
                Linuxpy.PHOTO Linuxpy.at_load Linuxpy.reachable_at_load) as H.
  simpl in H. destruct H as [device [Hdevice [_ [Hnext _]]]].
  injection Hdevice as <-. exact Hnext.
Defined.

(** X20.  The GPhoto2 session is created once for the whole process.  A
    session that [_get_gp_camera] leaves in the class attribute is what
    every later call returns, through whichever controller, without a
    call on the library; a session that a call returns is the one it
    leaves.  The first call that returns gives the session the port of
    its own camera and the abilities of the first camera detected; a
    first call that raises after the session was created leaves a session
    without abilities behind. *)
Theorem gphoto2_session_is_created_once :
  forall lib path st,
    let '(answer, st1) := Gphoto2._get_gp_camera lib path st in
    (forall session,
        st1 = Some session ->
        forall lib' path',
          Gphoto2._get_gp_camera lib' path' st1 = (Ok session, st1)) /\
    (forall session, answer = Ok session -> st1 = Some session) /\
    (st = None ->
     forall session,
       answer = Ok session ->
       exists first_model first_port others port model_abilities,
         Gphoto2.detect lib = Ok ((first_model, first_port) :: others) /\
         Gphoto2.lookup_path lib path = Ok port /\
         Gphoto2.lookup_model lib first_model = Ok model_abilities /\
         session = Gphoto2.mkGpCamera (Some port) (Some model_abilities)) /\
    (st = None ->
     forall e session,
       answer = Raise e -> st1 = Some session ->
       Gphoto2.abilities session = None).
Proof.
  intros lib path [session0 |]; unfold Gphoto2._get_gp_camera.
  - split; [|split; [|split]]; try discriminate.
    + intros session H lib' path'. injection H as <-. reflexivity.
    + intros session H. congruence.
  - destruct (Gphoto2.load_port_info_list lib);
      [destruct (Gphoto2.load_abilities_list lib);
       [destruct (Gphoto2.detect lib)
          as [[| [first_model first_port] others] |] eqn:Edetect;
        [| destruct (Gphoto2.lookup_path lib path) as [port |] eqn:Eport;
           [destruct (Gphoto2.set_port_info lib port);
            [destruct (Gphoto2.lookup_model lib first_model)
               as [model_abilities |] eqn:Emodel;
             [destruct (Gphoto2.set_abilities lib model_abilities)| ]| ]| ]| ]
       | ]
      | ].
    all: split; [|split; [|split]].
    all: try (intros; discriminate).
    all: try (intros session H lib' path'; injection H as <-; reflexivity).
    all: try (intros _ e' session _ H; injection H as <-; reflexivity).
    + intros session H. congruence.
    + intros _ session H. injection H as <-.
      exists first_model, first_port, others, port, model_abilities.
      repeat split; assumption.
Qed.

Lemma gphoto2_session_is_created_once_witness :
  Gphoto2._get_gp_camera library_without_port "usb:001,009" None
  = (Raise (RuntimeError "unknown port"),
     Some (Gphoto2.mkGpCamera None None)) /\
  forall lib' path',
    Gphoto2._get_gp_camera lib' path' (Some (Gphoto2.mkGpCamera None None))
    = (Ok (Gphoto2.mkGpCamera None None),
       Some (Gphoto2.mkGpCamera None None)).
Proof.
  pose proof (gphoto2_session_is_created_once
                library_without_port "usb:001,009" None) as H.
  simpl in H. destruct H as [Hnext _].
  split; [reflexivity | exact (Hnext _ eq_refl)].
Defined.

(* ================================================================== *)
(** * Every registered light is switched on *)
(* ================================================================== *)

Section LightFacts.
Variable env : Env.

Lemma switch_on_light_run : forall n st,
    switch_on_light env n st = (tt, st, switch_on_events env n).
Proof.
  intros n st. unfold switch_on_light, switch_on_events, attempt, try_log,
    call, seq, emit, ret.
  destruct (turn_on_raises env n); reflexivity.
Qed.

(** [finish_initialize] switches on the lights of the registry as the
    light loop leaves it, and the registry stays as it is. *)
Lemma finish_initialize_lights : forall config cams objs st,
    exists before,
      events_of (finish_initialize env config cams objs) st =
      before
      ++ flat_map (switch_on_events env)
           (keys (light_controllers
                    (store_after (finish_initialize env config cams objs) st)))
      ++ [Broadcast].
Proof.
  intros config cams objs st.
  unfold finish_initialize, events_of, store_after, seq, read, update, emit.
  destruct (for_each _ (init_light_controller env) st) as [[u1 s1] e1].
  rewrite (for_each_store_free (switch_on_light env) (switch_on_events env))
    by apply switch_on_light_run.
  exists e1. reflexivity.
Qed.

End LightFacts.

(** X21.  Whatever the store and the configuration, every light
    controller that is registered when [initialize] ends has been asked
    to turn on during that run, also one that [initialize] did not
    create; a light whose [turn_on] raised is logged. *)
Theorem initialize_turns_every_light_on :
  forall env config detect st n,
    let st' := store_after (initialize env config detect) st in
    dict_mem (light_controllers st') n = true ->
    In (TurnOn n) (events_of (initialize env config detect) st) /\
    (turn_on_raises env n = true ->
     In (Caught LightK n) (events_of (initialize env config detect) st)).
Proof.
  intros env config detect st n st' Hlit. subst st'.
  unfold store_after, events_of in *. rewrite initialize_stages in *.
  destruct (before_endstops env config detect st) as [[co s1] e1].
  destruct (bind_endstops env _ [] s1) as [[eo s2] e2].
  destruct (finish_initialize_lights env config co eo s2) as [before Hev].
  unfold events_of, store_after in Hev.
  destruct (finish_initialize env config co eo s2) as [[u s3] e3].
  simpl in *. subst e3.
  apply dict_mem_in_keys in Hlit.
  assert (Hround : forall e, In e (switch_on_events env n) ->
             In e (e1 ++ e2 ++ before
                   ++ flat_map (switch_on_events env)
                               (keys (light_controllers s3))
                   ++ [Broadcast])).
  { intros e He. do 3 (apply in_or_app; right). apply in_or_app. left.
    apply in_flat_map. exists n. split; assumption. }
  split.
  - apply Hround. unfold switch_on_events, attempt. left. reflexivity.
  - intros Hraise. apply Hround. unfold switch_on_events, attempt.
    rewrite Hraise. right. left. reflexivity.
Qed.

Lemma initialize_turns_every_light_on_witness :
  dict_mem (light_controllers bench_store) "ring" = true /\
  In (TurnOn "ring")
     (events_of (initialize (bench_env []) bench_config false) initial_store).
Proof.
  split; [reflexivity|].
  apply (initialize_turns_every_light_on
           (bench_env []) bench_config false initial_store "ring").
  reflexivity.
Defined.

(* ================================================================== *)
(** * Storing a configuration *)
(* ================================================================== *)

Section StoreConfigFacts.
Import Security Router.

Lemma ends_with_refl : forall s, ends_with s s = true.
Proof.
  intros s. destruct s; simpl; [reflexivity|].
  rewrite Ascii.eqb_refl, String.eqb_refl. reflexivity.
Qed.

Lemma ends_with_app : forall suffix s,
    ends_with suffix (s ++ suffix) = true.
Proof.
  intros suffix. induction s as [| c s IH].
  - apply ends_with_refl.
  - change (String.eqb suffix (String c (s ++ suffix))
            || ends_with suffix (s ++ suffix) = true).
    rewrite IH. apply orb_true_r.
Qed.

Lemma all_safe_app : forall a b,
    all_safe (a ++ b) = all_safe a && all_safe b.
Proof.
  induction a as [| c a IH]; intros b; simpl; [reflexivity|].
  rewrite IH. apply andb_assoc.
Qed.

Lemma json_name_facts : forall safe_filename,
    all_safe safe_filename = true ->
    all_safe (json_name safe_filename) = true /\
    ends_with ".json" (json_name safe_filename) = true /\
    (json_name safe_filename = safe_filename \/
     json_name safe_filename = (safe_filename ++ ".json")%string).
Proof.
  intros safe_filename Hsafe. unfold json_name.
  destruct (ends_with ".json" safe_filename) eqn:E.
  - auto.
  - rewrite all_safe_app, Hsafe, ends_with_app. auto.
Qed.

(** X22.  [POST /device/configurations/] puts a file into the settings
    directory under a validated name only: the one move it makes takes
    the temporary file to a name of the settings directory that consists
    of letters, digits, [_], [.] and [-], ends in [.json], and is the
    trimmed request name or that name with [.json] appended.  A name that
    is refused is refused after the temporary file has been written,
    which then stays where it is; and the endpoint answers with a status
    only after the move, for a device that has a model. *)
Theorem add_config_json_stores_validated_names_only :
  forall disk env schemas config_file st,
    let '(answer, events) :=
      add_config_json disk env schemas config_file st in
    (forall temp dir file,
        In (Move temp dir file) events ->
        temp = temp_name disk /\ dir = settings_dir disk /\
        all_safe file = true /\ ends_with ".json" file = true /\
        (file = strip config_file \/
         file = (strip config_file ++ ".json")%string)) /\
    (answer = Refuse 400 ->
     events = [ WriteTemp (temp_name disk); MakeDirs (settings_dir disk) ]) /\
    (forall body,
        answer = Respond body ->
        In (Move (temp_name disk) (settings_dir disk)
                 (json_name (strip config_file))) events /\
        Device.model (scanner_device st) = Some (status_model body)).
Proof.
  intros disk env schemas config_file st. unfold add_config_json.
  destruct (write_temp_fails disk);
    [split; [intros ? ? ? [] | split; intros; discriminate]|].
  destruct (makedirs_fails disk).
  { split; [|split; intros; discriminate].
    intros temp dir file [H | []]. discriminate. }
  destruct (_validate_config_filename config_file)
    as [safe_filename | status_code detail] eqn:Evalid.
  - destruct (accepted_name_facts _ _ Evalid) as [Hstrip [_ [Hsafe _]]].
    destruct (json_name_facts safe_filename Hsafe) as [Hall [Hjson Hname]].
    destruct (move_fails disk).
    { split; [|split; intros; discriminate].
      intros temp dir file [H | [H | []]]; discriminate. }
    split; [|split].
    + intros temp dir file [H | [H | [H | []]]]; try discriminate.
      injection H as <- <- <-. rewrite <- Hstrip. auto.
    + destruct (Device.get_device_info env st) as [info | e];
        [destruct (model_validate schemas info)|]; discriminate.
    + intros body Hbody. rewrite <- Hstrip.
      split; [simpl; auto|].
      unfold Device.get_device_info in Hbody.
      destruct (collect_status (camera_status env) _ []) as [cams |];
        [|discriminate].
      destruct (collect_status (motor_status env) _ []) as [mots |];
        [|discriminate].
      destruct (collect_status (light_status env) _ []) as [lits |];
        [|discriminate].
      cbv beta iota delta [bind] in Hbody. unfold model_validate in Hbody.
      cbn [info_model info_shield] in Hbody.
      destruct (Device.model (scanner_device st)) as [m |]; [|discriminate].
      destruct (shield (scanner_device st)) as [sh |]; [|discriminate].
      destruct (forallb _ _ && forallb _ _ && forallb _ _); [|discriminate].
      injection Hbody as <-. reflexivity.
  - split; [|split; [reflexivity | intros; discriminate]].
    intros temp dir file [H | [H | []]]; discriminate.
Qed.

Lemma add_config_json_stores_validated_names_only_witness :
  add_config_json sound_disk (bench_env []) any_status " mini " initial_store
  = (Refuse 500,
     [ WriteTemp "/tmp/tmpab12.json";
       MakeDirs "/home/openscan/settings/device";
       Move "/tmp/tmpab12.json" "/home/openscan/settings/device"
            "mini.json" ]) /\
  all_safe "mini.json" = true.
Proof.
  pose proof (add_config_json_stores_validated_names_only
                sound_disk (bench_env []) any_status " mini " initial_store)
    as H.
  assert (Hrun :
    add_config_json sound_disk (bench_env []) any_status " mini "
                    initial_store
    = (Refuse 500,
       [ WriteTemp "/tmp/tmpab12.json";
         MakeDirs "/home/openscan/settings/device";
         Move "/tmp/tmpab12.json" "/home/openscan/settings/device"
              "mini.json" ])) by (vm_compute; reflexivity).
  rewrite Hrun in H. destruct H as [Hmove _].
  split; [exact Hrun|].
  destruct (Hmove "/tmp/tmpab12.json" "/home/openscan/settings/device"
                  "mini.json") as [_ [_ [Hsafe _]]];
    [simpl; auto | exact Hsafe].
Defined.

End StoreConfigFacts.

(* ================================================================== *)
(** * The order in which [initialize] builds *)
(* ================================================================== *)

Section OrderFacts.
Variable env : Env.

Lemma teardown_stage_tears_down : forall ready,
    emits_only (fun e => tears_down e = true)
               (if ready : bool then reinit_teardown env else ret tt).
Proof.
  intros [|]; [|apply emits_only_ret].
  unfold reinit_teardown, remove_motor_controller, remove_light_controller,
    remove_camera_controller, close_endstop, pop_endstop_controller.
  repeat emits_step.
Qed.

Lemma detect_cameras_is_about_cameras :
    emits_only (fun e => about CameraK e = true) (_detect_cameras env).
Proof.
  unfold _detect_cameras, remove_camera_controller. repeat emits_step.
Qed.

Lemma camera_loop_is_about_cameras : forall descriptors,
    emits_only (fun e => about CameraK e = true)
               (for_each descriptors (init_camera_controller env)).
Proof.
  intros. unfold init_camera_controller, create_camera_controller.
  repeat emits_step.
Qed.

Lemma motor_loop_is_about_motors : forall descriptors,
    emits_only (fun e => about MotorK e = true)
               (for_each descriptors (init_motor_controller env)).
Proof.
  intros. unfold init_motor_controller, create_motor_controller.
  repeat emits_step.
Qed.

Lemma bind_endstops_is_about_endstops : forall entries objs,
    emits_only (fun e => about EndstopK e = true)
               (bind_endstops env entries objs).
Proof.
  induction entries as [| [k data] rest IH]; intros objs; simpl.
  - apply emits_only_ret.
  - apply emits_only_seq; [|intros o; apply IH].
    unfold bind_endstop, get_motor_controller. repeat emits_step.
Qed.

Lemma light_loops_are_about_lights : forall light_objects,
    emits_only (fun e => about LightK e = true)
      (for_each light_objects (init_light_controller env) ;;
       lit <- read light_controllers ;;
       for_each (keys lit) (switch_on_light env)).
Proof.
  intros. unfold init_light_controller, create_light_controller,
    switch_on_light.
  repeat emits_step.
Qed.

End OrderFacts.

(** X23.  [initialize] works in a fixed order.  Its events are those of
    the teardown, if there is one, then those about cameras, then those
    about motors, then those about endstops, then those about lights,
    and last the status broadcast: every motor controller is constructed
    before the first endstop is bound, and no light is touched before the
    last endstop listener is started. *)
Theorem initialize_builds_in_order :
  forall env config detect st,
    exists teardown cams mots stops lits,
      events_of (initialize env config detect) st
      = teardown ++ cams ++ mots ++ stops ++ lits ++ [Broadcast] /\
      Forall (fun e => tears_down e = true) teardown /\
      Forall (fun e => about CameraK e = true) cams /\
      Forall (fun e => about MotorK e = true) mots /\
      Forall (fun e => about EndstopK e = true) stops /\
      Forall (fun e => about LightK e = true) lits.
Proof.
  intros env config detect st.
  unfold events_of, initialize, build_cameras_and_motors, finish_initialize.
  unfold seq at 1. unfold read at 1. unfold seq at 1.
  pose proof (teardown_stage_tears_down env
                (initialized (scanner_device st)) st) as H0.
  unfold events_of in H0.
  destruct ((if initialized (scanner_device st)
             then reinit_teardown env else ret tt) st) as [[u0 s0] e0].
  unfold seq at 1. unfold seq at 1.
  assert (H1 : Forall (fun e => about CameraK e = true)
                 (snd ((if detect
                           || is_empty (section_dict (cfg_cameras config))
                        then _detect_cameras env
                        else ret (cameras_from_config env
                                    (section_dict (cfg_cameras config)) []))
                         s0))).
  { destruct (detect || is_empty (section_dict (cfg_cameras config)));
      [apply detect_cameras_is_about_cameras | constructor]. }
  destruct ((if detect || is_empty (section_dict (cfg_cameras config))
             then _detect_cameras env
             else ret (cameras_from_config env
                         (section_dict (cfg_cameras config)) [])) s0)
    as [[co s1] e1].
  unfold seq at 1.
  pose proof (camera_loop_is_about_cameras env co s1) as H2.
  unfold events_of in H2.
  destruct (for_each co (init_camera_controller env) s1) as [[u2 s2] e2].
  unfold seq at 1.
  pose proof (motor_loop_is_about_motors env
                (motors_from_config env (section_dict (cfg_motors config)) [])
                s2) as H3.
  unfold events_of in H3.
  destruct (for_each _ (init_motor_controller env) s2) as [[u3 s3] e3].
  unfold ret at 1. unfold seq at 1.
  pose proof (bind_endstops_is_about_endstops env
                (section_dict (cfg_endstops config)) [] s3) as H4.
  unfold events_of in H4.
  destruct (bind_endstops env _ [] s3) as [[eo s4] e4].
  pose proof (light_loops_are_about_lights env
                (lights_from_config env (section_dict (cfg_lights config)) [])
                s4) as H5.
  unfold events_of, seq, read in H5.
  unfold seq, read, update, emit.
  destruct (for_each _ (init_light_controller env) s4) as [[u5 s5] e5].
  destruct (for_each _ (switch_on_light env) s5) as [[u6 s6] e6].
  simpl in *.
  exists e0, (e1 ++ e2), e3, e4, (e5 ++ e6).
  repeat split; try assumption.
  - rewrite !app_nil_r, <- !app_assoc. reflexivity.
  - apply Forall_app. split; assumption.
Qed.
